(** * Trackoon: the logon-graph server (server.py)

    A shallow embedding of [server.py]: the CSV import ([process_csv]), the
    four layouts, the styling helpers and the request handlers over the
    process-wide [current_data], followed by the properties of the
    specification that were checked against it and by further properties
    of the code.

    Conventions.
    - A Python [dict] whose iteration order is observed ([nodes],
      [edge_groups], the smart layout's [groups]) is an association list in
      insertion order; one that is only looked up ([ip_to_hostname],
      [node_edge_count], [node_positions]) is a [gmap].
    - Exceptions are values of [exn]; code that may raise lives in [py].
    - Python floats that are compared or bounded (timestamps, node sizes) are
      exact rationals [Q]; layout coordinates, which go through [math.cos],
      [math.sin] and [random.uniform], are kept as the expression that
      computes them ([float]).
    - What the libraries compute (dateutil, datetime, matplotlib, [int]) is
      the interface [PyLib]; [utc_host] is one host used in the examples. *)

From Stdlib Require Import ZArith QArith Qabs Lia Ascii String.
From stdpp Require Import base option list gmap strings pretty.

Close Scope Q_scope.
Open Scope string_scope.
Open Scope list_scope.
Open Scope nat_scope.

(** ** Exceptions

    The exceptions the modelled code can raise. The text they carry says
    where they come from; it is not the library's own message. *)

Inductive exn : Type :=
| AttributeError (msg : string)
| ValueError (msg : string)
| KeyError (key : string)
| TypeError (msg : string)
| ZeroDivisionError
| OverflowError.

Inductive py (A : Type) : Type :=
| Raise (e : exn)
| Return (a : A).
Arguments Raise {A} e.
Arguments Return {A} a.

#[global] Instance py_ret : MRet py := @Return.
#[global] Instance py_bind : MBind py := fun A B f m =>
  match m with
  | Raise e => Raise e
  | Return a => f a
  end.

Definition lift_option {A} (e : exn) (o : option A) : py A :=
  match o with
  | Some a => Return a
  | None => Raise e
  end.

(** ** Strings *)

(** [s.split(c)] for a one-character separator. *)
Fixpoint split_on (c : ascii) (s : string) : list string :=
  match s with
  | EmptyString => [EmptyString]
  | String a s' =>
      if Ascii.eqb a c then EmptyString :: split_on c s'
      else match split_on c s' with
           | [] => [String a EmptyString]
           | w :: ws => String a w :: ws
           end
  end.

Definition dot : ascii := "."%char.

(** [not s] for a string. *)
Definition is_empty (s : string) : bool :=
  match s with
  | EmptyString => true
  | String _ _ => false
  end.

(** The value of [row.get(column, '')]: [None] is Python's [None], which
    [csv.DictReader] stores for the columns a short row does not reach. *)
Definition field : Type := option string.

(** [hostname.split('.')[0]] *)
Definition strip_domain (hostname : string) : string :=
  hd EmptyString (split_on dot hostname).

(** [strip_domain] applied to a field: [None.split] raises. *)
Definition strip_domain_field (v : field) : py string :=
  match v with
  | Some s => Return (strip_domain s)
  | None => Raise (AttributeError "'NoneType' object has no attribute 'split'")
  end.

(** [tuple(sorted([a, b]))] *)
Definition sorted2 (a b : string) : string * string :=
  if String.ltb b a then (b, a) else (a, b).

(** ** Library interface *)

Class PyLib : Type := {
  (** [parser.isoparse(s).timestamp()]; [None] when it raises. *)
  isoparse_timestamp : string -> option Q;
  (** [datetime.strptime(s, "%Y-%m-%dT%H:%M")] as the seconds between the
      naive epoch 1970-01-01T00:00 and the parsed wall-clock time. *)
  strptime_minute : string -> option Z;
  (** [datetime.timestamp()] of a naive datetime, in the host's zone. *)
  naive_timestamp : Z -> option Q;
  (** [cm.get_cmap('jet')(x)]: red, green, blue, alpha in [0, 1]. *)
  cmap_jet : Q -> Q * Q * Q * Q;
  (** [int(s)]; [None] when it raises [ValueError]. *)
  py_int : string -> option Z
}.

(** ** Numbers and coordinates *)

(** A float, as the expression that computes it. [FUniform lo hi k] is the
    value of the [k]-th call of [random.uniform] since the process started,
    which was [random.uniform(lo, hi)]. *)
Inductive float : Type :=
| FInt (z : Z)
| FPi
| FAdd (a b : float)
| FMul (a b : float)
| FDiv (a b : float)
| FCos (a : float)
| FSin (a : float)
| FUniform (lo hi : Z) (draw : nat).

Inductive num : Type :=
| Int (z : Z)
| Float (f : float).

Record pos : Type := Pos { pos_x : num; pos_y : num; pos_z : num }.

(** ** Data model *)

Record node : Type := Node {
  node_id : string;
  node_label : string;
  node_size : Q;
  node_ip : option string;
  node_color : option string;
  node_pos : option pos
}.

Record edge : Type := Edge {
  edge_source : string;
  edge_target : string;
  edge_timestamp : Q;
  edge_user : field;
  edge_color : string
}.

Record snapshot : Type := Snapshot {
  snap_nodes : list node;
  snap_edges : list edge
}.

Record row : Type := Row {
  EventTime : field;
  Computer : field;
  IpAddress : field;
  TargetUserName : field;
  IpResolved : field
}.

(** ** Insertion-ordered dictionaries *)

Section odict.
Context {K V : Type} `{EqDecision K}.

(** [d.get(k)] *)
Fixpoint odict_get (k : K) (d : list (K * V)) : option V :=
  match d with
  | [] => None
  | (k', v) :: d' => if decide (k' = k) then Some v else odict_get k d'
  end.

(** [d[k] = v]: an existing key keeps its place, a new one goes last. *)
Fixpoint odict_set (k : K) (v : V) (d : list (K * V)) : list (K * V) :=
  match d with
  | [] => [(k, v)]
  | (k', v') :: d' =>
      if decide (k' = k) then (k, v) :: d' else (k', v') :: odict_set k v d'
  end.
End odict.

(** [if k not in d: d[k] = []] followed by [d[k].append(a)] *)
Definition odict_append {K A} `{EqDecision K} (k : K) (a : A)
    (d : list (K * list A)) : list (K * list A) :=
  odict_set k (default [] (odict_get k d) ++ [a]) d.

(** [enumerate(l)] *)
Definition enumerate {A} (l : list A) : list (nat * A) := imap pair l.

(** ** The random generator

    The state of the module-level generator of [random] is the number of
    draws made so far; a computation that may draw and may raise is a
    [rand]. *)

Definition rand (A : Type) : Type := nat -> py A * nat.

Definition rret {A} (a : A) : rand A := fun g => (Return a, g).
Definition rbind {A B} (m : rand A) (f : A -> rand B) : rand B := fun g =>
  match m g with
  | (Return a, g') => f a g'
  | (Raise e, g') => (Raise e, g')
  end.
Definition lift_py {A} (m : py A) : rand A := fun g => (m, g).

Notation "'rdo' x <- m ; k" := (rbind m (fun x => k))
  (at level 10, x pattern, m at level 100, k at level 200).

(** [random.uniform(lo, hi)] *)
Definition uniform (lo hi : Z) : rand float :=
  fun g => (Return (FUniform lo hi g), S g).

Fixpoint rfold {A B} (f : B -> A -> rand B) (b : B) (l : list A) : rand B :=
  match l with
  | [] => rret b
  | a :: l' => rdo b' <- f b a; rfold f b' l'
  end.

(** ** Layouts *)

(** [math.ceil(math.sqrt(n))]. The square root of a double is correctly
    rounded, so for a list that fits in memory (fewer than 2^52 nodes) the
    float computation returns this integer. *)
Definition ceil_sqrt (n : nat) : nat :=
  let s := Nat.sqrt n in if s * s =? n then s else S s.

Definition grid_pos (grid_size distance index : nat) : pos :=
  let row := index / grid_size in
  let col := index mod grid_size in
  Pos (Int (Z.of_nat (col * distance))) (Int (Z.of_nat (row * distance))) (Int 0).

(** Lines 18-25. *)
Definition calculate_grid_layout (node_list : list node) : gmap string pos :=
  let distance := 300 in
  let grid_size := ceil_sqrt (length node_list) in
  foldl (fun node_positions '(index, node) =>
           <[node_id node := grid_pos grid_size distance index]> node_positions)
        ∅ (enumerate node_list).

(** [2 * math.pi / n] *)
Definition two_pi_over (n : nat) : py float :=
  if n =? 0 then Raise ZeroDivisionError
  else Return (FDiv (FMul (FInt 2) FPi) (FInt (Z.of_nat n))).

Definition circular_pos (radius : Z) (angle_increment : float) (index : nat) : pos :=
  let angle := FMul (FInt (Z.of_nat index)) angle_increment in
  Pos (Float (FMul (FInt radius) (FCos angle)))
      (Float (FMul (FInt radius) (FSin angle)))
      (Int 0).

(** Lines 27-33. *)
Definition calculate_circular_layout (node_list : list node) : py (gmap string pos) :=
  let radius := 300%Z in
  angle_increment ← two_pi_over (length node_list);
  mret (foldl (fun node_positions '(index, node) =>
                 <[node_id node := circular_pos radius angle_increment index]> node_positions)
              ∅ (enumerate node_list)).

(** One node of a random layout: three draws, x then y then z. *)
Definition random_pos (lo hi : Z) : rand pos :=
  rdo x <- uniform lo hi;
  rdo y <- uniform lo hi;
  rdo z <- uniform lo hi;
  rret (Pos (Float x) (Float y) (Float z)).

Definition random_place (lo hi : Z) (node_positions : gmap string pos) (n : node)
    : rand (gmap string pos) :=
  rdo p <- random_pos lo hi;
  rret (<[node_id n := p]> node_positions).

(** Lines 35-43, with the default ranges. *)
Definition calculate_random_layout (node_list : list node) : rand (gmap string pos) :=
  rfold (random_place (-10000) 10000) ∅ node_list.

Fixpoint pfold {A B} (f : B -> A -> py B) (b : B) (l : list A) : py B :=
  match l with
  | [] => Return b
  | a :: l' => b' ← f b a; pfold f b' l'
  end.

Fixpoint pmap {A B} (f : A -> py B) (l : list A) : py (list B) :=
  match l with
  | [] => Return []
  | a :: l' => b ← f a; bs ← pmap f l'; Return (b :: bs)
  end.

(** ['.' in ip] *)
Fixpoint contains (c : ascii) (s : string) : bool :=
  match s with
  | EmptyString => false
  | String a s' => Ascii.eqb a c || contains c s'
  end.

Section Server.
Context `{PyLib}.

(** *** Smart layout *)

(** The group of a node: [Some k] when its ['ip'] splits into four octets
    (the third one being [k]), [None] when the node is not grouped. *)
Definition subnet_of (n : node) : py (option Z) :=
  match node_ip n with
  | Some ip =>
      if negb (is_empty ip) && contains dot ip then
        let octets := split_on dot ip in
        if length octets =? 4 then
          let o := nth 2 octets EmptyString in
          third_octet ← lift_option
            (ValueError ("invalid literal for int() with base 10: " +:+ o))
            (py_int o);
          Return (Some third_octet)
        else Return None
      else Return None
  | None => Return None
  end.

(** [edge_count[k] += 1] *)
Definition count_endpoint (edge_count : gmap string nat) (k : string)
    : py (gmap string nat) :=
  c ← lift_option (KeyError k) (edge_count !! k);
  Return (<[k := c + 1]> edge_count).

(** Lines 48-52. *)
Definition smart_edge_count (node_list : list node) (edges : list edge)
    : py (gmap string nat) :=
  pfold (fun edge_count e =>
           edge_count ← count_endpoint edge_count (edge_source e);
           count_endpoint edge_count (edge_target e))
        (foldl (fun m n => <[node_id n := 0]> m) ∅ node_list) edges.

(** Lines 54-63. *)
Definition smart_groups (node_list : list node) : py (list (Z * list node)) :=
  pfold (fun groups n =>
           g ← subnet_of n;
           Return (match g with
                   | Some third_octet => odict_append third_octet n groups
                   | None => groups
                   end))
        [] node_list.

(** Lines 80-82: the position of one node of a group. *)
Definition smart_pos (group_center_x group_center_y sub_angle jx jy : float)
    (degree : nat) : pos :=
  let subgroup_radius := 600%Z in
  Pos (Float (FAdd (FAdd group_center_x
                         (FMul (FInt subgroup_radius) (FCos sub_angle))) jx))
      (Float (FAdd (FAdd group_center_y
                         (FMul (FInt subgroup_radius) (FSin sub_angle))) jy))
      (Int (0 + Z.of_nat degree * 50)).

Definition smart_place (edge_count : gmap string nat)
    (group_center_x group_center_y subgroup_angle_increment : float)
    (node_positions : gmap string pos) (it : nat * node) : rand (gmap string pos) :=
  let '(sub_index, n) := it in
  let sub_angle := FMul (FInt (Z.of_nat sub_index)) subgroup_angle_increment in
  rdo jx <- uniform (-300) 300;
  rdo jy <- uniform (-300) 300;
  rdo degree <- lift_py (lift_option (KeyError (node_id n)) (edge_count !! node_id n));
  rret (<[node_id n := smart_pos group_center_x group_center_y sub_angle jx jy degree]>
          node_positions).

Definition group_center (angle_increment : float) (index : nat) : float * float :=
  let radius := 4000%Z in
  let angle := FMul (FInt (Z.of_nat index)) angle_increment in
  (FMul (FInt radius) (FCos angle), FMul (FInt radius) (FSin angle)).

(** Lines 69-84 for one group. *)
Definition smart_place_group (edge_count : gmap string nat) (angle_increment : float)
    (node_positions : gmap string pos) (it : nat * (Z * list node))
    : rand (gmap string pos) :=
  let '(index, (_, nodes)) := it in
  let '(group_center_x, group_center_y) := group_center angle_increment index in
  rdo subgroup_angle_increment <- lift_py (two_pi_over (length nodes));
  rfold (smart_place edge_count group_center_x group_center_y subgroup_angle_increment)
        node_positions (enumerate nodes).

(** The body of the [try] of [calculate_smart_layout]. *)
Definition smart_layout_body (node_list : list node) (edges : list edge)
    : rand (gmap string pos) :=
  rdo edge_count <- lift_py (smart_edge_count node_list edges);
  rdo groups <- lift_py (smart_groups node_list);
  let total_groups := length groups in
  rdo angle_increment <- lift_py (two_pi_over total_groups);
  rdo node_positions <-
    rfold (smart_place_group edge_count angle_increment) ∅ (enumerate groups);
  let ungrouped_nodes :=
    filter (fun n => node_positions !! node_id n = None) node_list in
  rfold (random_place (-5000) 5000) node_positions ungrouped_nodes.

(** [except Exception: return {}] *)
Definition calculate_smart_layout (node_list : list node) (edges : list edge)
    (g : nat) : gmap string pos * nat :=
  match smart_layout_body node_list edges g with
  | (Return node_positions, g') => (node_positions, g')
  | (Raise _, g') => (∅, g')
  end.

(** *** Styling *)

Definition Qnat (n : nat) : Q := inject_Z (Z.of_nat n).

(** Lines 114-117. [num_edges / max_edges] is a float division, which
    raises on a zero divisor; the float result is taken exact. *)
Definition calculate_node_size (num_edges max_edges : nat) : py Q :=
  if max_edges =? 0 then Raise ZeroDivisionError
  else
    let ratio := (Qnat num_edges / Qnat max_edges)%Q in
    Return (10 + ratio * 20)%Q.

(** [Normalize(vmin, vmax)(value)] of matplotlib, without clipping. *)
Definition normalize (vmin vmax value : nat) : py Q :=
  if vmin =? vmax then Return 0%Q
  else if vmax <? vmin then
    Raise (ValueError "minvalue must be less than or equal to maxvalue")
  else Return ((Qnat value - Qnat vmin) / (Qnat vmax - Qnat vmin))%Q.

(** [int(x)] of a float: truncation toward zero. *)
Definition int_of_float (x : Q) : Z := Z.quot (Qnum x) (Zpos (Qden x)).

(** Lines 107-112. *)
Definition calculate_edge_color (num_edges max_edges : nat) : py string :=
  x ← normalize 1 max_edges num_edges;
  let '(r, g, b, _) := cmap_jet x in
  let r := int_of_float (255 * r)%Q in
  let g := int_of_float (255 * g)%Q in
  let b := int_of_float (255 * b)%Q in
  Return ("rgb(" +:+ pretty r +:+ ", " +:+ pretty g +:+ ", " +:+ pretty b +:+ ")").

(** *** CSV import *)

(** First pass over the rows: [ip_to_hostname]. *)
Definition resolve_row (ip_to_hostname : gmap string string) (r : row)
    : gmap string string :=
  match IpAddress r, IpResolved r with
  | Some ip_address, Some ip_resolved =>
      if negb (is_empty ip_address) && negb (is_empty ip_resolved)
      then <[ip_address := strip_domain ip_resolved]> ip_to_hostname
      else ip_to_hostname
  | _, _ => ip_to_hostname
  end.

Definition build_ip_to_hostname (reader : list row) : gmap string string :=
  foldl resolve_row ∅ reader.

(** The locals of [process_csv] during the second pass. [nodes] is the list
    of its values in insertion order, each keyed by its own ["id"]; an edge
    group holds the positions in [edges] of the edge objects it shares
    with that list. *)
Record build : Type := Build {
  b_nodes : list node;
  b_edges : list edge;
  b_edge_groups : list (string * string * list nat);
  b_node_edge_count : gmap string nat
}.

Definition empty_build : build := Build [] [] [] ∅.

(** [k in nodes] *)
Definition has_node (k : string) (nodes : list node) : bool :=
  bool_decide (k ∈ node_id <$> nodes).

(** In-place change of [nodes[k]]. *)
Definition update_node (k : string) (f : node -> node) (nodes : list node)
    : list node :=
  (fun n => if decide (node_id n = k) then f n else n) <$> nodes.

(** [if k not in nodes: nodes[k] = n] *)
Definition add_node (n : node) (nodes : list node) : list node :=
  if has_node (node_id n) nodes then nodes else nodes ++ [n].

(** Lines 152-154: a node first seen without ['ip'] gets label and ip. *)
Definition backfill (source_label ip_address : string) (n : node) : node :=
  match node_ip n with
  | None => Node (node_id n) source_label (node_size n) (Some ip_address)
                 (node_color n) (node_pos n)
  | Some _ => n
  end.

Definition source_node (source_id source_label ip_address : string) : node :=
  Node source_id source_label 10 (Some ip_address) None None.

Definition target_node (ip_to_hostname : gmap string string)
    (computer ip_address : string) : node :=
  Node computer
       (if decide (is_Some (ip_to_hostname !! ip_address))
        then computer +:+ " (" +:+ ip_address +:+ ")" else computer)
       10 None None None.

(** [d[k] = d.get(k, 0) + 1] *)
Definition bump (k : string) (d : gmap string nat) : gmap string nat :=
  <[k := default 0 (d !! k) + 1]> d.

(** The part of the loop body after the [continue] guard and the parse. *)
Definition add_event (ip_to_hostname : gmap string string) (b : build)
    (time_created : Q) (computer ip_address : string) (user : field) : build :=
  let '(source_id, source_label, nodes) :=
    match ip_to_hostname !! ip_address with
    | Some source_id =>
        let source_label := source_id +:+ " (" +:+ ip_address +:+ ")" in
        (source_id, source_label,
         update_node source_id (backfill source_label ip_address) (b_nodes b))
    | None => (ip_address, ip_address, b_nodes b)
    end in
  let nodes := add_node (source_node source_id source_label ip_address) nodes in
  let nodes := add_node (target_node ip_to_hostname computer ip_address) nodes in
  let e := Edge source_id computer time_created user "" in
  let edge_group_key := sorted2 source_id computer in
  Build nodes
        (b_edges b ++ [e])
        (odict_append edge_group_key (length (b_edges b)) (b_edge_groups b))
        (bump computer (bump source_id (b_node_edge_count b))).

(** One iteration of the second loop. *)
Definition process_row (ip_to_hostname : gmap string string) (b : build) (r : row)
    : py build :=
  computer ← strip_domain_field (Computer r);
  match EventTime r, IpAddress r with
  | Some event_time, Some ip_address =>
      if is_empty event_time || is_empty computer || is_empty ip_address
      then Return b
      else
        time_created ← lift_option
          (ValueError ("isoparse: " +:+ event_time))
          (isoparse_timestamp event_time);
        Return (add_event ip_to_hostname b time_created computer ip_address
                          (TargetUserName r))
  | _, _ => Return b
  end.

(** [max(l, default=d)] *)
Definition max_default (d : nat) (l : list nat) : nat :=
  match l with
  | [] => d
  | _ => max_list l
  end.

(** Lines 184-189 for one node. *)
Definition style_node (ip_to_hostname : gmap string string)
    (node_edge_count : gmap string nat) (max_node_edges : nat) (n : node) : py node :=
  let color :=
    match node_ip n with
    | Some ip => if decide (is_Some (ip_to_hostname !! ip)) then "blue" else "red"
    | None => "red"
    end in
  c ← lift_option (KeyError (node_id n)) (node_edge_count !! node_id n);
  size ← calculate_node_size c max_node_edges;
  Return (Node (node_id n) (node_label n) size (node_ip n) (Some color) (node_pos n)).

Definition set_edge_color (color : string) (e : edge) : edge :=
  Edge (edge_source e) (edge_target e) (edge_timestamp e) (edge_user e) color.

(** Lines 193-197 for one group: every edge object of the group is
    recoloured where it sits in [edges]. *)
Definition color_group (max_edges : nat) (edges : list edge)
    (edge_group : string * string * list nat) : py (list edge) :=
  let num_edges := length edge_group.2 in
  color ← calculate_edge_color num_edges max_edges;
  Return (foldl (fun es i => alter (set_edge_color color) i es) edges edge_group.2).

(** Lines 131-200: the rows, then the styling. *)
Definition import_graph (reader : list row) : py (list node * list edge) :=
  let ip_to_hostname := build_ip_to_hostname reader in
  b ← pfold (process_row ip_to_hostname) empty_build reader;
  let max_node_edges :=
    max_default 1 (snd <$> map_to_list (b_node_edge_count b)) in
  nodes ← pmap (style_node ip_to_hostname (b_node_edge_count b) max_node_edges)
               (b_nodes b);
  max_edges ←
    match b_edge_groups b with
    | [] => Raise (ValueError "max() arg is an empty sequence")
    | groups => Return (max_list ((fun g => length g.2) <$> groups))
    end;
  edges ← pfold (color_group max_edges) (b_edges b) (b_edge_groups b);
  Return (nodes, edges).

(** *** The store and the layout choice *)

Inductive err : Type :=
| ErrExn (e : exn)      (* [str(e)] of a caught exception *)
| ErrMsg (msg : string).

(** The module state: [current_data] and the generator of [random]. *)
Record server : Type := Server {
  current_data : option snapshot;
  random_state : nat
}.

Definition init : server := Server None 0.

Definition missing_ips : string :=
  "One or more nodes are missing IP addresses. All nodes must have IP addresses.".

(** The [if layout == ...] chain shared by [process_csv] and
    [update_layout]; [None] is the [if not node_positions] exit of the
    smart branch. *)
Definition choose_layout (layout : string) (node_list : list node)
    (edges : list edge) : rand (option (gmap string pos)) :=
  if decide (layout = "grid") then rret (Some (calculate_grid_layout node_list))
  else if decide (layout = "circular") then
    rdo p <- lift_py (calculate_circular_layout node_list); rret (Some p)
  else if decide (layout = "random") then
    rdo p <- calculate_random_layout node_list; rret (Some p)
  else if decide (layout = "smart") then
    fun g =>
      let '(node_positions, g') := calculate_smart_layout node_list edges g in
      (Return (if size node_positions =? 0 then None else Some node_positions), g')
  else
    rdo p <- calculate_random_layout node_list; rret (Some p).

(** [node.update(node_positions[id])], skipped for an id without position. *)
Definition place (node_positions : gmap string pos) (n : node) : node :=
  match node_positions !! node_id n with
  | Some p => Node (node_id n) (node_label n) (node_size n) (node_ip n)
                   (node_color n) (Some p)
  | None => n
  end.

(** [process_csv(file, layout)], from the rows [csv.DictReader] yields
    ([reader]) on: what it returns, an error or [current_data], and the
    module state it leaves. *)
Definition process_csv (reader : list row) (layout : string) (st : server)
    : (err + snapshot) * server :=
  match import_graph reader with
  | Raise e => (inl (ErrExn e), st)
  | Return (node_list, edges) =>
      match choose_layout layout node_list edges (random_state st) with
      | (Raise e, g) => (inl (ErrExn e), Server (current_data st) g)
      | (Return None, g) => (inl (ErrMsg missing_ips), Server (current_data st) g)
      | (Return (Some node_positions), g) =>
          let data := Snapshot (place node_positions <$> node_list) edges in
          (inr data, Server (Some data) g)
      end
  end.

(** *** Request handlers *)

(** The body of an answer: what [jsonify] was given, or, for an exception
    that no handler of the view catches, the error page Flask makes of it. *)
Inductive json : Type :=
| JError (e : err)
| JGraph (nodes : list node) (edges : list edge)
| JNodes (l : list (string * string))
| JPage (e : exn).

Record response : Type := Response { status : nat; body : json }.

(** A value of the JSON body, as [request.get_json()] gives it: [JNull] is
    [None], which is also what [data.get] gives for a key the body does
    not have; a number is the value Python reads, taken exact. The body
    itself is taken to be a JSON object. *)
#[local] Unset Elimination Schemes.
Inductive jvalue : Type :=
| JNull
| JBool (b : bool)
| JNum (q : Q)
| JStr (s : string)
| JArr (l : list jvalue)
| JObj (l : list (string * jvalue)).
#[local] Set Elimination Schemes.

(** [bool(v)] *)
Definition truthy (v : jvalue) : bool :=
  match v with
  | JNull => false
  | JBool b => b
  | JNum q => negb (Qeq_bool q 0)
  | JStr s => negb (is_empty s)
  | JArr l => match l with [] => false | _ :: _ => true end
  | JObj l => match l with [] => false | _ :: _ => true end
  end.

(** What [hash(v)] raises: lists and dicts cannot be members of a set. *)
Definition hash_check (v : jvalue) : py unit :=
  match v with
  | JArr _ => Raise (TypeError "unhashable type: 'list'")
  | JObj _ => Raise (TypeError "unhashable type: 'dict'")
  | _ => Return tt
  end.

(** [s == v] for a string [s]: a string equals no value of another type. *)
Definition str_eq (s : string) (v : jvalue) : Prop :=
  match v with
  | JStr s' => s = s'
  | _ => False
  end.

#[global] Instance str_eq_dec s v : Decision (str_eq s v).
Proof. unfold str_eq. destruct v; apply _. Defined.

(** What Flask answers for a view: an exception that leaves the view is
    answered 500 with an error page. *)
Definition flask (view : py response) : response :=
  match view with
  | Return r => r
  | Raise e => Response 500 (JPage e)
  end.

Definition jsonify_data (d : snapshot) : json := JGraph (snap_nodes d) (snap_edges d).

Definition no_data : response := Response 400 (JError (ErrMsg "No graph data available")).

(** [/upload]; [file] is [None] when the form has no file. *)
Definition upload_file (file : option (list row)) (layout : string) (st : server)
    : response * server :=
  match file with
  | None => (Response 400 (JError (ErrMsg "No file provided")), st)
  | Some reader =>
      match process_csv reader layout st with
      | (inl e, st') => (Response 500 (JError e), st')
      | (inr data, st') =>
          match snap_nodes data, snap_edges data with
          | [], _ | _, [] => (Response 500 (JError (ErrMsg "Invalid data structure")), st')
          | _, _ => (Response 200 (jsonify_data data), st')
          end
      end
  end.

Definition touches (nid : string) (e : edge) : Prop :=
  edge_source e = nid \/ edge_target e = nid.

#[global] Instance touches_dec nid e : Decision (touches nid e).
Proof. unfold touches. apply _. Defined.

(** [edge['source'] == v or edge['target'] == v] *)
Definition touches_value (v : jvalue) (e : edge) : Prop :=
  str_eq (edge_source e) v \/ str_eq (edge_target e) v.

#[global] Instance touches_value_dec v e : Decision (touches_value v e).
Proof. unfold touches_value. apply _. Defined.

(** [/highlight] with [data.get('node_id')] being [nid], a JSON value of
    any type. The handler has no [try]: the [TypeError] of [{node_id}] for
    a list or a dict leaves it. The set [highlighted_nodes_ids] is only
    asked for node ids, which are strings, so it is kept as the set of the
    strings it holds: a number or a boolean in it equals none of them. *)
Definition highlight_data (nid : jvalue) (st : server) : py response :=
  match current_data st with
  | None => Return no_data
  | Some data =>
      if negb (truthy nid)
      then Return (Response 400 (JError (ErrMsg "Node ID is required")))
      else
        let highlighted_edges := filter (touches_value nid) (snap_edges data) in
        _ ← hash_check nid;
        let highlighted_nodes_ids : gset string :=
          foldl (fun ids e => {[edge_target e]} ∪ ({[edge_source e]} ∪ ids))
                (match nid with JStr s => {[s]} | _ => ∅ end) highlighted_edges in
        let highlighted_nodes :=
          filter (fun n => node_id n ∈ highlighted_nodes_ids) (snap_nodes data) in
        Return (Response 200 (JGraph highlighted_nodes highlighted_edges))
  end.

Definition get_nodes (st : server) : response :=
  match current_data st with
  | None => no_data
  | Some data =>
      Response 200 (JNodes ((fun n => (node_id n, node_label n)) <$> snap_nodes data))
  end.

Definition get_full_graph (st : server) : response :=
  match current_data st with
  | None => no_data
  | Some data => Response 200 (jsonify_data data)
  end.

(** Naive datetimes are seconds from 1970-01-01T00:00; [datetime.min] and
    [datetime.max] (years 1 and 9999) at that scale. *)
Definition datetime_min : Z := -62135596800.
Definition datetime_max : Z := 253402300799.

(** [dt + timedelta(seconds=delta)] *)
Definition datetime_add (dt delta : Z) : py Z :=
  let r := (dt + delta)%Z in
  if (datetime_min <=? r)%Z && (r <=? datetime_max)%Z then Return r
  else Raise OverflowError.

Definition timestamp_of (dt : Z) : py Q :=
  lift_option OverflowError (naive_timestamp dt).

Definition parse_minute (s : string) : py Z :=
  lift_option (ValueError ("time data does not match format: " +:+ s))
              (strptime_minute s).

(** Lines 303-304. *)
Definition filter_bounds (start_date end_date : string) : py (Q * Q) :=
  start ← parse_minute start_date;
  start_timestamp ← timestamp_of start;
  end_ ← parse_minute end_date;
  end_ ← datetime_add end_ 86400;
  end_ ← datetime_add end_ (-1);
  end_timestamp ← timestamp_of end_;
  Return (start_timestamp, end_timestamp).

Definition in_range (start_timestamp end_timestamp : Q) (e : edge) : bool :=
  Qle_bool start_timestamp (edge_timestamp e)
  && Qle_bool (edge_timestamp e) end_timestamp.

Definition endpoint_ids (es : list edge) : gset string :=
  list_to_set (edge_source <$> es) ∪ list_to_set (edge_target <$> es).

(** [/filter] with body [{"start_date": ..., "end_date": ...}] *)
Definition filter_data (start_date end_date : string) (st : server) : response :=
  match current_data st with
  | None => no_data
  | Some data =>
      match filter_bounds start_date end_date with
      | Raise e => Response 500 (JError (ErrExn e))
      | Return (start_timestamp, end_timestamp) =>
          let filtered_edges :=
            filter (fun e => in_range start_timestamp end_timestamp e = true)
                   (snap_edges data) in
          let nodes_ids := endpoint_ids filtered_edges in
          let filtered_nodes :=
            filter (fun n => node_id n ∈ nodes_ids) (snap_nodes data) in
          Response 200 (JGraph filtered_nodes filtered_edges)
      end
  end.

(** [p in s] for strings. *)
Fixpoint is_infix (p s : string) : bool :=
  String.prefix p s
  || match s with
     | EmptyString => false
     | String _ s' => is_infix p s'
     end.

(** [user in edge["user"]]; the field may hold [None]. *)
Definition user_matches (user : string) (e : edge) : py bool :=
  match edge_user e with
  | Some u => Return (is_infix user u)
  | None => Raise (TypeError "argument of type 'NoneType' is not iterable")
  end.

(** [/filter_by_user] with body [{"user": ...}] *)
Definition filter_by_user_route (user : string) (st : server) : response :=
  match current_data st with
  | None => no_data
  | Some data =>
      match pmap (user_matches user) (snap_edges data) with
      | Raise e => Response 500 (JError (ErrExn e))
      | Return keep =>
          let user_filtered_edges :=
            fst <$> filter (fun p => p.2 = true) (zip (snap_edges data) keep) in
          let nodes := endpoint_ids user_filtered_edges in
          let user_filtered_nodes :=
            filter (fun n => node_id n ∈ nodes) (snap_nodes data) in
          Response 200 (JGraph user_filtered_nodes user_filtered_edges)
      end
  end.

(** [/layout] with body [{"layout": ...}]. The nodes are updated in place,
    so the stored snapshot changes as soon as the positions are computed;
    the refusal of the smart layout is sent without a status, hence 200. *)
Definition update_layout (layout : string) (st : server) : response * server :=
  match current_data st with
  | None => (no_data, st)
  | Some data =>
      let node_list := snap_nodes data in
      match choose_layout layout node_list (snap_edges data) (random_state st) with
      | (Raise e, g) =>
          (Response 500 (JError (ErrExn e)), Server (current_data st) g)
      | (Return None, g) =>
          (Response 200 (JError (ErrMsg missing_ips)), Server (current_data st) g)
      | (Return (Some node_positions), g) =>
          let data' := Snapshot (place node_positions <$> node_list) (snap_edges data) in
          (Response 200 (jsonify_data data'), Server (Some data') g)
      end
  end.

(** *** The server as a transition system

    One constructor per route with a JSON answer. The [node_id] of
    [/highlight], which the handler uses outside any [try], is a JSON
    value of any type; the other body fields are strings. The index page
    renders a template and does not touch the state; it is left out. *)

Inductive request : Type :=
| Upload (file : option (list row)) (layout : string)
| Highlight (nid : jvalue)
| GetNodes
| GetFullGraph
| Filter (start_date end_date : string)
| FilterByUser (user : string)
| Layout (layout : string).

Definition handle (st : server) (r : request) : response * server :=
  match r with
  | Upload file layout => upload_file file layout st
  | Highlight nid => (flask (highlight_data nid st), st)
  | GetNodes => (get_nodes st, st)
  | GetFullGraph => (get_full_graph st, st)
  | Filter start_date end_date => (filter_data start_date end_date st, st)
  | FilterByUser user => (filter_by_user_route user st, st)
  | Layout layout => update_layout layout st
  end.

(** The state after a sequence of requests. *)
Definition run (st : server) (rs : list request) : server :=
  foldl (fun st r => (handle st r).2) st rs.

End Server.

(** ** A host for the examples

    One implementation of [PyLib]: a server whose zone is UTC, with the
    library functions restricted to the inputs the examples use (zero-padded
    dates, ASCII decimal integers) and a piecewise-linear colour ramp
    standing for matplotlib's table. *)

Module Host.

Definition digit_of (c : ascii) : option Z :=
  let n := nat_of_ascii c in
  if (48 <=? n) && (n <=? 57) then Some (Z.of_nat (n - 48)) else None.

Fixpoint digits_acc (acc : Z) (s : string) : option Z :=
  match s with
  | EmptyString => Some acc
  | String c s' =>
      match digit_of c with
      | Some d => digits_acc (acc * 10 + d) s'
      | None => None
      end
  end.

(** A non-empty string of decimal digits. *)
Definition digits (s : string) : option Z :=
  if is_empty s then None else digits_acc 0 s.

(** [int(s)] for an optional sign followed by digits. *)
Definition int_ascii (s : string) : option Z :=
  match s with
  | String "-" s' => Z.opp <$> digits s'
  | String "+" s' => digits s'
  | _ => digits s
  end.

(** Days from 1970-01-01 to the given day of the proleptic Gregorian
    calendar. *)
Definition days_from_civil (y m d : Z) : Z :=
  let y := if (m <=? 2)%Z then (y - 1)%Z else y in
  let era := (y / 400)%Z in
  let yoe := (y - era * 400)%Z in
  let mp := if (2 <? m)%Z then (m - 3)%Z else (m + 9)%Z in
  let doy := ((153 * mp + 2) / 5 + d - 1)%Z in
  let doe := (yoe * 365 + yoe / 4 - yoe / 100 + doy)%Z in
  (era * 146097 + doe - 719468)%Z.

Definition is_leap (y : Z) : bool :=
  ((y mod 4 =? 0) && negb (y mod 100 =? 0) || (y mod 400 =? 0))%Z.

Definition days_in_month (y m : Z) : Z :=
  if (m =? 2)%Z then (if is_leap y then 29 else 28)%Z
  else if ((m =? 4) || (m =? 6) || (m =? 9) || (m =? 11))%Z then 30%Z
  else 31%Z.

Definition civil_seconds (y mo d h mi s : Z) : option Z :=
  if ((1 <=? y) && (y <=? 9999) && (1 <=? mo) && (mo <=? 12)
      && (1 <=? d) && (d <=? days_in_month y mo)
      && (h <=? 23) && (mi <=? 59) && (s <=? 59))%Z
  then Some (days_from_civil y mo d * 86400 + h * 3600 + mi * 60 + s)%Z
  else None.

Definition sep (s : string) (i : nat) (c : ascii) : option unit :=
  match String.get i s with
  | Some c' => if Ascii.eqb c c' then Some tt else None
  | None => None
  end.

(** The fields of a string that starts with ["YYYY-MM-DDTHH:MM"]. *)
Definition date_and_minute (s : string) : option (Z * Z * Z * Z * Z) :=
  y ← digits (String.substring 0 4 s);
  _ ← sep s 4 "-";
  mo ← digits (String.substring 5 2 s);
  _ ← sep s 7 "-";
  d ← digits (String.substring 8 2 s);
  _ ← sep s 10 "T";
  h ← digits (String.substring 11 2 s);
  _ ← sep s 13 ":";
  mi ← digits (String.substring 14 2 s);
  Some (y, mo, d, h, mi).

Definition strptime_padded (s : string) : option Z :=
  if String.length s =? 16 then
    '(y, mo, d, h, mi) ← date_and_minute s;
    civil_seconds y mo d h mi 0
  else None.

(** ["YYYY-MM-DDTHH:MM:SS"], with or without a final ["Z"]: on a host in
    UTC both give the same timestamp. *)
Definition isoparse_seconds (s : string) : option Q :=
  let n := String.length s in
  if (n =? 19) || ((n =? 20) && bool_decide (String.get 19 s = Some "Z"%char)) then
    '(y, mo, d, h, mi) ← date_and_minute s;
    _ ← sep s 16 ":";
    sec ← digits (String.substring 17 2 s);
    inject_Z <$> civil_seconds y mo d h mi sec
  else None.

Definition clamp01 (q : Q) : Q :=
  if Qle_bool q 0 then 0%Q else if Qle_bool 1 q then 1%Q else q.

Definition ramp (x c : Q) : Q :=
  clamp01 ((3 # 2) - Qabs (4 * x - c))%Q.

Definition jet_ramp (x : Q) : Q * Q * Q * Q :=
  (ramp x 3, ramp x 2, ramp x 1, 1%Q).

End Host.

Definition utc_host : PyLib := {|
  isoparse_timestamp := Host.isoparse_seconds;
  strptime_minute := Host.strptime_padded;
  naive_timestamp := fun dt => Some (inject_Z dt);
  cmap_jet := Host.jet_ramp;
  py_int := Host.int_ascii
|}.

(** ** Vocabulary of the specification *)

Definition ids (nodes : list node) : list string := node_id <$> nodes.

(** Referential integrity of a snapshot. *)
Definition referential_integrity (d : snapshot) : Prop :=
  forall e, e ∈ snap_edges d ->
    edge_source e ∈ ids (snap_nodes d) /\ edge_target e ∈ ids (snap_nodes d).

(** The degree of a node: the number of edge ends that meet it, so an edge
    from a node to itself counts twice, as in the counters of the import. *)
Definition degree (es : list edge) (k : string) : nat :=
  length (filter (fun e => edge_source e = k) es)
  + length (filter (fun e => edge_target e = k) es).

Definition max_degree (d : snapshot) : nat :=
  max_list (degree (snap_edges d) <$> ids (snap_nodes d)).

(** Two edges join the same unordered pair of nodes. *)
Definition same_pair (e1 e2 : edge) : Prop :=
  (edge_source e1 = edge_source e2 /\ edge_target e1 = edge_target e2)
  \/ (edge_source e1 = edge_target e2 /\ edge_target e1 = edge_source e2).

#[global] Instance same_pair_dec e1 e2 : Decision (same_pair e1 e2).
Proof. unfold same_pair. apply _. Defined.

(** The number of edges of the group of [e], and the largest group. *)
Definition group_size (es : list edge) (e : edge) : nat :=
  length (filter (same_pair e) es).

Definition max_group_size (es : list edge) : nat :=
  max_list (group_size es <$> es).

(** The endpoints of a list of edges. *)
Definition is_endpoint (es : list edge) (k : string) : Prop :=
  k ∈ edge_source <$> es \/ k ∈ edge_target <$> es.

#[global] Instance is_endpoint_dec es k : Decision (is_endpoint es k).
Proof. unfold is_endpoint. apply _. Defined.

(** ** Vocabulary of the proofs *)

(** The group key of an edge, [tuple(sorted([source, target]))]. *)
Definition edge_key (e : edge) : string * string :=
  sorted2 (edge_source e) (edge_target e).

(** The positions, counted from [i], of the elements of [l] that satisfy [P]. *)
Fixpoint positions_where {A} (P : A -> Prop) `{forall a, Decision (P a)}
    (i : nat) (l : list A) : list nat :=
  match l with
  | [] => []
  | a :: l' => (if decide (P a) then [i] else []) ++ positions_where P (S i) l'
  end.

(** The invariant of the second pass of [process_csv]: ids are distinct,
    the nodes are the endpoints of the edges, the counters are the degrees,
    and each group lists the positions of the edges with its key. *)
Record build_inv (b : build) : Prop := {
  inv_nodup : NoDup (ids (b_nodes b));
  inv_nodes : forall k, k ∈ ids (b_nodes b) <-> 0 < degree (b_edges b) k;
  inv_count : forall k, default 0 (b_node_edge_count b !! k) = degree (b_edges b) k;
  inv_count_pos : forall k c, b_node_edge_count b !! k = Some c -> 0 < c;
  inv_keys : NoDup (b_edge_groups b).*1;
  inv_groups : forall key,
    default [] (odict_get key (b_edge_groups b))
    = positions_where (fun e => edge_key e = key) 0 (b_edges b);
  inv_groups_ne : forall key l, odict_get key (b_edge_groups b) = Some l -> l <> []
}.

(** [e'] is [e] with another colour. *)
Definition recolored (e e' : edge) : Prop := e' = set_edge_color (edge_color e') e.

(** The size the styling pass gives to a node of the given degree. *)
Definition size_of (degree max_degree : nat) : Q :=
  (10 + Qnat degree / Qnat max_degree * 20)%Q.

(** A row the second loop does not skip. *)
Definition processed (r : row) (event_time : string) : Prop :=
  EventTime r = Some event_time /\ is_empty event_time = false /\
  (exists c, Computer r = Some c /\ is_empty (strip_domain c) = false) /\
  (exists ip, IpAddress r = Some ip /\ is_empty ip = false).

(** One step of a loop [for index, node in enumerate(...)] that stores
    [f index] under the node's id. *)
Definition fill_step {V : Type} (f : nat -> V) (m : gmap string V) (it : nat * node)
    : gmap string V :=
  <[node_id it.2 := f it.1]> m.

(** The x and y of a grid position, which are Python ints. *)
Definition grid_x (p : pos) : Z := match pos_x p with Int z => z | Float _ => 0 end.
Definition grid_y (p : pos) : Z := match pos_y p with Int z => z | Float _ => 0 end.

#[global] Instance Qle_dec (a b : Q) : Decision (a <= b)%Q :=
  match Qlt_le_dec b a with
  | left Hlt => right (Qlt_not_le _ _ Hlt)
  | right Hle => left Hle
  end.

(** An edge whose timestamp lies in the closed range from [a] to [b]. *)
Definition within (a b : Q) (e : edge) : Prop :=
  (a <= edge_timestamp e)%Q /\ (edge_timestamp e <= b)%Q.

#[global] Instance within_dec a b e : Decision (within a b e).
Proof. unfold within. apply _. Defined.

(** The first second after the calendar day of a naive datetime. *)
Definition next_midnight (dt : Z) : Z := ((dt / 86400 + 1) * 86400)%Z.

(** A node the smart layout groups: one whose ['ip'] splits on ['.'] into
    four parts. A node without ['ip'] counts as having the empty one, which
    splits into a single part. *)
Definition groupable (n : node) : Prop :=
  length (split_on dot (default EmptyString (node_ip n))) = 4.

#[global] Instance groupable_dec n : Decision (groupable n).
Proof. unfold groupable. apply _. Defined.

(** The text of its third octet. *)
Definition third_octet_text (n : node) : string :=
  nth 2 (split_on dot (default EmptyString (node_ip n))) EmptyString.

(** [2 * math.pi / n] for a non-zero [n]. *)
Definition turn_over (n : nat) : float :=
  FDiv (FMul (FInt 2) FPi) (FInt (Z.of_nat n)).

(** The position of the [sub_index]-th of the [group_len] nodes of the
    [index]-th of [total_groups] groups, for a node of the given degree,
    with the draws [k] and [k + 1] as jitter. *)
Definition smart_pos_of (total_groups index group_len sub_index k degree : nat) : pos :=
  let angle := FMul (FInt (Z.of_nat index)) (turn_over total_groups) in
  let sub_angle := FMul (FInt (Z.of_nat sub_index)) (turn_over group_len) in
  Pos (Float (FAdd (FAdd (FMul (FInt 4000) (FCos angle))
                         (FMul (FInt 600) (FCos sub_angle)))
                   (FUniform (-300) 300 k)))
      (Float (FAdd (FAdd (FMul (FInt 4000) (FSin angle))
                         (FMul (FInt 600) (FSin sub_angle)))
                   (FUniform (-300) 300 (S k))))
      (Int (Z.of_nat degree * 50)).

(** A position drawn by the secondary random layout: three consecutive
    draws of [random.uniform(-5000, 5000)]. *)
Definition ungrouped_pos_of (k : nat) : pos :=
  Pos (Float (FUniform (-5000) 5000 k))
      (Float (FUniform (-5000) 5000 (S k)))
      (Float (FUniform (-5000) 5000 (S (S k)))).

(** An entry of [node_positions] written by the group loop: the position of
    a node of one of the [groups]. *)
Definition placed (groups : list (Z * list node)) (edges : list edge)
    (k : string) (p : pos) : Prop :=
  exists gi key ns si n j,
    groups !! gi = Some (key, ns) /\ ns !! si = Some n /\ node_id n = k /\
    p = smart_pos_of (length groups) gi (length ns) si j (degree edges k).

(** A row from which the first loop of [process_csv] takes
    [ip_to_hostname[ip]], as [strip_domain(resolved)]. *)
Definition resolves (r : row) (ip resolved : string) : Prop :=
  IpAddress r = Some ip /\ IpResolved r = Some resolved /\
  is_empty ip = false /\ is_empty resolved = false.

(** The guard of the second loop: a row that is not skipped. *)
Definition kept (r : row) : bool :=
  match EventTime r, Computer r, IpAddress r with
  | Some event_time, Some computer, Some ip_address =>
      negb (is_empty event_time) && negb (is_empty (strip_domain computer))
      && negb (is_empty ip_address)
  | _, _, _ => false
  end.

(** The id and the label of the source of a logon from [ip_address]. *)
Definition source_id_of (m : gmap string string) (ip_address : string) : string :=
  default ip_address (m !! ip_address).

Definition source_label_of (m : gmap string string) (ip_address : string) : string :=
  match m !! ip_address with
  | Some source_id => source_id +:+ " (" +:+ ip_address +:+ ")"
  | None => ip_address
  end.

(** The node dictionary before the two insertions of a row. *)
Definition touch_source (m : gmap string string) (ip_address : string)
    (nodes : list node) : list node :=
  match m !! ip_address with
  | Some source_id =>
      update_node source_id (backfill (source_label_of m ip_address) ip_address) nodes
  | None => nodes
  end.

Section Vocabulary.
Context `{PyLib}.

(** What holds of every snapshot the server stores. *)
Record wf_snapshot (d : snapshot) : Prop := {
  wf_nodup : NoDup (ids (snap_nodes d));
  wf_nodes : forall k, k ∈ ids (snap_nodes d) <-> 0 < degree (snap_edges d) k;
  wf_edges : snap_edges d <> [];
  wf_size : forall n, n ∈ snap_nodes d ->
    node_size n = size_of (degree (snap_edges d) (node_id n)) (max_degree d);
  wf_color : forall e, e ∈ snap_edges d ->
    calculate_edge_color (group_size (snap_edges d) e) (max_group_size (snap_edges d))
    = Return (edge_color e)
}.

Definition store_ok (st : server) : Prop :=
  forall d, current_data st = Some d -> wf_snapshot d.

(** A grouped node whose third octet [int] rejects. *)
Definition bad_octet (n : node) : Prop :=
  groupable n /\ py_int (third_octet_text n) = None.

(** When the smart layout comes back empty: no node is grouped, or the
    third octet of a grouped node is not an integer literal. *)
Definition smart_fails (node_list : list node) : Prop :=
  (forall n, n ∈ node_list -> ~ groupable n)
  \/ (exists n, n ∈ node_list /\ bad_octet n).

(** The body of the loop of [smart_groups]. *)
Definition group_step (groups : list (Z * list node)) (n : node)
    : py (list (Z * list node)) :=
  g ← subnet_of n;
  Return (match g with
          | Some third_octet => odict_append third_octet n groups
          | None => groups
          end).

(** What the grouping loop has established after the nodes [pre]. *)
Record groups_inv (pre : list node) (groups : list (Z * list node)) : Prop := {
  gi_keys : NoDup groups.*1;
  gi_nonempty : forall key ns, (key, ns) ∈ groups -> ns <> [];
  gi_members : forall key ns n, (key, ns) ∈ groups -> n ∈ ns ->
    n ∈ pre /\ groupable n /\ py_int (third_octet_text n) = Some key;
  gi_cover : forall n, n ∈ pre -> groupable n ->
    exists key ns, (key, ns) ∈ groups /\ n ∈ ns
}.

(** The edge of a row: the logon it records, whatever the colour. *)
Definition logon (m : gmap string string) (r : row) (e : edge) : Prop :=
  exists event_time computer ip_address,
    EventTime r = Some event_time /\ Computer r = Some computer /\
    IpAddress r = Some ip_address /\
    isoparse_timestamp event_time = Some (edge_timestamp e) /\
    edge_source e = source_id_of m ip_address /\
    edge_target e = strip_domain computer /\
    edge_user e = TargetUserName r.

(** What every node of a stored snapshot carries besides its id. *)
Definition styled (n : node) : Prop :=
  (node_color n = Some "blue" \/ node_color n = Some "red") /\ is_Some (node_pos n).

(** [f'rgb({r}, {g}, {b})'] *)
Definition rgb_text (r g b : Z) : string :=
  "rgb(" +:+ pretty r +:+ ", " +:+ pretty g +:+ ", " +:+ pretty b +:+ ")".

(** The colour [calculate_edge_color] makes of the colormap at [x]. *)
Definition color_at (x : Q) : string :=
  let '(r, g, b, _) := cmap_jet x in
  rgb_text (int_of_float (255 * r)%Q) (int_of_float (255 * g)%Q)
           (int_of_float (255 * b)%Q).

End Vocabulary.

(** ** Comparing nodes and computations *)

(** Two computations end alike: both return, with related values, or both
    raise the same exception. *)
Definition py_rel {A B} (R : A -> B -> Prop) (x : py A) (y : py B) : Prop :=
  match x, y with
  | Return a, Return b => R a b
  | Raise e, Raise e' => e = e'
  | _, _ => False
  end.

(** What a layout reads of a node: its ["id"] and its ['ip']. *)
Definition same_id_ip (n n' : node) : Prop :=
  node_id n = node_id n' /\ node_ip n = node_ip n'.

(** [n'] is [n] except, possibly, for its position. *)
Definition moved (n n' : node) : Prop :=
  node_id n' = node_id n /\ node_label n' = node_label n /\
  node_size n' = node_size n /\ node_ip n' = node_ip n /\
  node_color n' = node_color n.

(** The position made of the draws [k], [k + 1] and [k + 2] of
    [random.uniform(lo, hi)]. *)
Definition drawn_pos (lo hi : Z) (k : nat) : pos :=
  Pos (Float (FUniform lo hi k)) (Float (FUniform lo hi (k + 1)))
      (Float (FUniform lo hi (k + 2))).

(** An edge whose user field holds a text in which [user] occurs. *)
Definition mentions (user : string) (e : edge) : Prop :=
  match edge_user e with
  | Some u => is_infix user u = true
  | None => False
  end.

#[global] Instance mentions_dec user e : Decision (mentions user e).
Proof. unfold mentions. destruct (edge_user e); apply _. Defined.

(** The requests that only read the store. *)
Definition is_query (r : request) : bool :=
  match r with
  | Upload _ _ | Layout _ => false
  | _ => true
  end.

Definition is_upload (r : request) : bool :=
  match r with
  | Upload _ _ => true
  | _ => false
  end.

(** ** Sample data *)

Definition event (event_time computer ip user resolved : string) : row :=
  Row (Some event_time) (Some computer) (Some ip) (Some user) (Some resolved).

(** Two logons of a resolved client and one of an unresolved address. *)
Definition sample_rows : list row :=
  [ event "2023-01-01T00:00:00Z" "host1.local" "10.0.0.1" "alice" "client1.local";
    event "2023-01-02T00:00:00Z" "host1.local" "10.0.0.1" "bob" "client1.local";
    event "2023-01-03T05:00:00Z" "host1.local" "10.0.7.9" "carol" "" ].

Definition sample_requests : list request := [Upload (Some sample_rows) "grid"].

Definition sample_server : server := run (H := utc_host) init sample_requests.

Definition sample_data : snapshot :=
  Eval vm_compute in default (Snapshot [] []) (current_data sample_server).

Definition no_node : node := Node EmptyString EmptyString 0 None None None.
Definition no_edge : edge := Edge EmptyString EmptyString 0 None EmptyString.

Definition sample_client : node :=
  Eval vm_compute in default no_node (snap_nodes sample_data !! 0).
Definition sample_host : node :=
  Eval vm_compute in default no_node (snap_nodes sample_data !! 1).
Definition sample_stranger : node :=
  Eval vm_compute in default no_node (snap_nodes sample_data !! 2).
Definition first_edge : edge :=
  Eval vm_compute in default no_edge (snap_edges sample_data !! 0).
Definition second_edge : edge :=
  Eval vm_compute in default no_edge (snap_edges sample_data !! 1).
Definition late_edge : edge :=
  Eval vm_compute in default no_edge (snap_edges sample_data !! 2).

(** A row dated in another format. *)
Definition bad_row : row :=
  event "01/02/2023 00:00" "host2.local" "10.0.0.2" "dave" "".

(** A log whose addresses were anonymised before export. *)
Definition anonymised_rows : list row :=
  [ event "2023-01-01T00:00:00Z" "host1.local" "10.0.x.1" "alice" "" ].

(** A log whose resolver column holds a bare domain suffix. *)
Definition nameless_rows : list row :=
  [ event "2023-01-01T00:00:00Z" "host1.local" "10.0.0.1" "alice" ".local" ].

Definition nameless_server : server :=
  run (H := utc_host) init [Upload (Some nameless_rows) "grid"].

(** A line of the file too short to reach the computer column. *)
Definition short_row : row := Row (Some "2023-01-04T00:00:00Z") None None None None.

(** A log whose only row has no event time. *)
Definition undated_rows : list row :=
  [ event "" "host1.local" "10.0.0.1" "alice" "" ].

(** A log whose only row stops before the user column. *)
Definition userless_rows : list row :=
  [ Row (Some "2023-01-01T00:00:00Z") (Some "host1.local") (Some "10.0.0.1") None None ].

Definition userless_server : server :=
  run (H := utc_host) init [Upload (Some userless_rows) "grid"].

Definition anonymised_server : server :=
  run (H := utc_host) init [Upload (Some anonymised_rows) "grid"].

(** The nodes of the sample snapshot as they are before styling and
    layout: id and ['ip'] only. *)
Definition bare (n : node) : node := Node (node_id n) "" 0 (node_ip n) None None.

(** A dictionary in which [client1] was so far seen as a target only. *)
Definition target_only : build :=
  Build [Node "client1" "client1" 10 None None None] [] [] ∅.

(** * Proofs *)

(** ** Generic lemmas *)

Lemma pfold_invariant {A B} (P : B -> Prop) (f : B -> A -> py B) l b b' :
  (forall b a b', P b -> a ∈ l -> f b a = Return b' -> P b') ->
  P b -> pfold f b l = Return b' -> P b'.
Proof.
  revert b. induction l as [|a l IH]; intros b Hstep Hb Hrun; simpl in *.
  - by simplify_eq.
  - destruct (f b a) as [e|b1] eqn:Hf; simpl in Hrun; [done|].
    eapply (IH b1); [|by eapply Hstep; [| left |]|done].
    intros ??? ? Hin. eapply Hstep; [done|by right].
Qed.

Lemma pmap_Return {A B} (f : A -> py B) l l' :
  pmap f l = Return l' -> Forall2 (fun a b => f a = Return b) l l'.
Proof.
  revert l'. induction l as [|a l IH]; intros l' Hrun; simpl in *.
  - simplify_eq. constructor.
  - destruct (f a) as [e|b] eqn:Hf; simpl in Hrun; [done|].
    destruct (pmap f l) as [e|bs]; simpl in Hrun; [done|].
    simplify_eq. constructor; [done|by apply IH].
Qed.

(** *** String order *)

Lemma ltb_asym a b : String.ltb a b = true -> String.ltb b a = false.
Proof.
  unfold String.ltb. rewrite (String.compare_antisym b a).
  by destruct (String.compare a b).
Qed.

Lemma ltb_total a b : String.ltb a b = false -> String.ltb b a = false -> a = b.
Proof.
  unfold String.ltb. rewrite (String.compare_antisym b a).
  destruct (String.compare a b) eqn:E; simpl; try done.
  intros _ _. by apply String.compare_eq_iff.
Qed.

Lemma sorted2_comm a b : sorted2 a b = sorted2 b a.
Proof.
  unfold sorted2.
  destruct (String.ltb b a) eqn:E1, (String.ltb a b) eqn:E2; try done.
  - by rewrite (ltb_asym _ _ E1) in E2.
  - by rewrite (ltb_total _ _ E2 E1).
Qed.

Lemma sorted2_eq a b c d :
  sorted2 a b = sorted2 c d <-> (a = c /\ b = d) \/ (a = d /\ b = c).
Proof.
  split.
  - unfold sorted2.
    destruct (String.ltb b a), (String.ltb d c); intros; simplify_eq; auto.
  - intros [[-> ->]|[-> ->]]; [done|apply sorted2_comm].
Qed.

Lemma edge_key_same_pair e1 e2 : edge_key e1 = edge_key e2 <-> same_pair e1 e2.
Proof. unfold edge_key, same_pair. apply sorted2_eq. Qed.

(** *** Ordered dictionaries *)

Section odict_lemmas.
Context {K V : Type} `{EqDecision K}.
Implicit Types (d : list (K * V)).

Lemma odict_get_cons k k' v d :
  odict_get k ((k', v) :: d) = if decide (k' = k) then Some v else odict_get k d.
Proof. reflexivity. Qed.

Lemma odict_set_cons k k' v v' d :
  odict_set k v ((k', v') :: d)
  = if decide (k' = k) then (k, v) :: d else (k', v') :: odict_set k v d.
Proof. reflexivity. Qed.

Lemma odict_get_set k k' v d :
  odict_get k' (odict_set k v d) = if decide (k = k') then Some v else odict_get k' d.
Proof.
  induction d as [|[k1 v1] d IH].
  - change (odict_set k v []) with [(k, v)]. by rewrite odict_get_cons.
  - rewrite odict_set_cons, odict_get_cons.
    destruct (decide (k1 = k)) as [-> |Hne].
    + rewrite odict_get_cons. by destruct (decide (k = k')).
    + rewrite odict_get_cons, IH.
      destruct (decide (k1 = k')) as [-> |?]; [|done].
      by destruct (decide (k = k')).
Qed.

Lemma odict_get_Some k v d : odict_get k d = Some v -> (k, v) ∈ d.
Proof.
  induction d as [|[k1 v1] d IH]; [done|].
  rewrite odict_get_cons.
  destruct (decide (k1 = k)) as [-> |?]; intros Hg.
  - injection Hg as ->. left.
  - right. auto.
Qed.

Lemma odict_elem_get k v d : NoDup d.*1 -> (k, v) ∈ d -> odict_get k d = Some v.
Proof.
  induction d as [|[k1 v1] d IH]; intros Hnd Hin.
  - by apply elem_of_nil in Hin.
  - rewrite fmap_cons in Hnd. apply NoDup_cons in Hnd as [Hk1 Hnd].
    rewrite odict_get_cons.
    apply elem_of_cons in Hin as [Heq|Hin].
    + injection Heq as -> ->. by destruct (decide (k1 = k1)).
    + destruct (decide (k1 = k)) as [-> |Hne]; [|auto].
      destruct Hk1. apply list_elem_of_fmap. by exists (k, v).
Qed.

Lemma odict_set_keys k v d :
  (odict_set k v d).*1 = if decide (k ∈ d.*1) then d.*1 else d.*1 ++ [k].
Proof.
  induction d as [|[k1 v1] d IH].
  - destruct (decide (k ∈ [].*1)) as [Hin|]; [by apply elem_of_nil in Hin|done].
  - rewrite odict_set_cons, !fmap_cons. simpl fst.
    destruct (decide (k1 = k)) as [-> |Hne].
    + destruct (decide (k ∈ k :: d.*1)) as [|Hn]; [done|]. destruct Hn. left.
    + rewrite fmap_cons, IH. simpl fst.
      destruct (decide (k ∈ d.*1)) as [Hin|Hin],
               (decide (k ∈ k1 :: d.*1)) as [Hin'|Hin']; try done.
      * destruct Hin'. by right.
      * apply elem_of_cons in Hin' as [?|?]; congruence.
Qed.

Lemma odict_set_NoDup k v d : NoDup d.*1 -> NoDup (odict_set k v d).*1.
Proof.
  intros Hnd. rewrite odict_set_keys. destruct (decide (k ∈ d.*1)); [done|].
  apply NoDup_app. repeat split; [done| |apply NoDup_singleton].
  intros x Hx Hx'. apply list_elem_of_singleton in Hx'. by subst.
Qed.
End odict_lemmas.

(** *** Degrees and positions *)

Lemma degree_nil k : degree [] k = 0.
Proof. done. Qed.

Lemma degree_snoc es e k :
  degree (es ++ [e]) k
  = degree es k + (if decide (edge_source e = k) then 1 else 0)
    + (if decide (edge_target e = k) then 1 else 0).
Proof.
  unfold degree. rewrite !filter_app, !length_app, !filter_cons, !filter_nil.
  destruct (decide (edge_source e = k)), (decide (edge_target e = k)); simpl; lia.
Qed.

Lemma filter_length_pos {A} (P : A -> Prop) `{forall a, Decision (P a)} (l : list A) :
  0 < length (filter P l) <-> exists a, a ∈ l /\ P a.
Proof.
  split.
  - destruct (filter P l) as [|a l'] eqn:E; simpl; [lia|]. intros _.
    assert (a ∈ filter P l) as Hin by (rewrite E; left).
    apply list_elem_of_filter in Hin as [? ?]. eauto.
  - intros (a & Hin & HP).
    assert (a ∈ filter P l) as Hin' by (by apply list_elem_of_filter).
    destruct (filter P l); [by apply elem_of_nil in Hin'|simpl; lia].
Qed.

Lemma degree_pos es k : 0 < degree es k <-> is_endpoint es k.
Proof.
  unfold degree, is_endpoint. rewrite !list_elem_of_fmap. split.
  - intros Hd.
    assert (0 < length (filter (fun e => edge_source e = k) es)
            \/ 0 < length (filter (fun e => edge_target e = k) es)) as [Hs|Ht] by lia.
    + apply filter_length_pos in Hs as (e & ? & ?). left. by exists e.
    + apply filter_length_pos in Ht as (e & ? & ?). right. by exists e.
  - intros [(e & Hk & Hin)|(e & Hk & Hin)].
    + assert (0 < length (filter (fun e => edge_source e = k) es)); [|lia].
      apply filter_length_pos. by exists e.
    + assert (0 < length (filter (fun e => edge_target e = k) es)); [|lia].
      apply filter_length_pos. by exists e.
Qed.

Lemma is_endpoint_source es e : e ∈ es -> is_endpoint es (edge_source e).
Proof. intros Hin. left. apply list_elem_of_fmap. by exists e. Qed.

Lemma is_endpoint_target es e : e ∈ es -> is_endpoint es (edge_target e).
Proof. intros Hin. right. apply list_elem_of_fmap. by exists e. Qed.

Section positions.
Context {A : Type} (P : A -> Prop) `{forall a, Decision (P a)}.

Lemma positions_where_cons i a l :
  positions_where P i (a :: l)
  = (if decide (P a) then [i] else []) ++ positions_where P (S i) l.
Proof. reflexivity. Qed.

Lemma positions_where_app i l1 l2 :
  positions_where P i (l1 ++ l2)
  = positions_where P i l1 ++ positions_where P (i + length l1) l2.
Proof.
  revert i. induction l1 as [|a l1 IH]; intros i.
  - simpl. by rewrite Nat.add_0_r.
  - rewrite <- app_comm_cons, !positions_where_cons, IH, <- app_assoc.
    simpl length. by rewrite Nat.add_succ_r.
Qed.

Lemma positions_where_length i l :
  length (positions_where P i l) = length (filter P l).
Proof.
  revert i. induction l as [|a l IH]; intros i; [done|].
  rewrite positions_where_cons, filter_cons, length_app, IH.
  by destruct (decide (P a)).
Qed.

Lemma elem_of_positions_where i j l :
  j ∈ positions_where P i l <-> exists a, i <= j /\ l !! (j - i) = Some a /\ P a.
Proof.
  revert i. induction l as [|a l IH]; intros i.
  - split; [intros Hin; by apply elem_of_nil in Hin|by intros (? & ? & ? & ?)].
  - rewrite positions_where_cons, elem_of_app, IH. split.
    + intros [Hin|(b & Hle & Hl & Hb)].
      * destruct (decide (P a)); [|by apply elem_of_nil in Hin].
        apply list_elem_of_singleton in Hin as ->.
        exists a. by rewrite Nat.sub_diag.
      * exists b. split; [lia|]. split; [|done].
        replace (j - i) with (S (j - S i)) by lia. done.
    + intros (b & Hle & Hl & Hb).
      destruct (decide (j = i)) as [-> |Hne].
      * rewrite Nat.sub_diag in Hl. injection Hl as ->. left.
        rewrite decide_True by done. left.
      * right. exists b. split; [lia|]. split; [|done].
        replace (j - i) with (S (j - S i)) in Hl by lia. done.
Qed.
End positions.

(** ** The node dictionary *)

Lemma has_node_true k nodes : has_node k nodes = true <-> k ∈ ids nodes.
Proof. unfold has_node, ids. apply bool_decide_eq_true. Qed.

Lemma ids_update_node k f nodes :
  (forall n, node_id (f n) = node_id n) -> ids (update_node k f nodes) = ids nodes.
Proof.
  intros Hf. unfold ids, update_node. rewrite <- list_fmap_compose.
  apply list_fmap_ext. intros i n _. simpl. by destruct (decide (node_id n = k)).
Qed.

Lemma backfill_id l ip n : node_id (backfill l ip n) = node_id n.
Proof. unfold backfill. by destruct (node_ip n). Qed.

Lemma ids_add_node n nodes :
  ids (add_node n nodes)
  = if decide (node_id n ∈ ids nodes) then ids nodes else ids nodes ++ [node_id n].
Proof.
  unfold add_node. destruct (has_node (node_id n) nodes) eqn:E.
  - apply has_node_true in E. by rewrite decide_True.
  - rewrite decide_False.
    + unfold ids. by rewrite fmap_app.
    + intros Hin. apply has_node_true in Hin. congruence.
Qed.

Lemma elem_of_ids_add_node k n nodes :
  k ∈ ids (add_node n nodes) <-> k ∈ ids nodes \/ k = node_id n.
Proof.
  rewrite ids_add_node. destruct (decide (node_id n ∈ ids nodes)) as [Hin|Hin].
  - split; [auto|]. intros [?| ->]; done.
  - rewrite elem_of_app, list_elem_of_singleton. done.
Qed.

Lemma NoDup_ids_add_node n nodes : NoDup (ids nodes) -> NoDup (ids (add_node n nodes)).
Proof.
  intros Hnd. rewrite ids_add_node.
  destruct (decide (node_id n ∈ ids nodes)) as [Hin|Hin]; [done|].
  apply NoDup_app. repeat split; [done| |apply NoDup_singleton].
  intros x Hx Hx'. apply list_elem_of_singleton in Hx'. by subst.
Qed.

Lemma bump_lookup k k' (d : gmap string nat) :
  default 0 (bump k d !! k') = default 0 (d !! k') + (if decide (k = k') then 1 else 0).
Proof.
  unfold bump. destruct (decide (k = k')) as [-> |Hne].
  - by rewrite lookup_insert_eq.
  - rewrite lookup_insert_ne by done. lia.
Qed.

Lemma bump_lookup_pos k k' c (d : gmap string nat) :
  (forall c, d !! k' = Some c -> 0 < c) -> bump k d !! k' = Some c -> 0 < c.
Proof.
  unfold bump. intros Hd. destruct (decide (k = k')) as [-> |Hne].
  - rewrite lookup_insert_eq. intros [= <-]. lia.
  - rewrite lookup_insert_ne by done. apply Hd.
Qed.

(** ** The invariant of the second pass of [process_csv] *)

Lemma build_inv_empty : build_inv empty_build.
Proof.
  split; simpl.
  - constructor.
  - intros k. rewrite degree_nil. split; [intros Hin; by apply elem_of_nil in Hin|lia].
  - intros k. by rewrite lookup_empty.
  - intros k c. by rewrite lookup_empty.
  - constructor.
  - done.
  - done.
Qed.

Section import.
Context `{PyLib}.

Lemma add_event_nodes m b t computer ip user :
  exists source_id,
    (source_id = default ip (m !! ip)) /\
    b_edges (add_event m b t computer ip user)
    = b_edges b ++ [Edge source_id computer t user ""] /\
    b_edge_groups (add_event m b t computer ip user)
    = odict_append (sorted2 source_id computer) (length (b_edges b)) (b_edge_groups b) /\
    b_node_edge_count (add_event m b t computer ip user)
    = bump computer (bump source_id (b_node_edge_count b)) /\
    (forall k, k ∈ ids (b_nodes (add_event m b t computer ip user))
               <-> k ∈ ids (b_nodes b) \/ k = source_id \/ k = computer) /\
    (NoDup (ids (b_nodes b)) -> NoDup (ids (b_nodes (add_event m b t computer ip user)))).
Proof.
  unfold add_event. destruct (m !! ip) as [h|] eqn:E; simpl.
  - exists h. repeat split; try done.
    + rewrite !elem_of_ids_add_node. simpl.
      rewrite ids_update_node by apply backfill_id. tauto.
    + rewrite !elem_of_ids_add_node. simpl.
      rewrite ids_update_node by apply backfill_id. tauto.
    + intros Hnd. apply NoDup_ids_add_node, NoDup_ids_add_node.
      by rewrite ids_update_node by apply backfill_id.
  - exists ip. repeat split; try done.
    + rewrite !elem_of_ids_add_node. simpl. tauto.
    + rewrite !elem_of_ids_add_node. simpl. tauto.
    + intros Hnd. by apply NoDup_ids_add_node, NoDup_ids_add_node.
Qed.

Lemma add_event_inv m b t computer ip user :
  build_inv b -> build_inv (add_event m b t computer ip user).
Proof.
  intros [Hnd Hnodes Hcount Hpos Hkeys Hgroups Hne].
  destruct (add_event_nodes m b t computer ip user)
    as (s & _ & Hedges & Hgr & Hcnt & Hids & Hnd').
  split.
  - auto.
  - intros k. rewrite Hids, Hedges, degree_snoc, Hnodes. simpl.
    destruct (decide (s = k)), (decide (computer = k)); split; intros; try lia; auto.
    destruct H0 as [?|[?|?]]; try lia; congruence.
  - intros k. rewrite Hcnt, Hedges, degree_snoc, !bump_lookup, Hcount. simpl. lia.
  - intros k c. rewrite Hcnt. apply bump_lookup_pos. intros c'.
    apply bump_lookup_pos. apply Hpos.
  - rewrite Hgr. by apply odict_set_NoDup.
  - intros key. rewrite Hgr, Hedges. unfold odict_append.
    rewrite odict_get_set, positions_where_app, positions_where_cons.
    change (sorted2 s computer) with (edge_key (Edge s computer t user "")).
    simpl positions_where. rewrite app_nil_r, Nat.add_0_l.
    destruct (decide (edge_key (Edge s computer t user "") = key)) as [<- |Hk]; simpl.
    + by rewrite Hgroups.
    + by rewrite Hgroups, app_nil_r.
  - intros key l. rewrite Hgr. unfold odict_append. rewrite odict_get_set.
    destruct (decide (sorted2 s computer = key)) as [<- |Hk].
    + intros [= <-]. by destruct (default [] _).
    + apply Hne.
Qed.

Lemma process_row_inv m b r b' :
  build_inv b -> process_row m b r = Return b' -> build_inv b'.
Proof.
  intros Hb. unfold process_row.
  destruct (strip_domain_field (Computer r)) as [|computer]; simpl; [done|].
  destruct (EventTime r) as [et|]; [|by intros [= <-]].
  destruct (IpAddress r) as [ip|]; [|by intros [= <-]].
  destruct (is_empty et || is_empty computer || is_empty ip); [by intros [= <-]|].
  destruct (isoparse_timestamp et) as [t|]; simpl; [|done].
  intros [= <-]. by apply add_event_inv.
Qed.

Lemma rows_inv m reader b :
  pfold (process_row m) empty_build reader = Return b -> build_inv b.
Proof.
  apply (pfold_invariant build_inv); [|apply build_inv_empty].
  intros ??? ? _. by apply process_row_inv.
Qed.
End import.

(** ** Recolouring keeps the shape of the graph *)

Lemma set_edge_color_twice c c' e :
  set_edge_color c (set_edge_color c' e) = set_edge_color c e.
Proof. done. Qed.

Lemma recolored_source e e' : recolored e e' -> edge_source e' = edge_source e.
Proof. by intros ->. Qed.

Lemma recolored_target e e' : recolored e e' -> edge_target e' = edge_target e.
Proof. by intros ->. Qed.

Lemma filter_length_Forall2 {A} (P Q : A -> Prop)
    `{forall a, Decision (P a)} `{forall a, Decision (Q a)} (R : A -> A -> Prop) l l' :
  (forall a a', R a a' -> (P a <-> Q a')) ->
  Forall2 R l l' -> length (filter P l) = length (filter Q l').
Proof.
  intros HR. induction 1 as [|a a' l l' Ha _ IH]; [done|].
  rewrite !filter_cons.
  destruct (decide (P a)) as [HP|HP], (decide (Q a')) as [HQ|HQ]; simpl; try lia.
  - destruct HQ. by apply (HR a a').
  - destruct HP. by apply (HR a a').
Qed.

Lemma degree_recolored es es' k :
  Forall2 recolored es es' -> degree es' k = degree es k.
Proof.
  intros Hr. unfold degree. symmetry. f_equal.
  - apply (filter_length_Forall2 _ _ recolored); [|done].
    intros a a' Ha. by rewrite (recolored_source _ _ Ha).
  - apply (filter_length_Forall2 _ _ recolored); [|done].
    intros a a' Ha. by rewrite (recolored_target _ _ Ha).
Qed.

Lemma same_pair_recolored e1 e1' e2 e2' :
  recolored e1 e1' -> recolored e2 e2' -> same_pair e1 e2 <-> same_pair e1' e2'.
Proof.
  intros H1 H2. unfold same_pair.
  by rewrite (recolored_source _ _ H1), (recolored_target _ _ H1),
             (recolored_source _ _ H2), (recolored_target _ _ H2).
Qed.

Lemma group_size_recolored es es' e e' :
  Forall2 recolored es es' -> recolored e e' -> group_size es' e' = group_size es e.
Proof.
  intros Hr He. unfold group_size. symmetry.
  apply (filter_length_Forall2 _ _ recolored); [|done].
  intros a a' Ha. by apply same_pair_recolored.
Qed.

(** ** Maxima *)

Lemma max_list_same (l1 l2 : list nat) :
  (forall x, x ∈ l1 <-> x ∈ l2) -> max_list l1 = max_list l2.
Proof.
  intros Hl. destruct l1 as [|a l1].
  - destruct l2 as [|b l2]; [done|].
    assert (b ∈ []) as Hb by (apply Hl; left). by apply elem_of_nil in Hb.
  - destruct l2 as [|b l2].
    { assert (a ∈ []) as Ha by (apply Hl; left). by apply elem_of_nil in Ha. }
    apply Nat.le_antisymm.
    + apply max_list_elem_of_le, Hl, max_list_elem_of. done.
    + apply max_list_elem_of_le, Hl, max_list_elem_of. done.
Qed.

Lemma max_list_fmap_same {A B} (f : A -> nat) (g : B -> nat) l1 l2 :
  (forall a, a ∈ l1 -> exists b, b ∈ l2 /\ f a = g b) ->
  (forall b, b ∈ l2 -> exists a, a ∈ l1 /\ f a = g b) ->
  max_list (f <$> l1) = max_list (g <$> l2).
Proof.
  intros H1 H2. apply max_list_same. intros x. rewrite !list_elem_of_fmap. split.
  - intros (a & -> & Ha). destruct (H1 a Ha) as (b & ? & ?). eauto.
  - intros (b & -> & Hb). destruct (H2 b Hb) as (a & ? & ?). exists a. eauto.
Qed.

(** ** In-place recolouring *)

Lemma foldl_alter_length {A} (f : A -> A) idxs (l : list A) :
  length (foldl (fun es i => alter f i es) l idxs) = length l.
Proof.
  revert l. induction idxs as [|i idxs IH]; intros l; simpl; [done|].
  by rewrite IH, length_alter.
Qed.

Lemma foldl_alter_lookup {A} (f : A -> A) idxs (l : list A) j :
  (forall a, f (f a) = f a) ->
  foldl (fun es i => alter f i es) l idxs !! j
  = if decide (j ∈ idxs) then f <$> l !! j else l !! j.
Proof.
  intros Hf. revert l. induction idxs as [|i idxs IH]; intros l; simpl.
  - destruct (decide (j ∈ [])) as [Hin|]; [by apply elem_of_nil in Hin|done].
  - rewrite IH. destruct (decide (i = j)) as [-> |Hne].
    + rewrite list_lookup_alter_eq.
      destruct (decide (j ∈ j :: idxs)) as [_|Hn]; [|destruct Hn; left].
      destruct (decide (j ∈ idxs)); [|done].
      destruct (l !! j); simpl; [|done]. by rewrite Hf.
    + rewrite list_lookup_alter_ne by done.
      destruct (decide (j ∈ idxs)) as [Hin|Hin],
               (decide (j ∈ i :: idxs)) as [Hin'|Hin']; try done.
      * destruct Hin'. by right.
      * apply elem_of_cons in Hin' as [?|?]; congruence.
Qed.

(** ** The colouring loops *)

Section styling.
Context `{PyLib}.

Lemma color_group_spec mx es g es' :
  color_group mx es g = Return es' ->
  exists c, calculate_edge_color (length g.2) mx = Return c /\
    length es' = length es /\
    forall i, es' !! i
              = if decide (i ∈ g.2) then set_edge_color c <$> es !! i else es !! i.
Proof.
  unfold color_group.
  destruct (calculate_edge_color (length g.2) mx) as [|c]; simpl; [done|].
  intros [= <-]. exists c. split; [done|]. split.
  - apply foldl_alter_length.
  - intros i. apply foldl_alter_lookup. intros e. apply set_edge_color_twice.
Qed.

(** Every position belongs to the groups of one key only. *)
Lemma color_groups_spec mx (keyof : nat -> string * string) gs es es' :
  NoDup gs.*1 ->
  (forall k idxs i, (k, idxs) ∈ gs -> i ∈ idxs -> keyof i = k) ->
  pfold (color_group mx) es gs = Return es' ->
  length es' = length es /\
  forall i,
    ((forall k idxs, (k, idxs) ∈ gs -> i ∉ idxs) -> es' !! i = es !! i) /\
    (forall k idxs, (k, idxs) ∈ gs -> i ∈ idxs ->
       exists c, calculate_edge_color (length idxs) mx = Return c /\
                 es' !! i = set_edge_color c <$> es !! i).
Proof.
  revert es. induction gs as [|[k0 idxs0] gs IH]; intros es Hnd Hkey Hrun.
  - simpl in Hrun. injection Hrun as <-. split; [done|]. intros i. split; [done|].
    intros k idxs Hin. by apply elem_of_nil in Hin.
  - simpl in Hrun.
    destruct (color_group mx es (k0, idxs0)) as [|es1] eqn:Hg; simpl in Hrun; [done|].
    apply color_group_spec in Hg as (c & Hc & Hlen & Hlook). simpl in Hc, Hlook.
    rewrite fmap_cons in Hnd. apply NoDup_cons in Hnd as [Hk0 Hnd]. simpl in Hk0.
    assert (forall k idxs i, (k, idxs) ∈ gs -> i ∈ idxs -> keyof i = k) as Hkey'.
    { intros k idxs i Hin. apply Hkey. by right. }
    destruct (IH es1 Hnd Hkey' Hrun) as [Hlen' Hes'].
    split; [congruence|]. intros i. destruct (Hes' i) as [Hout Hin]. split.
    + intros Hno. rewrite Hout.
      * rewrite Hlook. rewrite decide_False; [done|]. apply (Hno k0). left.
      * intros k idxs Hk. apply (Hno k). by right.
    + intros k idxs Hk Hi. apply elem_of_cons in Hk as [Heq|Hk].
      * injection Heq as -> ->. exists c. split; [done|].
        rewrite Hout, Hlook; [by rewrite decide_True|].
        intros k idxs Hk Hi'. apply Hk0.
        assert (keyof i = k0) as <- by (apply (Hkey _ idxs0); [left|done]).
        assert (keyof i = k) as <- by (apply (Hkey _ idxs); [by right|done]).
        apply list_elem_of_fmap. by exists (keyof i, idxs).
      * destruct (Hin k idxs Hk Hi) as (c' & Hc' & Hl). exists c'. split; [done|].
        rewrite Hl, Hlook. rewrite decide_False; [done|].
        intros Hi0. apply Hk0.
        assert (keyof i = k0) as <- by (apply (Hkey _ idxs0); [left|done]).
        assert (keyof i = k) as <- by (apply (Hkey _ idxs); [by right|done]).
        apply list_elem_of_fmap. by exists (keyof i, idxs).
Qed.

(** *** Groups and edges under the invariant *)

Lemma group_members b k idxs :
  build_inv b -> (k, idxs) ∈ b_edge_groups b ->
  idxs <> [] /\
  forall i, i ∈ idxs <-> exists e, b_edges b !! i = Some e /\ edge_key e = k.
Proof.
  intros Hb Hin.
  pose proof (odict_elem_get _ _ _ (inv_keys _ Hb) Hin) as Hget.
  split; [by apply (inv_groups_ne _ Hb k)|].
  intros i. pose proof (inv_groups _ Hb k) as Hg. rewrite Hget in Hg. simpl in Hg.
  rewrite Hg, elem_of_positions_where. rewrite Nat.sub_0_r. split.
  - intros (e & _ & ? & ?). eauto.
  - intros (e & ? & ?). exists e. split; [lia|done].
Qed.

Lemma group_length b k idxs e :
  build_inv b -> (k, idxs) ∈ b_edge_groups b -> edge_key e = k ->
  length idxs = group_size (b_edges b) e.
Proof.
  intros Hb Hin Hk.
  pose proof (odict_elem_get _ _ _ (inv_keys _ Hb) Hin) as Hget.
  pose proof (inv_groups _ Hb k) as Hg. rewrite Hget in Hg. simpl in Hg.
  rewrite Hg, positions_where_length. unfold group_size. f_equal.
  apply list_filter_iff. intros e'. rewrite <- edge_key_same_pair. subst k.
  split; congruence.
Qed.

Lemma group_of_edge b i e :
  build_inv b -> b_edges b !! i = Some e ->
  exists idxs, (edge_key e, idxs) ∈ b_edge_groups b /\ i ∈ idxs.
Proof.
  intros Hb Hi. pose proof (inv_groups _ Hb (edge_key e)) as Hg.
  assert (i ∈ positions_where (fun e' => edge_key e' = edge_key e) 0 (b_edges b)) as Hin.
  { apply elem_of_positions_where. exists e. rewrite Nat.sub_0_r.
    split; [lia|done]. }
  rewrite <- Hg in Hin.
  destruct (odict_get (edge_key e) (b_edge_groups b)) as [idxs|] eqn:Hget.
  - exists idxs. split; [by apply odict_get_Some|done].
  - by apply elem_of_nil in Hin.
Qed.

Lemma max_edges_spec b :
  build_inv b ->
  max_list ((fun g => length g.2) <$> b_edge_groups b) = max_group_size (b_edges b).
Proof.
  intros Hb. unfold max_group_size. apply max_list_fmap_same.
  - intros [k idxs] Hin. destruct (group_members b k idxs Hb Hin) as [Hne Hmem].
    destruct idxs as [|i idxs]; [done|].
    destruct (proj1 (Hmem i)) as (e & Hi & Hk); [left|].
    exists e. split; [by eapply list_elem_of_lookup_2|].
    by apply (group_length b k).
  - intros e He. apply list_elem_of_lookup in He as [i Hi].
    destruct (group_of_edge b i e Hb Hi) as (idxs & Hin & _).
    exists (edge_key e, idxs). split; [done|]. by apply (group_length b (edge_key e)).
Qed.

Lemma color_edges_spec b es' :
  build_inv b ->
  pfold (color_group (max_group_size (b_edges b))) (b_edges b) (b_edge_groups b)
  = Return es' ->
  Forall2 (fun e e' =>
             recolored e e' /\
             calculate_edge_color (group_size (b_edges b) e)
                                  (max_group_size (b_edges b))
             = Return (edge_color e'))
          (b_edges b) es'.
Proof.
  intros Hb Hrun.
  pose (keyof := fun i => default ("", "") (edge_key <$> b_edges b !! i)).
  assert (forall k idxs i, (k, idxs) ∈ b_edge_groups b -> i ∈ idxs -> keyof i = k)
    as Hkey.
  { intros k idxs i Hin Hi.
    destruct (proj1 (proj2 (group_members b k idxs Hb Hin) i) Hi) as (e & He & Hk).
    unfold keyof. by rewrite He. }
  destruct (color_groups_spec _ keyof _ _ _ (inv_keys _ Hb) Hkey Hrun) as [Hlen Hspec].
  apply Forall2_same_length_lookup. split; [done|].
  intros i e e' He He'.
  destruct (group_of_edge b i e Hb He) as (idxs & Hin & Hi).
  destruct (proj2 (Hspec i) _ _ Hin Hi) as (c & Hc & Hl).
  rewrite He, He' in Hl. simpl in Hl. injection Hl as ->.
  split; [done|]. simpl.
  by rewrite <- (group_length b (edge_key e) idxs e Hb Hin).
Qed.
End styling.

(** ** The snapshot of a successful import *)

Section snapshots.
Context `{PyLib}.

Lemma style_node_spec m cnt mx n n' :
  style_node m cnt mx n = Return n' ->
  node_id n' = node_id n /\
  exists c, cnt !! node_id n = Some c /\ mx <> 0 /\ node_size n' = size_of c mx.
Proof.
  unfold style_node. destruct (cnt !! node_id n) as [c|]; simpl; [|done].
  unfold calculate_node_size. destruct (mx =? 0) eqn:E; simpl; [done|].
  intros [= <-]. simpl. split; [done|]. exists c. split; [done|].
  split; [|done]. by apply Nat.eqb_neq.
Qed.

Lemma max_node_edges_spec b :
  build_inv b -> b_nodes b <> [] ->
  max_default 1 (snd <$> map_to_list (b_node_edge_count b))
  = max_list (degree (b_edges b) <$> ids (b_nodes b)).
Proof.
  intros Hb Hne.
  assert (forall x, x ∈ snd <$> map_to_list (b_node_edge_count b)
                    <-> x ∈ degree (b_edges b) <$> ids (b_nodes b)) as Hsame.
  { intros x. rewrite !list_elem_of_fmap. split.
    - intros ([k c] & -> & Hkc). apply elem_of_map_to_list in Hkc. simpl.
      pose proof (inv_count _ Hb k) as Hc. rewrite Hkc in Hc. simpl in Hc.
      exists k. split; [done|]. apply (inv_nodes _ Hb). rewrite <- Hc.
      by apply (inv_count_pos _ Hb k).
    - intros (k & -> & Hk). apply (inv_nodes _ Hb) in Hk.
      pose proof (inv_count _ Hb k) as Hc.
      destruct (b_node_edge_count b !! k) as [c|] eqn:Hkc; simpl in Hc; [|lia].
      exists (k, c). split; [done|]. by apply elem_of_map_to_list. }
  rewrite <- (max_list_same _ _ Hsame). unfold max_default.
  destruct (snd <$> map_to_list (b_node_edge_count b)) as [|x l] eqn:E; [|done].
  destruct (b_nodes b) as [|n ns]; [done|].
  assert (degree (b_edges b) (node_id n) ∈ []) as Hin by (apply Hsame; left).
  by apply elem_of_nil in Hin.
Qed.

Lemma ids_Forall2 (R : node -> node -> Prop) l l' :
  (forall n n', R n n' -> node_id n' = node_id n) -> Forall2 R l l' -> ids l' = ids l.
Proof.
  intros HR. induction 1 as [|n n' l l' Hn _ IH]; [done|].
  unfold ids in *. rewrite !fmap_cons. f_equal; [by apply HR|done].
Qed.

Lemma import_graph_wf reader nodes edges :
  import_graph reader = Return (nodes, edges) -> wf_snapshot (Snapshot nodes edges).
Proof.
  unfold import_graph.
  destruct (pfold _ empty_build reader) as [|b] eqn:Hrows; simpl; [done|].
  apply rows_inv in Hrows as Hb.
  destruct (pmap _ (b_nodes b)) as [|nodes'] eqn:Hstyle; simpl; [done|].
  pose proof (max_edges_spec b Hb) as Hmx.
  destruct (b_edge_groups b) as [|g gs] eqn:Hgroups; [done|].
  simpl in Hmx. rewrite Hmx, <- Hgroups. clear Hmx. simpl.
  destruct (pfold _ (b_edges b) (b_edge_groups b)) as [|edges'] eqn:Hcolor;
    simpl; [done|].
  intros [= <- <-].
  apply pmap_Return in Hstyle. apply (color_edges_spec b _ Hb) in Hcolor.
  assert (Forall2 recolored (b_edges b) edges') as Hrec.
  { eapply Forall2_impl; [done|]. by intros ?? [? _]. }
  assert (ids nodes' = ids (b_nodes b)) as Hids.
  { eapply ids_Forall2; [|done]. intros n n' Hn.
    by apply style_node_spec in Hn as [? _]. }
  assert (b_edges b <> []) as Hedges.
  { destruct (group_members b g.1 g.2 Hb) as [Hne Hmem].
    - rewrite Hgroups. destruct g. left.
    - destruct (g.2) as [|i l]; [done|].
      destruct (proj1 (Hmem i)) as (e & He & _); [left|].
      intros Hnil. by rewrite Hnil in He. }
  assert (b_nodes b <> []) as Hnodes.
  { destruct (b_edges b) as [|e es] eqn:Hes; [done|].
    assert (edge_source e ∈ ids (b_nodes b)) as Hin.
    { apply (inv_nodes _ Hb), degree_pos. rewrite Hes. apply is_endpoint_source. left. }
    intros Hnil. rewrite Hnil in Hin. by apply elem_of_nil in Hin. }
  split; simpl.
  - rewrite Hids. apply (inv_nodup _ Hb).
  - intros k. rewrite Hids, (degree_recolored _ _ k Hrec). apply (inv_nodes _ Hb).
  - intros Hnil. subst edges'. apply Forall2_nil_inv_r in Hrec. done.
  - intros n' Hn'.
    apply list_elem_of_lookup in Hn' as [i Hi].
    destruct (Forall2_lookup_r _ _ _ _ _ Hstyle Hi) as (n & Hn & Hst).
    apply style_node_spec in Hst as (Hid & c & Hc & _ & Hsize).
    rewrite Hsize, Hid. unfold max_degree. simpl. rewrite Hids.
    rewrite (max_node_edges_spec b Hb Hnodes).
    pose proof (inv_count _ Hb (node_id n)) as Hcnt. rewrite Hc in Hcnt. simpl in Hcnt.
    rewrite Hcnt. rewrite (degree_recolored _ _ _ Hrec).
    do 2 f_equal. apply list_fmap_ext. intros ? k _.
    by rewrite (degree_recolored _ _ _ Hrec).
  - intros e' He'. apply list_elem_of_lookup in He' as [i Hi].
    destruct (Forall2_lookup_r _ _ _ _ _ Hcolor Hi) as (e & He & Hre & Hc).
    rewrite (group_size_recolored _ _ e e' Hrec Hre).
    assert (max_group_size edges' = max_group_size (b_edges b)) as ->; [|done].
    unfold max_group_size. apply max_list_fmap_same.
    + intros a Ha. apply list_elem_of_lookup in Ha as [j Hj].
      destruct (Forall2_lookup_r _ _ _ _ _ Hrec Hj) as (a0 & Ha0 & Hra).
      exists a0. split; [by eapply list_elem_of_lookup_2|].
      by apply group_size_recolored.
    + intros a0 Ha0. apply list_elem_of_lookup in Ha0 as [j Hj].
      destruct (Forall2_lookup_l _ _ _ _ _ Hrec Hj) as (a & Ha & Hra).
      exists a. split; [by eapply list_elem_of_lookup_2|].
      by apply group_size_recolored.
Qed.
End snapshots.

(** ** The store across requests *)

Section store.
Context `{PyLib}.

Lemma place_id p n : node_id (place p n) = node_id n.
Proof. unfold place. by destruct (p !! node_id n). Qed.

Lemma place_size p n : node_size (place p n) = node_size n.
Proof. unfold place. by destruct (p !! node_id n). Qed.

Lemma ids_place p nodes : ids (place p <$> nodes) = ids nodes.
Proof.
  unfold ids. rewrite <- list_fmap_compose. apply list_fmap_ext.
  intros i n _. apply place_id.
Qed.

Lemma wf_place p nodes edges :
  wf_snapshot (Snapshot nodes edges) -> wf_snapshot (Snapshot (place p <$> nodes) edges).
Proof.
  intros [Hnd Hnodes Hedges Hsize Hcolor]. simpl in *.
  split; simpl; try done.
  - by rewrite ids_place.
  - intros k. rewrite ids_place. apply Hnodes.
  - intros n' Hn'. apply list_elem_of_fmap in Hn' as (n & -> & Hn).
    rewrite place_size, place_id, (Hsize n Hn). unfold max_degree. simpl.
    by rewrite ids_place.
Qed.

Lemma process_csv_ok reader layout st d st' :
  process_csv reader layout st = (inr d, st') ->
  wf_snapshot d /\ current_data st' = Some d.
Proof.
  unfold process_csv.
  destruct (import_graph reader) as [|[nodes edges]] eqn:Himp; [done|].
  destruct (choose_layout layout nodes edges (random_state st)) as [[|[p|]] g];
    try done.
  intros [= <- <-]. split; [|done]. apply wf_place. by apply (import_graph_wf reader).
Qed.

Lemma process_csv_error reader layout st e st' :
  process_csv reader layout st = (inl e, st') -> current_data st' = current_data st.
Proof.
  unfold process_csv.
  destruct (import_graph reader) as [|[nodes edges]]; [by intros [= _ <-]|].
  destruct (choose_layout layout nodes edges (random_state st)) as [[|[p|]] g];
    try done; by intros [= _ <-].
Qed.

Lemma upload_file_ok file layout st :
  store_ok st -> store_ok (upload_file file layout st).2.
Proof.
  intros Hst. unfold upload_file. destruct file as [reader|]; [|done].
  destruct (process_csv reader layout st) as [[e|d] st'] eqn:Hp.
  - apply process_csv_error in Hp. simpl. intros d Hd. apply Hst. congruence.
  - apply process_csv_ok in Hp as [Hwf Hd].
    assert (store_ok st') as Hst' by (intros d' Hd'; congruence).
    by destruct (snap_nodes d), (snap_edges d).
Qed.

Lemma update_layout_ok layout st : store_ok st -> store_ok (update_layout layout st).2.
Proof.
  intros Hst. unfold update_layout. destruct (current_data st) as [d|] eqn:Hd; [|done].
  destruct (choose_layout layout (snap_nodes d) (snap_edges d) (random_state st))
    as [[|[p|]] g]; simpl.
  - intros d' Hd'. simpl in Hd'. apply Hst. congruence.
  - intros d' [= <-]. apply wf_place. specialize (Hst d Hd). by destruct d.
  - intros d' Hd'. simpl in Hd'. apply Hst. congruence.
Qed.

Lemma handle_ok st r : store_ok st -> store_ok (handle st r).2.
Proof.
  intros Hst. destruct r; simpl; try done.
  - by apply upload_file_ok.
  - by apply update_layout_ok.
Qed.

Lemma run_ok st rs : store_ok st -> store_ok (run st rs).
Proof.
  revert st. induction rs as [|r rs IH]; intros st Hst; [done|].
  simpl. apply IH. by apply handle_ok.
Qed.

Lemma init_ok : store_ok init.
Proof. intros d Hd. done. Qed.

Lemma wf_referential_integrity d : wf_snapshot d -> referential_integrity d.
Proof.
  intros Hwf e He.
  split; apply (wf_nodes _ Hwf), degree_pos;
    [by apply is_endpoint_source|by apply is_endpoint_target].
Qed.

Lemma referential_integrity_place p nodes edges :
  referential_integrity (Snapshot nodes edges) ->
  referential_integrity (Snapshot (place p <$> nodes) edges).
Proof. intros Hri e He. simpl. rewrite ids_place. apply (Hri e He). Qed.

Lemma update_layout_integrity layout st d d' :
  current_data st = Some d -> referential_integrity d ->
  current_data (update_layout layout st).2 = Some d' -> referential_integrity d'.
Proof.
  intros Hd Hri. unfold update_layout. rewrite Hd.
  destruct (choose_layout layout (snap_nodes d) (snap_edges d) (random_state st))
    as [[|[p|]] g]; simpl; rewrite ?Hd.
  - by intros [= <-].
  - intros [= <-]. apply referential_integrity_place. by destruct d.
  - by intros [= <-].
Qed.

(** The ids of a stored snapshot are pairwise distinct. *)
Lemma stored_nodes_distinct (rs : list request) (d : snapshot) :
  current_data (run init rs) = Some d -> NoDup (ids (snap_nodes d)).
Proof. intros Hd. apply wf_nodup. by apply (run_ok init rs init_ok). Qed.

(** C1. The snapshot a successful import returns has referential
    integrity: the source and the target of each of its edges are ids of
    its node list. A [/layout] request keeps it: whatever it leaves in
    [current_data] has referential integrity when the snapshot it found
    had. Hence every snapshot the server ever stores has it. *)
Theorem C1_referential_integrity :
  (forall reader layout st d st',
     process_csv reader layout st = (inr d, st') -> referential_integrity d) /\
  (forall layout st d d',
     current_data st = Some d -> referential_integrity d ->
     current_data (update_layout layout st).2 = Some d' -> referential_integrity d') /\
  (forall rs d, current_data (run init rs) = Some d -> referential_integrity d).
Proof.
  split; [|split].
  - intros reader layout st d st' Hp. apply process_csv_ok in Hp as [Hwf _].
    by apply wf_referential_integrity.
  - apply update_layout_integrity.
  - intros rs d Hd. apply wf_referential_integrity. by apply (run_ok init rs init_ok).
Qed.

Lemma pfold_raise {A B} (f : B -> A -> py B) l a b :
  a ∈ l -> (forall b, exists e, f b a = Raise e) -> exists e, pfold f b l = Raise e.
Proof.
  intros Hin Hf. revert b. induction l as [|a' l IH]; intros b.
  - by apply elem_of_nil in Hin.
  - simpl. apply elem_of_cons in Hin as [<- |Hin].
    + destruct (Hf b) as [e ->]. by exists e.
    + destruct (f b a') as [e|b']; simpl; [by exists e|]. by apply IH.
Qed.

Lemma import_graph_malformed reader r event_time :
  r ∈ reader -> processed r event_time -> isoparse_timestamp event_time = None ->
  exists e, import_graph reader = Raise e.
Proof.
  intros Hin (Het & Hne & (c & Hc & Hcne) & (ip & Hip & Hipne)) Hparse.
  unfold import_graph.
  destruct (pfold_raise (process_row (build_ip_to_hostname reader)) reader r
              empty_build Hin) as [e He].
  - intros b. unfold process_row. rewrite Hc, Het, Hip. simpl.
    rewrite Hne, Hcne, Hipne, Hparse. simpl. by eexists.
  - exists e. by rewrite He.
Qed.

(** C2. If some row that the import processes (event time, stripped
    computer name and source IP all non-empty) carries an event time that
    [isoparse] rejects, then [process_csv] returns an error and no graph,
    [/upload] answers 500 with that error as its body, and [current_data]
    is what it was before the request. *)
Theorem C2_malformed_row_aborts_import (reader : list row) (layout : string)
    (st : server) (r : row) (event_time : string) :
  r ∈ reader -> processed r event_time -> isoparse_timestamp event_time = None ->
  exists e,
    process_csv reader layout st = (inl e, st) /\
    upload_file (Some reader) layout st = (Response 500 (JError e), st).
Proof.
  intros Hin Hr Hparse.
  destruct (import_graph_malformed reader r event_time Hin Hr Hparse) as [e He].
  exists (ErrExn e). unfold upload_file, process_csv. by rewrite He.
Qed.
End store.

(** ** Node sizes *)

Lemma Qnat_le a b : a <= b -> (Qnat a <= Qnat b)%Q.
Proof. intros Hab. unfold Qnat. rewrite <- Zle_Qle. lia. Qed.

Lemma Qnat_pos a : 0 < a -> (0 < Qnat a)%Q.
Proof. intros Ha. unfold Qnat. change 0%Q with (inject_Z 0). rewrite <- Zlt_Qlt. lia. Qed.

Lemma size_of_formula c mx : (size_of c mx == 10 + 20 * (Qnat c / Qnat mx))%Q.
Proof. unfold size_of. ring. Qed.

Lemma size_of_mono c c' mx : 0 < mx -> c <= c' -> (size_of c mx <= size_of c' mx)%Q.
Proof.
  intros Hmx Hc. unfold size_of. apply Qplus_le_r. apply Qmult_le_compat_r; [|done].
  unfold Qdiv. apply Qmult_le_compat_r; [by apply Qnat_le|].
  apply Qinv_le_0_compat, Qlt_le_weak. by apply Qnat_pos.
Qed.

Lemma size_of_max mx : 0 < mx -> (size_of mx mx == 30)%Q.
Proof.
  intros Hmx. unfold size_of. field. intros Hz.
  apply Qnat_pos in Hmx. rewrite Hz in Hmx. by apply Qlt_irrefl in Hmx.
Qed.

Lemma size_of_gt c mx : 0 < c -> 0 < mx -> (10 < size_of c mx)%Q.
Proof.
  intros Hc Hmx. unfold size_of.
  rewrite <- (Qplus_0_r 10) at 1. apply Qplus_lt_r.
  apply Qmult_lt_0_compat; [|done].
  unfold Qdiv. apply Qmult_lt_0_compat; [by apply Qnat_pos|].
  apply Qinv_lt_0_compat. by apply Qnat_pos.
Qed.

Section node_and_edge_styles.
Context `{PyLib}.

Lemma wf_degree_bounds d n :
  wf_snapshot d -> n ∈ snap_nodes d ->
  1 <= degree (snap_edges d) (node_id n) <= max_degree d.
Proof.
  intros Hwf Hn.
  assert (node_id n ∈ ids (snap_nodes d)) as Hid.
  { apply list_elem_of_fmap. by exists n. }
  split.
  - by apply (wf_nodes _ Hwf).
  - unfold max_degree. apply max_list_elem_of_le.
    apply list_elem_of_fmap. by exists (node_id n).
Qed.

(** C4. In the snapshot of a successful import every node has degree at
    least 1 (an edge from a node to itself counting twice, as in the
    import's counters), and its size is [10 + 20 * (degree / max_degree)],
    [max_degree] being the largest degree of a node of the snapshot. Hence
    size does not decrease when degree grows, a node of largest degree has
    size 30, and every size is greater than 10. (Sizes are floats in the
    program and exact rationals here.) *)
Theorem C4_node_size (reader : list row) (layout : string) (st st' : server)
    (d : snapshot) :
  process_csv reader layout st = (inr d, st') ->
  forall n, n ∈ snap_nodes d ->
    let deg := degree (snap_edges d) in
    1 <= deg (node_id n) <= max_degree d /\
    (node_size n == 10 + 20 * (Qnat (deg (node_id n)) / Qnat (max_degree d)))%Q /\
    (forall m, m ∈ snap_nodes d -> deg (node_id n) <= deg (node_id m) ->
               (node_size n <= node_size m)%Q) /\
    (deg (node_id n) = max_degree d -> (node_size n == 30)%Q) /\
    (10 < node_size n)%Q.
Proof.
  intros Hp n Hn deg. apply process_csv_ok in Hp as [Hwf _].
  pose proof (wf_degree_bounds d n Hwf Hn) as [Hlo Hhi]. fold deg in Hlo, Hhi.
  rewrite (wf_size _ Hwf n Hn). fold deg.
  split; [done|]. split; [apply size_of_formula|]. split; [|split].
  - intros m Hm Hle. rewrite (wf_size _ Hwf m Hm). apply size_of_mono; [lia|done].
  - intros ->. apply size_of_max. lia.
  - apply size_of_gt; lia.
Qed.

Lemma same_pair_group_size es e1 e2 :
  same_pair e1 e2 -> group_size es e1 = group_size es e2.
Proof.
  intros Hs. unfold group_size. f_equal. apply list_filter_iff. intros e.
  rewrite <- !edge_key_same_pair. apply edge_key_same_pair in Hs. by rewrite Hs.
Qed.

(** C7. In the snapshot of a successful import the colour of every edge is
    [calculate_edge_color] applied to the number of edges of its group (the
    edges joining the same unordered pair of nodes) and to the size of the
    largest group; so two edges of one group have the same colour string, and
    so have two edges whose groups have the same number of edges. *)
Theorem C7_edge_color (reader : list row) (layout : string) (st st' : server)
    (d : snapshot) :
  process_csv reader layout st = (inr d, st') ->
  (forall e, e ∈ snap_edges d ->
     calculate_edge_color (group_size (snap_edges d) e) (max_group_size (snap_edges d))
     = Return (edge_color e)) /\
  (forall e1 e2, e1 ∈ snap_edges d -> e2 ∈ snap_edges d -> same_pair e1 e2 ->
     edge_color e1 = edge_color e2) /\
  (forall e1 e2, e1 ∈ snap_edges d -> e2 ∈ snap_edges d ->
     group_size (snap_edges d) e1 = group_size (snap_edges d) e2 ->
     edge_color e1 = edge_color e2).
Proof.
  intros Hp. apply process_csv_ok in Hp as [Hwf _].
  assert (forall e1 e2, e1 ∈ snap_edges d -> e2 ∈ snap_edges d ->
            group_size (snap_edges d) e1 = group_size (snap_edges d) e2 ->
            edge_color e1 = edge_color e2) as Hsize.
  { intros e1 e2 H1 H2 Hg.
    pose proof (wf_color _ Hwf e1 H1) as Hc1. pose proof (wf_color _ Hwf e2 H2) as Hc2.
    rewrite Hg in Hc1. congruence. }
  split; [apply (wf_color _ Hwf)|]. split; [|done].
  intros e1 e2 H1 H2 Hs. apply Hsize; [done..|]. by apply same_pair_group_size.
Qed.
End node_and_edge_styles.

(** ** Dictionaries filled by a loop over [enumerate] *)

Lemma foldl_ext {A B} (f g : B -> A -> B) l b :
  (forall b a, f b a = g b a) -> foldl f b l = foldl g b l.
Proof.
  intros Hfg. revert b. induction l as [|a l IH]; intros b; [done|].
  simpl. by rewrite Hfg, IH.
Qed.

Lemma enumerate_lookup {A} (l : list A) i a :
  (i, a) ∈ enumerate l <-> l !! i = Some a.
Proof.
  unfold enumerate. rewrite elem_of_lookup_imap. split.
  - by intros (j & b & [= -> ->] & Hl).
  - intros Hl. by exists i, a.
Qed.

Lemma enumerate_snd {A} (l : list A) : (enumerate l).*2 = l.
Proof.
  unfold enumerate. apply list_eq. intros i.
  rewrite list_lookup_fmap, list_lookup_imap. by destruct (l !! i).
Qed.

Section fill.
Context {V : Type} (f : nat -> V).

Lemma fill_other kvs m k :
  k ∉ ids kvs.*2 -> foldl (fill_step f) m kvs !! k = m !! k.
Proof.
  revert m. induction kvs as [|[i n] kvs IH]; intros m Hk; [done|].
  unfold ids in Hk. rewrite !fmap_cons in Hk.
  apply not_elem_of_cons in Hk as [Hne Hk]. simpl in Hne.
  cbn [foldl]. rewrite IH by done. unfold fill_step. simpl. by rewrite lookup_insert_ne.
Qed.

Lemma fill_lookup kvs m i n :
  NoDup (ids kvs.*2) -> (i, n) ∈ kvs -> foldl (fill_step f) m kvs !! node_id n = Some (f i).
Proof.
  revert m. induction kvs as [|[i0 n0] kvs IH]; intros m Hnd Hin.
  - by apply elem_of_nil in Hin.
  - unfold ids in Hnd. rewrite !fmap_cons in Hnd.
    apply NoDup_cons in Hnd as [Hn0 Hnd]. simpl in Hn0. cbn [foldl].
    apply elem_of_cons in Hin as [[= -> ->]|Hin].
    + rewrite fill_other by done. unfold fill_step. simpl. by rewrite lookup_insert_eq.
    + by apply IH.
Qed.
End fill.

(** ** Grid layout *)

Lemma ceil_sqrt_spec n : 0 < n ->
  (ceil_sqrt n - 1) * (ceil_sqrt n - 1) < n <= ceil_sqrt n * ceil_sqrt n.
Proof.
  intros Hn. unfold ceil_sqrt. pose proof (Nat.sqrt_spec n (Nat.le_0_l n)) as [Hlo Hhi].
  destruct (Nat.sqrt n * Nat.sqrt n =? n) eqn:E.
  - apply Nat.eqb_eq in E. split; [|lia].
    destruct (Nat.sqrt n) as [|s]; [lia|]. simpl. nia.
  - apply Nat.eqb_neq in E. simpl. rewrite Nat.sub_0_r. split; [lia|]. simpl in Hhi. lia.
Qed.

Lemma calculate_grid_layout_lookup node_list i n :
  NoDup (ids node_list) -> node_list !! i = Some n ->
  calculate_grid_layout node_list !! node_id n
  = Some (grid_pos (ceil_sqrt (length node_list)) 300 i).
Proof.
  intros Hnd Hi. unfold calculate_grid_layout.
  pose proof (fill_lookup (grid_pos (ceil_sqrt (length node_list)) 300)
                (enumerate node_list) ∅ i n) as Hf.
  rewrite enumerate_snd in Hf. specialize (Hf Hnd (proj2 (enumerate_lookup _ _ _) Hi)).
  rewrite <- Hf. f_equal. apply foldl_ext. by intros m [j a].
Qed.

Lemma cell_inj g i j : 0 < g -> i mod g = j mod g -> i / g = j / g -> i = j.
Proof.
  intros Hg Hm Hd.
  rewrite (Nat.div_mod_eq i g), (Nat.div_mod_eq j g). by rewrite Hm, Hd.
Qed.

Lemma cell_right g i : 0 < g -> S i mod g <> 0 ->
  S i mod g = i mod g + 1 /\ S i / g = i / g.
Proof.
  intros Hg Hne.
  pose proof (Nat.div_mod_eq i g) as Hi. pose proof (Nat.div_mod_eq (S i) g) as Hs.
  pose proof (Nat.mod_upper_bound i g ltac:(lia)) as Hbi.
  pose proof (Nat.mod_upper_bound (S i) g ltac:(lia)) as Hbs.
  assert (S i / g = i / g) as Hq.
  { destruct (Nat.lt_trichotomy (S i / g) (i / g)) as [Hlt|[Heq|Hgt]]; [nia|done|].
    assert (S i / g = i / g + 1) by nia. nia. }
  split; [|done]. rewrite Hq in Hs. nia.
Qed.

Lemma cell_below g i : 0 < g -> (i + g) mod g = i mod g /\ (i + g) / g = i / g + 1.
Proof.
  intros Hg. replace (i + g) with (i + 1 * g) by lia.
  rewrite Nat.Div0.mod_add, Nat.div_add by lia. done.
Qed.

(** C8. For a non-empty node list of length [n] whose ids are pairwise
    distinct (node lists are the values of the [nodes] dictionary, keyed by
    id; see [stored_nodes_distinct]), with [g = ceil(sqrt n)]: the
    grid layout maps the id of the node at index [i] to
    [(i mod g * 300, i div g * 300, 0)]; column and row are below [g], so
    the nodes fit in a [g] by [g] grid; two different indices never get the
    same cell; and a node's right-hand neighbour in its row, and the node
    below it in its column, lie exactly 300 further along x, respectively
    y. *)
Theorem C8_grid_layout (node_list : list node) :
  node_list <> [] -> NoDup (ids node_list) ->
  let n := length node_list in
  let g := ceil_sqrt n in
  let at_ i := grid_pos g 300 i in
  ((g - 1) * (g - 1) < n <= g * g) /\
  (forall i nd, node_list !! i = Some nd ->
     calculate_grid_layout node_list !! node_id nd = Some (at_ i) /\
     at_ i = Pos (Int (Z.of_nat (i mod g) * 300)) (Int (Z.of_nat (i / g) * 300)) (Int 0) /\
     i mod g < g /\ i / g < g) /\
  (forall i j, i < n -> j < n -> i <> j ->
     (i mod g, i / g) <> (j mod g, j / g) /\ at_ i <> at_ j) /\
  (forall i, S i < n -> S i mod g <> 0 ->
     grid_x (at_ (S i)) = (grid_x (at_ i) + 300)%Z /\ grid_y (at_ (S i)) = grid_y (at_ i)) /\
  (forall i, i + g < n ->
     grid_y (at_ (i + g)) = (grid_y (at_ i) + 300)%Z /\ grid_x (at_ (i + g)) = grid_x (at_ i)).
Proof.
  intros Hne Hnd n g at_.
  assert (0 < n) as Hn by (subst n; destruct node_list; [done|simpl; lia]).
  pose proof (ceil_sqrt_spec n Hn) as Hg. fold g in Hg.
  assert (0 < g) as Hg0 by (destruct g; [lia|lia]).
  assert (forall i, at_ i
            = Pos (Int (Z.of_nat (i mod g) * 300)) (Int (Z.of_nat (i / g) * 300)) (Int 0))
    as Hat.
  { intros i. unfold at_, grid_pos. by rewrite !Nat2Z.inj_mul. }
  split; [done|]. split; [|split; [|split]].
  - intros i nd Hi.
    split; [by apply calculate_grid_layout_lookup|]. split; [apply Hat|].
    split; [apply Nat.mod_upper_bound; lia|].
    apply lookup_lt_Some in Hi. fold n in Hi.
    apply Nat.Div0.div_lt_upper_bound. lia.
  - intros i j Hi Hj Hij.
    assert ((i mod g, i / g) <> (j mod g, j / g)) as Hcell.
    { intros [= Hm Hd]. by apply Hij, (cell_inj g). }
    split; [done|]. rewrite !Hat. intros [= Hx Hy]. apply Hcell. f_equal; lia.
  - intros i Hi Hm. destruct (cell_right g i Hg0 Hm) as [Hc Hr].
    rewrite !Hat. unfold grid_x, grid_y. simpl. rewrite Hc, Hr. lia.
  - intros i Hi. destruct (cell_below g i Hg0) as [Hc Hr].
    rewrite !Hat. unfold grid_x, grid_y. simpl. rewrite Hc, Hr. lia.
Qed.

Lemma in_range_within a b e : in_range a b e = true <-> within a b e.
Proof.
  unfold in_range, within. rewrite andb_true_iff, !Qle_bool_iff. done.
Qed.

(** ** Filters *)

Lemma filter_ext_in {A} (P Q : A -> Prop)
    `{forall a, Decision (P a)} `{forall a, Decision (Q a)} (l : list A) :
  (forall a, a ∈ l -> (P a <-> Q a)) -> filter P l = filter Q l.
Proof.
  induction l as [|a l IH]; intros HPQ; [done|].
  rewrite !filter_cons, IH by (intros; apply HPQ; by right).
  destruct (decide (P a)) as [HP|HP], (decide (Q a)) as [HQ|HQ]; try done.
  - destruct HQ. apply (HPQ a); [left|done].
  - destruct HP. apply (HPQ a); [left|done].
Qed.

Lemma filter_none {A} (P : A -> Prop) `{forall a, Decision (P a)} (l : list A) :
  (forall a, a ∈ l -> ~ P a) -> filter P l = [].
Proof.
  induction l as [|a l IH]; intros HP; [done|].
  rewrite filter_cons, IH by (intros; apply HP; by right).
  destruct (decide (P a)) as [Ha|Ha]; [|done]. destruct (HP a); [left|done].
Qed.

Lemma filter_all {A} (P : A -> Prop) `{forall a, Decision (P a)} (l : list A) :
  (forall a, a ∈ l -> P a) -> filter P l = l.
Proof.
  induction l as [|a l IH]; intros HP; [done|].
  rewrite filter_cons, IH by (intros; apply HP; by right).
  destruct (decide (P a)) as [Ha|Ha]; [done|]. destruct Ha. apply HP. left.
Qed.

Lemma is_endpoint_nil k : ~ is_endpoint [] k.
Proof. intros [Hk|Hk]; by apply elem_of_nil in Hk. Qed.

Lemma is_endpoint_cons e es k :
  is_endpoint (e :: es) k <-> edge_source e = k \/ edge_target e = k \/ is_endpoint es k.
Proof.
  unfold is_endpoint. rewrite !fmap_cons, !elem_of_cons. split.
  - intros [[->|?]|[->|?]]; auto.
  - intros [<-|[<-|[?|?]]]; auto.
Qed.

Lemma is_endpoint_elem es k :
  is_endpoint es k <-> exists e, e ∈ es /\ (edge_source e = k \/ edge_target e = k).
Proof.
  unfold is_endpoint. rewrite !list_elem_of_fmap. split.
  - intros [(e & -> & ?)|(e & -> & ?)]; exists e; auto.
  - intros (e & ? & [<-|<-]); [left|right]; by exists e.
Qed.

Lemma elem_of_endpoint_ids es k : k ∈ endpoint_ids es <-> is_endpoint es k.
Proof.
  unfold endpoint_ids, is_endpoint. by rewrite elem_of_union, !elem_of_list_to_set.
Qed.

Lemma elem_of_highlighted es (s0 : gset string) k :
  k ∈ foldl (fun ids e => {[edge_target e]} ∪ ({[edge_source e]} ∪ ids)) s0 es
  <-> k ∈ s0 \/ is_endpoint es k.
Proof.
  revert s0. induction es as [|e es IH]; intros s0.
  - simpl. split; [auto|]. intros [?|Hk]; [done|]. by apply is_endpoint_nil in Hk.
  - cbn [foldl]. rewrite IH, is_endpoint_cons, !elem_of_union, !elem_of_singleton.
    split; [intros [[->|[->|?]]|?]|intros [?|[<-|[<-|?]]]]; auto.
Qed.

(** ** Highlight and date filter *)

Section queries.
Context `{PyLib}.

(** The nodes a query answers with are the nodes of the snapshot that are
    endpoints of the edges it answers with; under referential integrity
    their ids are all the endpoints. *)
Lemma endpoint_nodes d es :
  wf_snapshot d -> (forall e, e ∈ es -> e ∈ snap_edges d) ->
  forall k, k ∈ ids (filter (fun n => is_endpoint es (node_id n)) (snap_nodes d))
            <-> is_endpoint es k.
Proof.
  intros Hwf Hsub k. unfold ids. rewrite list_elem_of_fmap. split.
  - intros (n & -> & Hn). by apply list_elem_of_filter in Hn as [? _].
  - intros Hk.
    assert (k ∈ ids (snap_nodes d)) as Hid.
    { apply (wf_nodes _ Hwf), degree_pos, is_endpoint_elem.
      apply is_endpoint_elem in Hk as (e & He & Hk). exists e. auto. }
    apply list_elem_of_fmap in Hid as (n & -> & Hn).
    exists n. split; [done|]. by apply list_elem_of_filter.
Qed.

(** [/highlight] for a non-empty string. *)
Lemma highlight_data_string x st d :
  current_data st = Some d -> x <> "" ->
  highlight_data (JStr x) st
  = Return (Response 200 (JGraph
      (filter (fun n => node_id n ∈
                 foldl (fun ids e => {[edge_target e]} ∪ ({[edge_source e]} ∪ ids))
                       ({[x]} : gset string) (filter (touches x) (snap_edges d)))
              (snap_nodes d))
      (filter (touches x) (snap_edges d)))).
Proof.
  intros Hd Hx. unfold highlight_data. rewrite Hd.
  destruct x as [|c x]; [done|]. simpl truthy. simpl negb. cbv iota. simpl hash_check.
  assert (filter (touches_value (JStr (String c x))) (snap_edges d)
          = filter (touches (String c x)) (snap_edges d)) as ->; [|done].
  apply filter_ext_in. intros e _. done.
Qed.


(** C6, amended. For every stored snapshot and every non-empty node id
    [x], [/highlight] answers 200 with exactly the edges whose source or
    target is [x] and with the nodes of the snapshot that are endpoints of
    those edges, whose ids are exactly those endpoints. (For the empty id
    the handler answers 400 instead.) *)
Theorem C6_highlight_amended (rs : list request) (d : snapshot) (x : string) :
  current_data (run init rs) = Some d -> x <> "" ->
  let edges := filter (touches x) (snap_edges d) in
  let nodes := filter (fun n => is_endpoint edges (node_id n)) (snap_nodes d) in
  highlight_data (JStr x) (run init rs) = Return (Response 200 (JGraph nodes edges)) /\
  (forall k, k ∈ ids nodes <-> is_endpoint edges k).
Proof.
  intros Hd Hx edges nodes.
  pose proof (run_ok init rs init_ok d Hd) as Hwf.
  assert (forall e, e ∈ edges -> e ∈ snap_edges d) as Hsub.
  { intros e He. by apply list_elem_of_filter in He as [_ ?]. }
  split; [|by apply endpoint_nodes].
  rewrite (highlight_data_string x _ d Hd Hx). fold edges. do 3 f_equal.
  apply filter_ext_in. intros n Hn.
  rewrite elem_of_highlighted, elem_of_singleton.
  split; [|auto]. intros [Hid|?]; [|done]. rewrite Hid.
  assert (is_endpoint (snap_edges d) x) as Hend.
  { apply degree_pos, (wf_nodes _ Hwf). rewrite <- Hid.
    apply list_elem_of_fmap. by exists n. }
  apply is_endpoint_elem in Hend as (e & He & Hk). apply is_endpoint_elem.
  exists e. split; [|done]. apply list_elem_of_filter. split; [|done]. apply Hk.
Qed.


Lemma filter_bounds_spec start_date end_date start end_ a b :
  strptime_minute start_date = Some start -> strptime_minute end_date = Some end_ ->
  (datetime_min <= end_ /\ end_ + 86400 <= datetime_max)%Z ->
  naive_timestamp start = Some a -> naive_timestamp (end_ + 86399) = Some b ->
  filter_bounds start_date end_date = Return (a, b).
Proof.
  intros Hs He [Hlo Hhi] Ha Hb. unfold filter_bounds, parse_minute, timestamp_of.
  rewrite Hs. simpl. rewrite Ha. simpl. rewrite He. simpl.
  unfold datetime_add. unfold datetime_min, datetime_max in *.
  replace ((-62135596800 <=? end_ + 86400)%Z && (end_ + 86400 <=? 253402300799)%Z)
    with true by (symmetry; apply andb_true_iff; split; apply Z.leb_le; lia).
  simpl.
  replace ((-62135596800 <=? end_ + 86400 + -1)%Z
           && (end_ + 86400 + -1 <=? 253402300799)%Z)
    with true by (symmetry; apply andb_true_iff; split; apply Z.leb_le; lia).
  simpl. replace (end_ + 86400 + -1)%Z with (end_ + 86399)%Z by lia.
  by rewrite Hb.
Qed.

(** C3. What [/filter] answers, against the end of the calendar day the
    specification asks for. For a stored snapshot and a request whose two
    dates [strptime] accepts, whose end date plus one day is no later than
    [datetime.max], and whose two bounds have a timestamp, the answer is
    200 with exactly the edges whose timestamp lies in the closed range
    from the timestamp of [start_date] to the timestamp of [end_date] plus
    one day minus one second, and with the nodes of the snapshot that are
    endpoints of those edges, whose ids are exactly those endpoints. When
    no edge has its timestamp in that range both lists are empty; when
    every edge has, the edges are all the edges of the snapshot. The upper
    bound is the last second of [end_date]'s calendar day when the time of
    day of [end_date] is 00:00; for any other time of day it lies at or
    after the midnight that ends that day, so that edges of the following
    day are returned. *)
Theorem C3_filter_range (rs : list request) (d : snapshot)
    (start_date end_date : string) (start end_ : Z) (a b : Q) :
  current_data (run init rs) = Some d ->
  strptime_minute start_date = Some start -> strptime_minute end_date = Some end_ ->
  (datetime_min <= end_ /\ end_ + 86400 <= datetime_max)%Z ->
  naive_timestamp start = Some a -> naive_timestamp (end_ + 86400 - 1) = Some b ->
  let edges := filter (within a b) (snap_edges d) in
  let nodes := filter (fun n => is_endpoint edges (node_id n)) (snap_nodes d) in
  filter_data start_date end_date (run init rs) = Response 200 (JGraph nodes edges) /\
  (forall k, k ∈ ids nodes <-> is_endpoint edges k) /\
  ((forall e, e ∈ snap_edges d -> ~ within a b e) -> nodes = [] /\ edges = []) /\
  ((forall e, e ∈ snap_edges d -> within a b e) -> edges = snap_edges d) /\
  ((end_ mod 86400 = 0)%Z -> (end_ + 86400 - 1 = next_midnight end_ - 1)%Z) /\
  ((end_ mod 86400 <> 0)%Z -> (next_midnight end_ <= end_ + 86400 - 1)%Z).
Proof.
  intros Hd Hs He Hrange Ha Hb edges nodes.
  replace (end_ + 86400 - 1)%Z with (end_ + 86399)%Z in Hb by lia.
  pose proof (run_ok init rs init_ok d Hd) as Hwf.
  assert (forall e, e ∈ edges -> e ∈ snap_edges d) as Hsub.
  { intros e Hin. by apply list_elem_of_filter in Hin as [_ ?]. }
  assert (filter (fun e => in_range a b e = true) (snap_edges d) = edges) as Hedges.
  { apply list_filter_iff. intros e. apply in_range_within. }
  split; [|split; [by apply endpoint_nodes|split; [|split; [|split]]]].
  - unfold filter_data. rewrite Hd.
    rewrite (filter_bounds_spec _ _ _ _ _ _ Hs He Hrange Ha Hb). rewrite Hedges.
    do 2 f_equal. apply list_filter_iff. intros n. apply elem_of_endpoint_ids.
  - intros Hnone. assert (edges = []) as Hnil by (by apply filter_none).
    split; [|done]. unfold nodes. rewrite Hnil. apply filter_none.
    intros n _. apply is_endpoint_nil.
  - intros Hall. by apply filter_all.
  - intros Hmid. unfold next_midnight.
    pose proof (Z.div_mod end_ 86400 ltac:(lia)). lia.
  - intros Hmid. unfold next_midnight.
    pose proof (Z.div_mod end_ 86400 ltac:(lia)).
    pose proof (Z.mod_pos_bound end_ 86400 ltac:(lia)). lia.
Qed.
End queries.

(** ** Splitting *)

Lemma split_on_no_sep c s : contains c s = false -> split_on c s = [s].
Proof.
  induction s as [|a s IH]; [done|]. simpl.
  destruct (Ascii.eqb a c); simpl; [done|]. intros Hc. by rewrite IH.
Qed.

Lemma groupable_ip n :
  groupable n ->
  exists ip, node_ip n = Some ip /\ is_empty ip = false /\ contains dot ip = true.
Proof.
  unfold groupable. destruct (node_ip n) as [ip|]; simpl; [|done].
  intros Hlen. exists ip. split; [done|]. split.
  - by destruct ip.
  - destruct (contains dot ip) eqn:E; [done|].
    by rewrite (split_on_no_sep _ _ E) in Hlen.
Qed.

Lemma NoDup_ids_inj l n n' :
  NoDup (ids l) -> n ∈ l -> n' ∈ l -> node_id n = node_id n' -> n = n'.
Proof.
  induction l as [|a l IH]; intros Hnd Hn Hn' Hid.
  - by apply elem_of_nil in Hn.
  - unfold ids in Hnd. rewrite fmap_cons in Hnd. apply NoDup_cons in Hnd as [Ha Hnd].
    apply elem_of_cons in Hn as [-> |Hn]; apply elem_of_cons in Hn' as [-> |Hn'].
    + done.
    + destruct Ha. rewrite Hid. apply list_elem_of_fmap. by exists n'.
    + destruct Ha. rewrite <- Hid. apply list_elem_of_fmap. by exists n.
    + by apply IH.
Qed.

(** ** Loops with the processed prefix in the invariant *)

Lemma pfold_prefix {A B} (P : list A -> B -> Prop) (f : B -> A -> py B) l pre b :
  (forall pre a b, P pre b -> a ∈ l -> exists b', f b a = Return b' /\ P (pre ++ [a]) b') ->
  P pre b -> exists b', pfold f b l = Return b' /\ P (pre ++ l) b'.
Proof.
  revert pre b. induction l as [|a l IH]; intros pre b Hstep Hb.
  - exists b. by rewrite app_nil_r.
  - destruct (Hstep pre a b Hb) as (b1 & Hf & Hb1); [left|].
    destruct (IH (pre ++ [a]) b1) as (b' & Hrun & Hb'); [|done|].
    { intros ???? Hin. apply Hstep; [done|by right]. }
    exists b'. simpl. rewrite Hf. simpl. rewrite <- app_assoc in Hb'. done.
Qed.

Lemma rfold_prefix {A B} (P : list A -> B -> Prop) (f : B -> A -> rand B) l pre b g :
  (forall pre a b g, P pre b -> a ∈ l ->
     exists b' g', f b a g = (Return b', g') /\ P (pre ++ [a]) b') ->
  P pre b -> exists b' g', rfold f b l g = (Return b', g') /\ P (pre ++ l) b'.
Proof.
  revert pre b g. induction l as [|a l IH]; intros pre b g Hstep Hb.
  - exists b, g. by rewrite app_nil_r.
  - destruct (Hstep pre a b g Hb) as (b1 & g1 & Hf & Hb1); [left|].
    destruct (IH (pre ++ [a]) b1 g1) as (b' & g' & Hrun & Hb'); [|done|].
    { intros ????? Hin. apply Hstep; [done|by right]. }
    exists b', g'. simpl. unfold rbind. rewrite Hf.
    rewrite <- app_assoc in Hb'. done.
Qed.

(** ** Edge counts of the smart layout *)

Lemma degree_cons e es k :
  degree (e :: es) k
  = (if decide (edge_source e = k) then 1 else 0)
    + (if decide (edge_target e = k) then 1 else 0) + degree es k.
Proof.
  unfold degree. rewrite !filter_cons.
  destruct (decide (edge_source e = k)), (decide (edge_target e = k)); simpl; lia.
Qed.

Lemma zero_counts_lookup l (m : gmap string nat) k :
  foldl (fun m n => <[node_id n := 0]> m) m l !! k
  = if decide (k ∈ ids l) then Some 0 else m !! k.
Proof.
  revert m. induction l as [|n l IH]; intros m.
  - simpl. destruct (decide (k ∈ ids [])) as [Hin|]; [by apply elem_of_nil in Hin|done].
  - cbn [foldl]. rewrite IH. unfold ids. rewrite fmap_cons.
    destruct (decide (k ∈ node_id <$> l)) as [Hin|Hin].
    + rewrite decide_True; [done|by right].
    + destruct (decide (node_id n = k)) as [-> |Hne].
      * rewrite lookup_insert_eq. rewrite decide_True; [done|left].
      * rewrite lookup_insert_ne by done. rewrite decide_False; [done|].
        intros [?|?]%elem_of_cons; congruence.
Qed.

Section smart.
Context `{PyLib}.

Lemma count_endpoint_spec (ec : gmap string nat) k c :
  ec !! k = Some c -> count_endpoint ec k = Return (<[k := c + 1]> ec).
Proof. intros Hk. unfold count_endpoint. by rewrite Hk. Qed.

Lemma edge_count_fold (known : list string) es (ec : gmap string nat) (a : string -> nat) :
  (forall k, k ∈ known -> ec !! k = Some (a k)) ->
  (forall e, e ∈ es -> edge_source e ∈ known /\ edge_target e ∈ known) ->
  exists ec',
    pfold (fun edge_count e =>
             edge_count ← count_endpoint edge_count (edge_source e);
             count_endpoint edge_count (edge_target e)) ec es = Return ec' /\
    forall k, k ∈ known -> ec' !! k = Some (a k + degree es k).
Proof.
  revert ec a. induction es as [|e es IH]; intros ec a Hec Hes.
  - exists ec. split; [done|]. intros k Hk. rewrite degree_nil, Nat.add_0_r. auto.
  - destruct (Hes e) as [Hs Ht]; [left|].
    pose (a' := fun k => a k + (if decide (edge_source e = k) then 1 else 0)
                         + (if decide (edge_target e = k) then 1 else 0)).
    destruct (IH (<[edge_target e :=
                     a (edge_target e)
                     + (if decide (edge_source e = edge_target e) then 1 else 0) + 1]>
                  (<[edge_source e := a (edge_source e) + 1]> ec)) a')
      as (ec' & Hrun & Hec').
    { intros k Hk. unfold a'.
      destruct (decide (edge_target e = k)) as [-> |Hnt].
      - by rewrite lookup_insert_eq.
      - rewrite lookup_insert_ne by done.
        destruct (decide (edge_source e = k)) as [-> |Hns].
        + rewrite lookup_insert_eq. f_equal. lia.
        + rewrite lookup_insert_ne by done. rewrite (Hec k Hk). f_equal. lia. }
    { intros e' He'. apply Hes. by right. }
    exists ec'. split.
    + simpl. rewrite (count_endpoint_spec ec _ (a (edge_source e))) by auto. simpl.
      rewrite (count_endpoint_spec _ _
                 (a (edge_target e)
                  + (if decide (edge_source e = edge_target e) then 1 else 0))).
      * done.
      * destruct (decide (edge_source e = edge_target e)) as [Heq|Hne].
        -- rewrite <- Heq, lookup_insert_eq. done.
        -- rewrite lookup_insert_ne by done. rewrite (Hec _ Ht). f_equal. lia.
    + intros k Hk. rewrite (Hec' k Hk), degree_cons. unfold a'. f_equal. lia.
Qed.

Lemma smart_edge_count_spec node_list edges :
  referential_integrity (Snapshot node_list edges) ->
  exists ec, smart_edge_count node_list edges = Return ec /\
             forall k, k ∈ ids node_list -> ec !! k = Some (degree edges k).
Proof.
  intros Hri. unfold smart_edge_count.
  destruct (edge_count_fold (ids node_list) edges
              (foldl (fun m n => <[node_id n := 0]> m) ∅ node_list) (fun _ => 0))
    as (ec & Hrun & Hec).
  - intros k Hk. rewrite zero_counts_lookup. by rewrite decide_True.
  - intros e He. apply (Hri e He).
  - exists ec. split; [done|]. intros k Hk. by rewrite (Hec k Hk).
Qed.

(** ** Groups *)

Lemma subnet_of_spec n :
  subnet_of n
  = if decide (groupable n) then
      match py_int (third_octet_text n) with
      | Some k => Return (Some k)
      | None => Raise (ValueError ("invalid literal for int() with base 10: "
                                   +:+ third_octet_text n))
      end
    else Return None.
Proof.
  unfold subnet_of, third_octet_text. destruct (decide (groupable n)) as [Hg|Hg].
  - destruct (groupable_ip n Hg) as (ip & Hip & Hne & Hdot).
    unfold groupable in Hg. rewrite Hip in *. simpl in *. rewrite Hne, Hdot. simpl.
    rewrite Hg. simpl. by destruct (py_int _).
  - unfold groupable in Hg. destruct (node_ip n) as [ip|]; simpl in *; [|done].
    destruct (negb (is_empty ip) && contains dot ip); [|done].
    destruct (length (split_on dot ip) =? 4) eqn:E; [|done].
    apply Nat.eqb_eq in E. done.
Qed.

Lemma elem_of_odict_set {K V} `{EqDecision K} (k k' : K) (v v' : V) d :
  (k', v') ∈ odict_set k v d ->
  (k' = k /\ v' = v) \/ (k' <> k /\ (k', v') ∈ d) \/ (k', v') ∈ d.
Proof.
  induction d as [|[k1 v1] d IH].
  - intros Hin. apply list_elem_of_singleton in Hin. injection Hin as -> ->. auto.
  - rewrite odict_set_cons. destruct (decide (k1 = k)) as [-> |Hne].
    + intros [Heq|Hin]%elem_of_cons.
      * injection Heq as -> ->. auto.
      * right. right. by right.
    + intros [Heq|Hin]%elem_of_cons.
      * injection Heq as -> ->. right. right. left.
      * destruct (IH Hin) as [?|[[? ?]|?]]; auto.
        -- right. left. split; [done|by right].
        -- right. right. by right.
Qed.

Lemma odict_set_other {K V} `{EqDecision K} (k k' : K) (v v' : V) d :
  k' <> k -> (k', v') ∈ d -> (k', v') ∈ odict_set k v d.
Proof.
  intros Hne. induction d as [|[k1 v1] d IH]; intros Hin.
  - by apply elem_of_nil in Hin.
  - rewrite odict_set_cons. destruct (decide (k1 = k)) as [-> |Hne1].
    + apply elem_of_cons in Hin as [Heq|Hin]; [congruence|by right].
    + apply elem_of_cons in Hin as [Heq|Hin]; [rewrite Heq; left|right; auto].
Qed.

Lemma odict_set_self {K V} `{EqDecision K} (k : K) (v : V) d : (k, v) ∈ odict_set k v d.
Proof.
  apply odict_get_Some. rewrite odict_get_set. by rewrite decide_True.
Qed.

Lemma group_step_inv pre groups n :
  groups_inv pre groups -> ~ bad_octet n ->
  exists groups', group_step groups n = Return groups' /\ groups_inv (pre ++ [n]) groups'.
Proof.
  intros [Hkeys Hne Hmem Hcov] Hbad. unfold group_step. rewrite subnet_of_spec.
  destruct (decide (groupable n)) as [Hg|Hg].
  - destruct (py_int (third_octet_text n)) as [key|] eqn:Hint;
      [|destruct Hbad; by split].
    simpl. eexists. split; [done|]. unfold odict_append.
    set (old := default [] (odict_get key groups)).
    assert (forall n', n' ∈ old ->
              n' ∈ pre /\ groupable n' /\ py_int (third_octet_text n') = Some key) as Hold.
    { intros n' Hn'. unfold old in Hn'.
      destruct (odict_get key groups) as [ns|] eqn:Hget; simpl in Hn'.
      - apply (Hmem key ns); [by apply odict_get_Some|done].
      - by apply elem_of_nil in Hn'. }
    split.
    + by apply odict_set_NoDup.
    + intros key' ns Hin. apply elem_of_odict_set in Hin as [[-> ->]|[[_ Hin]|Hin]].
      * by destruct old.
      * by apply (Hne key').
      * by apply (Hne key').
    + intros key' ns n' Hin Hn'. rewrite elem_of_app, list_elem_of_singleton.
      apply elem_of_odict_set in Hin as [[-> ->]|[[_ Hin]|Hin]].
      * apply elem_of_app in Hn' as [Hn'|Hn'].
        -- destruct (Hold n' Hn') as (? & ? & ?). auto.
        -- apply list_elem_of_singleton in Hn' as ->. auto.
      * destruct (Hmem key' ns n' Hin Hn') as (? & ? & ?). auto.
      * destruct (Hmem key' ns n' Hin Hn') as (? & ? & ?). auto.
    + intros n' Hn' Hg'. apply elem_of_app in Hn' as [Hn'|Hn'].
      * destruct (Hcov n' Hn' Hg') as (key' & ns & Hin & Hns).
        destruct (decide (key' = key)) as [-> |Hk].
        -- exists key, (old ++ [n]). split; [apply odict_set_self|].
           apply elem_of_app. left. unfold old.
           by rewrite (odict_elem_get _ _ _ Hkeys Hin).
        -- exists key', ns. split; [by apply odict_set_other|done].
      * apply list_elem_of_singleton in Hn' as ->.
        exists key, (old ++ [n]). split; [apply odict_set_self|].
        apply elem_of_app. right. left.
  - simpl. exists groups. split; [done|]. split; try done.
    + intros key ns n' Hin Hn'. destruct (Hmem key ns n' Hin Hn') as (? & ? & ?).
      rewrite elem_of_app. auto.
    + intros n' Hn' Hg'. apply elem_of_app in Hn' as [Hn'|Hn']; [by apply Hcov|].
      apply list_elem_of_singleton in Hn' as ->. done.
Qed.

Lemma smart_groups_ok node_list :
  (forall n, n ∈ node_list -> ~ bad_octet n) ->
  exists groups, smart_groups node_list = Return groups /\ groups_inv node_list groups.
Proof.
  intros Hok.
  destruct (pfold_prefix groups_inv group_step node_list [] []) as (groups & Hrun & Hinv).
  - intros pre n groups Hinv Hn. apply group_step_inv; [done|by apply Hok].
  - split.
    + constructor.
    + intros ?? Hin. by apply elem_of_nil in Hin.
    + intros ??? Hin. by apply elem_of_nil in Hin.
    + intros ? Hin. by apply elem_of_nil in Hin.
  - by exists groups.
Qed.

Lemma smart_groups_bad node_list n :
  n ∈ node_list -> bad_octet n -> exists e, smart_groups node_list = Raise e.
Proof.
  intros Hn [Hg Hint]. apply (pfold_raise group_step node_list n [] Hn).
  intros groups. unfold group_step. rewrite subnet_of_spec, decide_True, Hint by done.
  by eexists.
Qed.
End smart.

Lemma rbind_lift_return {A B} (m : py A) a (f : A -> rand B) g :
  m = Return a -> rbind (lift_py m) f g = f a g.
Proof. by intros ->. Qed.

Lemma rbind_lift_raise {A B} (m : py A) e (f : A -> rand B) g :
  m = Raise e -> rbind (lift_py m) f g = (Raise e, g).
Proof. by intros ->. Qed.

Lemma two_pi_over_pos n : n <> 0 -> two_pi_over n = Return (turn_over n).
Proof. intros Hn. unfold two_pi_over. by destruct n. Qed.

(** ** Placement loops of the smart layout *)

Section placement.
Context `{PyLib}.

Lemma smart_place_group_spec node_list edges groups ec
    (Hec : forall k, k ∈ ids node_list -> ec !! k = Some (degree edges k))
    (Hgroups : groups_inv node_list groups) gi key ns m0 g :
  groups !! gi = Some (key, ns) ->
  (forall k p, m0 !! k = Some p -> placed groups edges k p) ->
  exists m g',
    smart_place_group ec (turn_over (length groups)) m0 (gi, (key, ns)) g
    = (Return m, g') /\
    (forall n, n ∈ ns -> is_Some (m !! node_id n)) /\
    (forall k, is_Some (m0 !! k) -> is_Some (m !! k)) /\
    (forall k p, m !! k = Some p -> placed groups edges k p).
Proof.
  intros Hgi Hm0.
  assert ((key, ns) ∈ groups) as Hin by (by eapply list_elem_of_lookup_2).
  assert (ns <> []) as Hne by (by apply (gi_nonempty _ _ Hgroups key)).
  unfold smart_place_group. cbn [group_center].
  rewrite (rbind_lift_return _ _ _ _ (two_pi_over_pos (length ns) ltac:(by destruct ns))).
  set (step := smart_place ec _ _ _).
  destruct (rfold_prefix
              (fun pre m =>
                 (forall it, it ∈ pre -> is_Some (m !! node_id it.2)) /\
                 (forall k, is_Some (m0 !! k) -> is_Some (m !! k)) /\
                 (forall k p, m !! k = Some p -> placed groups edges k p))
              step (enumerate ns) [] m0 g) as (m & g' & Hrun & Hcov & Hmono & Hgood).
  - intros pre [si n] m g1 (Hcov & Hmono & Hgood) Hit.
    apply enumerate_lookup in Hit.
    assert (n ∈ ns) as Hn by (by eapply list_elem_of_lookup_2).
    destruct (gi_members _ _ Hgroups key ns n Hin Hn) as (Hnl & _ & _).
    assert (ec !! node_id n = Some (degree edges (node_id n))) as Hdeg.
    { apply Hec. apply list_elem_of_fmap. by exists n. }
    eexists _, _. split.
    { unfold step, smart_place, rbind, uniform, lift_py, rret. rewrite Hdeg. simpl.
      reflexivity. }
    split; [|split].
    + intros it [Hit'| ->%list_elem_of_singleton]%elem_of_app.
      * destruct (decide (node_id it.2 = node_id n)) as [-> |Hne'].
        -- rewrite lookup_insert_eq. by eexists.
        -- rewrite lookup_insert_ne by done. by apply Hcov.
      * simpl. rewrite lookup_insert_eq. by eexists.
    + intros k Hk. destruct (decide (node_id n = k)) as [-> |Hne'].
      * rewrite lookup_insert_eq. by eexists.
      * rewrite lookup_insert_ne by done. by apply Hmono.
    + intros k p. destruct (decide (node_id n = k)) as [<- |Hne'].
      * rewrite lookup_insert_eq. intros [= <-].
        exists gi, key, ns, si, n, g1. repeat split; done.
      * rewrite lookup_insert_ne by done. apply Hgood.
  - split; [|split; [done|done]]. intros it Hit. by apply elem_of_nil in Hit.
  - exists m, g'. split; [done|]. split; [|done].
    intros n Hn. apply list_elem_of_lookup in Hn as [si Hsi].
    apply (Hcov (si, n)). by apply enumerate_lookup.
Qed.

Lemma smart_place_groups_spec node_list edges groups ec
    (Hec : forall k, k ∈ ids node_list -> ec !! k = Some (degree edges k))
    (Hgroups : groups_inv node_list groups) g :
  exists m g',
    rfold (smart_place_group ec (turn_over (length groups))) ∅ (enumerate groups) g
    = (Return m, g') /\
    (forall key ns n, (key, ns) ∈ groups -> n ∈ ns -> is_Some (m !! node_id n)) /\
    (forall k p, m !! k = Some p -> placed groups edges k p).
Proof.
  destruct (rfold_prefix
              (fun pre m =>
                 (forall it n, it ∈ pre -> n ∈ it.2.2 -> is_Some (m !! node_id n)) /\
                 (forall k p, m !! k = Some p -> placed groups edges k p))
              (smart_place_group ec (turn_over (length groups))) (enumerate groups) [] ∅ g)
    as (m & g' & Hrun & Hcov & Hgood).
  - intros pre [gi [key ns]] m g1 [Hcov Hgood] Hit. apply enumerate_lookup in Hit.
    destruct (smart_place_group_spec node_list edges groups ec Hec Hgroups
                gi key ns m g1 Hit Hgood)
      as (m' & g1' & Hrun & Hcov' & Hmono & Hgood').
    exists m', g1'. split; [done|]. split; [|done].
    intros it n [Hit'| ->%list_elem_of_singleton]%elem_of_app Hn.
    + apply Hmono. by apply (Hcov it).
    + by apply Hcov'.
  - split.
    + intros it n Hit. by apply elem_of_nil in Hit.
    + intros k p. by rewrite lookup_empty.
  - exists m, g'. split; [done|]. split; [|done].
    intros key ns n Hin Hn. apply list_elem_of_lookup in Hin as [gi Hgi].
    apply (Hcov (gi, (key, ns))); [|done]. by apply enumerate_lookup.
Qed.

Lemma ungrouped_spec (node_list : list node) (m1 : gmap string pos) g :
  exists m g',
    rfold (random_place (-5000) 5000) m1
          (filter (fun n => m1 !! node_id n = None) node_list) g = (Return m, g') /\
    (forall n, n ∈ node_list -> is_Some (m !! node_id n)) /\
    (forall k p, m !! k = Some p ->
       m1 !! k = Some p \/ (m1 !! k = None /\ exists j, p = ungrouped_pos_of j)).
Proof.
  set (ungrouped := filter (fun n => m1 !! node_id n = None) node_list).
  destruct (rfold_prefix
              (fun pre m =>
                 (forall n, n ∈ pre -> is_Some (m !! node_id n)) /\
                 (forall k, is_Some (m1 !! k) -> m !! k = m1 !! k) /\
                 (forall k p, m !! k = Some p ->
                    m1 !! k = Some p \/ (m1 !! k = None /\ exists j, p = ungrouped_pos_of j)))
              (random_place (-5000) 5000) ungrouped [] m1 g)
    as (m & g' & Hrun & Hcov & Hkeep & Hgood).
  - intros pre n m g1 (Hcov & Hkeep & Hgood) Hn.
    apply list_elem_of_filter in Hn as [Hnone Hn].
    eexists _, _. split; [reflexivity|]. split; [|split].
    + intros n' [Hn'| ->%list_elem_of_singleton]%elem_of_app.
      * destruct (decide (node_id n = node_id n')) as [-> |Hne].
        -- rewrite lookup_insert_eq. by eexists.
        -- rewrite lookup_insert_ne by done. by apply Hcov.
      * rewrite lookup_insert_eq. by eexists.
    + intros k Hk. rewrite lookup_insert_ne; [by apply Hkeep|].
      intros <-. rewrite Hnone in Hk. by destruct Hk.
    + intros k p. destruct (decide (node_id n = k)) as [<- |Hne].
      * rewrite lookup_insert_eq. intros [= <-]. right. split; [done|]. by exists g1.
      * rewrite lookup_insert_ne by done. apply Hgood.
  - split; [|split].
    + intros n Hn. by apply elem_of_nil in Hn.
    + done.
    + intros k p Hk. by left.
  - exists m, g'. split; [done|]. split; [|done].
    intros n Hn. destruct (m1 !! node_id n) as [p|] eqn:Hm1.
    + rewrite Hkeep by (by eexists). by eexists.
    + apply Hcov. by apply list_elem_of_filter.
Qed.
End placement.

(** ** The smart layout as a whole, and the label of a new target *)

Section smart_layout_properties.
Context `{PyLib}.

Lemma smart_layout_body_fails node_list edges g :
  smart_fails node_list -> exists e, smart_layout_body node_list edges g = (Raise e, g).
Proof.
  intros Hfail. unfold smart_layout_body.
  destruct (smart_edge_count node_list edges) as [e|ec] eqn:Hcount.
  { exists e. by rewrite (rbind_lift_raise _ e). }
  rewrite (rbind_lift_return _ ec) by done.
  destruct Hfail as [Hnone|(n & Hn & Hbad)].
  - destruct (smart_groups_ok node_list) as (groups & Hrun & Hinv).
    { intros n Hn [Hg _]. by apply (Hnone n). }
    rewrite (rbind_lift_return _ groups) by done.
    assert (groups = []) as ->.
    { destruct groups as [|[key ns] groups]; [done|].
      pose proof (gi_nonempty _ _ Hinv key ns ltac:(left)) as Hne.
      destruct ns as [|n ns]; [done|].
      destruct (gi_members _ _ Hinv key (n :: ns) n) as (Hn & Hg & _); [left..|].
      by destruct (Hnone n). }
    exists ZeroDivisionError. by rewrite (rbind_lift_raise _ ZeroDivisionError).
  - destruct (smart_groups_bad node_list n Hn Hbad) as [e He].
    exists e. by rewrite (rbind_lift_raise _ e).
Qed.

Lemma smart_layout_body_ok node_list edges g :
  referential_integrity (Snapshot node_list edges) ->
  ~ smart_fails node_list ->
  exists groups m g',
    smart_groups node_list = Return groups /\ groups_inv node_list groups /\
    smart_layout_body node_list edges g = (Return m, g') /\
    forall n, n ∈ node_list ->
      exists p, m !! node_id n = Some p /\
        (placed groups edges (node_id n) p
         \/ ((exists j, p = ungrouped_pos_of j) /\
             forall key ns n', (key, ns) ∈ groups -> n' ∈ ns -> node_id n' <> node_id n)).
Proof.
  intros Hri Hok.
  destruct (smart_edge_count_spec node_list edges Hri) as (ec & Hcount & Hec).
  destruct (smart_groups_ok node_list) as (groups & Hrun & Hinv).
  { intros n Hn Hbad. apply Hok. right. by exists n. }
  assert (groups <> []) as Hne.
  { intros ->. apply Hok. left. intros n Hn Hg.
    destruct (gi_cover _ _ Hinv n Hn Hg) as (key & ns & Hin & _).
    by apply elem_of_nil in Hin. }
  destruct (smart_place_groups_spec node_list edges groups ec Hec Hinv g)
    as (m1 & g1 & Hplace & Hcov1 & Hgood1).
  destruct (ungrouped_spec node_list m1 g1) as (m & g' & Hrest & Hcov & Hgood).
  exists groups, m, g'. split; [done|]. split; [done|]. split.
  - unfold smart_layout_body.
    rewrite (rbind_lift_return _ ec) by done.
    rewrite (rbind_lift_return _ groups) by done.
    rewrite (rbind_lift_return _ _ _ _ (two_pi_over_pos (length groups)
                                          ltac:(by destruct groups))).
    unfold rbind at 1. rewrite Hplace. done.
  - intros n Hn. destruct (Hcov n Hn) as [p Hp]. exists p. split; [done|].
    destruct (Hgood _ _ Hp) as [Hm1|[Hm1 Hj]].
    + left. by apply Hgood1.
    + right. split; [done|]. intros key ns n' Hin Hn' Hid.
      destruct (Hcov1 key ns n' Hin Hn') as [p' Hp']. congruence.
Qed.

Lemma missing_ips_error reader node_list edges st :
  import_graph reader = Return (node_list, edges) ->
  choose_layout "smart" node_list edges (random_state st)
  = (Return None, random_state st) ->
  upload_file (Some reader) "smart" st
  = (Response 500 (JError (ErrMsg missing_ips)), st).
Proof.
  intros Himp Hlay. unfold upload_file, process_csv. rewrite Himp, Hlay. by destruct st.
Qed.

(** C5, amended. For a non-empty node list with distinct ids whose edges
    end at its nodes, the smart layout comes back empty -- and the import
    then returns the "All nodes must have IP addresses" error, which
    [/upload] sends with status 500 -- exactly when no node has an ['ip']
    that splits on ['.'] into four parts, or some node has one whose third
    part [int] rejects. Otherwise every node gets a position. The nodes
    with a four-part ip are grouped by the integer value of the third part,
    in order of first appearance; the [si]-th node of the [gi]-th group is
    put at the group's centre (radius 4000, angle [gi * 2 pi / groups]) plus
    a point of the circle of radius 600 (angle [si * 2 pi / group size])
    plus one draw of [uniform(-300, 300)] on x and on y, with
    [z = degree * 50]. Every other node gets three draws of
    [uniform(-5000, 5000)]. *)
Theorem C5_smart_layout_amended (node_list : list node) (edges : list edge) (g : nat) :
  node_list <> [] -> NoDup (ids node_list) ->
  referential_integrity (Snapshot node_list edges) ->
  (smart_fails node_list ->
     calculate_smart_layout node_list edges g = (∅, g) /\
     choose_layout "smart" node_list edges g = (Return None, g) /\
     forall reader st,
       import_graph reader = Return (node_list, edges) -> random_state st = g ->
       upload_file (Some reader) "smart" st
       = (Response 500 (JError (ErrMsg missing_ips)), st)) /\
  (~ smart_fails node_list ->
     exists groups node_positions g',
       smart_groups node_list = Return groups /\
       NoDup groups.*1 /\
       (forall key ns n, (key, ns) ∈ groups -> n ∈ ns ->
          n ∈ node_list /\ groupable n /\ py_int (third_octet_text n) = Some key) /\
       calculate_smart_layout node_list edges g = (node_positions, g') /\
       choose_layout "smart" node_list edges g = (Return (Some node_positions), g') /\
       forall n, n ∈ node_list ->
         (groupable n ->
            exists gi key ns si j,
              groups !! gi = Some (key, ns) /\ ns !! si = Some n /\
              node_positions !! node_id n
              = Some (smart_pos_of (length groups) gi (length ns) si j
                                   (degree edges (node_id n)))) /\
         (~ groupable n ->
            exists j, node_positions !! node_id n = Some (ungrouped_pos_of j))).
Proof.
  intros Hne Hnd Hri. split.
  - intros Hfail. destruct (smart_layout_body_fails node_list edges g Hfail) as [e He].
    assert (calculate_smart_layout node_list edges g = (∅, g)) as Hcalc.
    { unfold calculate_smart_layout. by rewrite He. }
    assert (choose_layout "smart" node_list edges g = (Return None, g)) as Hchoose.
    { unfold choose_layout. simpl. by rewrite Hcalc. }
    split; [done|]. split; [done|].
    intros reader st Himp <-. by apply (missing_ips_error _ node_list edges).
  - intros Hok.
    destruct (smart_layout_body_ok node_list edges g Hri Hok)
      as (groups & m & g' & Hgroups & Hinv & Hbody & Hpos).
    assert (calculate_smart_layout node_list edges g = (m, g')) as Hcalc.
    { unfold calculate_smart_layout. by rewrite Hbody. }
    exists groups, m, g'. split; [done|]. split; [apply (gi_keys _ _ Hinv)|].
    split; [apply (gi_members _ _ Hinv)|]. split; [done|]. split.
    + unfold choose_layout. simpl. rewrite Hcalc.
      destruct (size m =? 0) eqn:Hsize; [|done].
      apply Nat.eqb_eq, map_size_empty_inv in Hsize. subst m.
      destruct node_list as [|n l]; [done|].
      destruct (Hpos n) as (p & Hp & _); [left|]. by rewrite lookup_empty in Hp.
    + intros n Hn. destruct (Hpos n Hn) as (p & Hp & Hform). split.
      * intros Hg. destruct Hform as [Hpl|[_ Hno]].
        -- destruct Hpl as (gi & key & ns & si & n' & j & Hgi & Hsi & Hid & ->).
           assert (n' = n) as ->.
           { apply (NoDup_ids_inj node_list); [done| |done|done].
             apply (gi_members _ _ Hinv key ns); [by eapply list_elem_of_lookup_2|].
             by eapply list_elem_of_lookup_2. }
           by exists gi, key, ns, si, j.
        -- destruct (gi_cover _ _ Hinv n Hn Hg) as (key & ns & Hin & Hns).
           by destruct (Hno key ns n Hin Hns).
      * intros Hg. destruct Hform as [Hpl|[[j ->] _]]; [|by exists j].
        destruct Hpl as (gi & key & ns & si & n' & j & Hgi & Hsi & Hid & ->).
        destruct Hg. assert (n' = n) as <-; [|].
        { apply (NoDup_ids_inj node_list); [done| |done|done].
          apply (gi_members _ _ Hinv key ns); [by eapply list_elem_of_lookup_2|].
          by eapply list_elem_of_lookup_2. }
        apply (gi_members _ _ Hinv key ns); [by eapply list_elem_of_lookup_2|].
        by eapply list_elem_of_lookup_2.
Qed.

(** C10, amended. A row that passes the guard and parses, whose stripped
    computer name is not yet a node, creates the node of that name, and
    the node is the last of the dictionary after the row. Its label is
    ["computer (source_ip)"] when the row's source IP is a key of the
    resolver mapping and the bare computer name otherwise; its size is 10
    and it has no colour and no position. It has no ['ip'] when the
    computer name differs from the row's source id (the resolved name of
    the source IP, or the IP itself without one). When the two are equal
    the node is created as the source of the row, before the target is
    looked at, and its ['ip'] is the row's source IP. *)
Theorem C10_target_label_amended (m : gmap string string) (b : build) (r : row)
    (event_time c ip : string) (t : Q) :
  EventTime r = Some event_time -> Computer r = Some c -> IpAddress r = Some ip ->
  is_empty event_time = false -> is_empty (strip_domain c) = false ->
  is_empty ip = false -> isoparse_timestamp event_time = Some t ->
  let computer := strip_domain c in
  let label := match m !! ip with
               | Some _ => computer +:+ " (" +:+ ip +:+ ")"
               | None => computer
               end in
  computer ∉ ids (b_nodes b) ->
  exists b',
    process_row m b r = Return b' /\
    (computer <> default ip (m !! ip) ->
       last (b_nodes b') = Some (Node computer label 10 None None None)) /\
    (computer = default ip (m !! ip) ->
       last (b_nodes b') = Some (Node computer label 10 (Some ip) None None)).
Proof.
  intros Het Hc Hip Hne1 Hne2 Hne3 Hparse computer label Hnew.
  unfold process_row. rewrite Hc, Het, Hip. simpl.
  rewrite Hne1, Hne2, Hne3, Hparse. simpl. fold computer. eexists. split; [done|].
  unfold add_event.
  assert (forall nodes s l,
            ids nodes = ids (b_nodes b) -> s <> computer ->
            has_node computer (add_node (source_node s l ip) nodes) = false) as Hfresh.
  { intros nodes s l Hids Hs. apply not_true_iff_false. rewrite has_node_true.
    rewrite elem_of_ids_add_node, Hids. simpl. intros [?|?]; [done|congruence]. }
  assert (forall nodes s l,
            ids nodes = ids (b_nodes b) -> s = computer ->
            add_node (target_node m computer ip) (add_node (source_node s l ip) nodes)
            = nodes ++ [source_node s l ip]) as Hself.
  { intros nodes s l Hids ->.
    assert (add_node (source_node computer l ip) nodes
            = nodes ++ [source_node computer l ip]) as ->.
    { unfold add_node. destruct (has_node _ nodes) eqn:E; [|done].
      apply has_node_true in E. simpl in E. by rewrite Hids in E. }
    unfold add_node. destruct (has_node _ _) eqn:E; [done|].
    apply not_true_iff_false in E. destruct E. apply has_node_true.
    unfold ids. rewrite fmap_app. apply elem_of_app. right. by left. }
  unfold label. destruct (m !! ip) as [h|] eqn:Hm; simpl in *.
  - split.
    + intros Hsrc. unfold add_node at 1. cbn [node_id target_node]. rewrite Hfresh.
      * rewrite last_snoc. unfold target_node. rewrite Hm. by rewrite decide_True.
      * apply ids_update_node, backfill_id.
      * congruence.
    + intros Heq. rewrite Hself; [|apply ids_update_node, backfill_id|done].
      rewrite last_snoc. unfold source_node. by rewrite <- Heq.
  - split.
    + intros Hsrc. unfold add_node at 1. cbn [node_id target_node]. rewrite Hfresh.
      * rewrite last_snoc. unfold target_node. rewrite Hm. rewrite decide_False; [done|].
        by intros [? ?].
      * done.
      * congruence.
    + intros Heq. rewrite Hself by done.
      rewrite last_snoc. unfold source_node. by rewrite <- Heq.
Qed.
End smart_layout_properties.

(** ** Circular and random layouts *)

Lemma enumerate_index {A} (l : list A) i j a :
  enumerate l !! i = Some (j, a) <-> j = i /\ l !! i = Some a.
Proof.
  unfold enumerate. rewrite list_lookup_imap. destruct (l !! i) as [b|]; simpl.
  - split; [by intros [= -> ->]|by intros [-> [= ->]]].
  - split; [done|by intros [_ ?]].
Qed.

Section fill_last.
Context {V : Type} (f : nat -> V).

(** In a dictionary filled by a loop the last write to a key wins. *)
Lemma fill_last kvs m i j n :
  kvs !! i = Some (j, n) ->
  (forall i' j' n', i < i' -> kvs !! i' = Some (j', n') -> node_id n' <> node_id n) ->
  foldl (fill_step f) m kvs !! node_id n = Some (f j).
Proof.
  revert m i. induction kvs as [|[j0 n0] kvs IH]; intros m i Hi Hlast; [done|].
  cbn [foldl]. destruct i as [|i].
  - injection Hi as -> ->. rewrite fill_other.
    + unfold fill_step. simpl. by rewrite lookup_insert_eq.
    + intros Hin. unfold ids in Hin.
      apply list_elem_of_fmap in Hin as (n' & Hid & Hn').
      apply list_elem_of_fmap in Hn' as ([j' n''] & -> & Hin).
      apply list_elem_of_lookup in Hin as [i' Hi'].
      by apply (Hlast (S i') j' n''); [lia|done|].
  - apply (IH _ i); [done|]. intros i' j' n' Hlt Hi'.
    apply (Hlast (S i') j' n'); [lia|done].
Qed.

Lemma fill_dom kvs m k :
  is_Some (foldl (fill_step f) m kvs !! k) <-> is_Some (m !! k) \/ k ∈ ids kvs.*2.
Proof.
  revert m. induction kvs as [|[j n] kvs IH]; intros m.
  - simpl. split; [by left|]. intros [?|Hin]; [done|]. by apply elem_of_nil in Hin.
  - cbn [foldl]. rewrite IH. unfold fill_step, ids. rewrite !fmap_cons. simpl.
    rewrite elem_of_cons. destruct (decide (node_id n = k)) as [<- |Hne].
    + rewrite lookup_insert_eq. split; [by right; left|]. intros _. left. by eexists.
    + rewrite lookup_insert_ne by done. split; [tauto|]. intros [?|[?|?]]; [tauto|congruence|tauto].
Qed.
End fill_last.

Lemma circular_layout_fill node_list :
  node_list <> [] ->
  calculate_circular_layout node_list
  = Return (foldl (fill_step (circular_pos 300 (turn_over (length node_list)))) ∅
                  (enumerate node_list)).
Proof.
  intros Hne. unfold calculate_circular_layout.
  rewrite two_pi_over_pos by (by destruct node_list). simpl. f_equal.
  apply foldl_ext. by intros m [j a].
Qed.

(** X1. The circular layout of an empty list divides by zero. Of a
    non-empty list it positions exactly the ids of the list, and the node at
    index [i] sits at [(300 cos(i * 2 pi / n), 300 sin(i * 2 pi / n), 0)];
    when an id occurs more than once the last occurrence decides. *)
Theorem circular_layout_positions (node_list : list node) :
  (node_list = [] -> calculate_circular_layout node_list = Raise ZeroDivisionError) /\
  (node_list <> [] ->
     exists node_positions,
       calculate_circular_layout node_list = Return node_positions /\
       (forall k, is_Some (node_positions !! k) <-> k ∈ ids node_list) /\
       forall i n, node_list !! i = Some n ->
         (forall j n', i < j -> node_list !! j = Some n' -> node_id n' <> node_id n) ->
         let angle := FMul (FInt (Z.of_nat i)) (turn_over (length node_list)) in
         node_positions !! node_id n
         = Some (Pos (Float (FMul (FInt 300) (FCos angle)))
                     (Float (FMul (FInt 300) (FSin angle)))
                     (Int 0))).
Proof.
  split; [by intros ->|]. intros Hne. eexists. split; [by apply circular_layout_fill|].
  split.
  - intros k. rewrite fill_dom, enumerate_snd, lookup_empty. split.
    + intros [[? [=]]|?]; done.
    + by right.
  - intros i n Hi Hlast angle.
    rewrite (fill_last _ _ _ i i n); [done| |].
    + by apply enumerate_index.
    + intros i' j' n' Hlt [-> Hi']%enumerate_index. by apply (Hlast i').
Qed.

Lemma random_place_run lo hi m n g :
  random_place lo hi m n g = (Return (<[node_id n := drawn_pos lo hi g]> m), g + 3).
Proof.
  unfold random_place, random_pos, rbind, uniform, rret, drawn_pos. simpl.
  by replace (g + 1) with (S g) by lia; replace (g + 2) with (S (S g)) by lia;
     replace (g + 3) with (S (S (S g))) by lia.
Qed.

(** A loop of [random_place] never raises, makes three draws per node, and
    leaves under each id the draws of its last occurrence. *)
Lemma random_fold_spec lo hi l m g :
  exists m',
    rfold (random_place lo hi) m l g = (Return m', g + 3 * length l) /\
    (forall k, is_Some (m' !! k) <-> is_Some (m !! k) \/ k ∈ ids l) /\
    (forall k, k ∉ ids l -> m' !! k = m !! k) /\
    forall i n, l !! i = Some n ->
      (forall j n', i < j -> l !! j = Some n' -> node_id n' <> node_id n) ->
      m' !! node_id n = Some (drawn_pos lo hi (g + 3 * i)).
Proof.
  revert m g. induction l as [|a l IH]; intros m g.
  - exists m. split; [|split; [|split]].
    + simpl. unfold rret. f_equal. lia.
    + intros k. split; [by left|]. intros [?|Hin]; [done|]. by apply elem_of_nil in Hin.
    + done.
    + done.
  - destruct (IH (<[node_id a := drawn_pos lo hi g]> m) (g + 3))
      as (m' & Hrun & Hdom & Hother & Hlast).
    exists m'. split; [|split; [|split]].
    + cbn [rfold]. unfold rbind. rewrite random_place_run, Hrun. f_equal.
      simpl. lia.
    + intros k. rewrite Hdom. unfold ids. rewrite fmap_cons, elem_of_cons.
      destruct (decide (node_id a = k)) as [<- |Hne].
      * rewrite lookup_insert_eq. split; [by right; left|]. intros _. left. by eexists.
      * rewrite lookup_insert_ne by done. split; [tauto|].
        intros [?|[?|?]]; [tauto|congruence|tauto].
    + intros k Hk. unfold ids in Hk. rewrite fmap_cons in Hk.
      apply not_elem_of_cons in Hk as [Hne Hk].
      rewrite Hother by done. by rewrite lookup_insert_ne.
    + intros [|i] n Hi Hl.
      * injection Hi as ->. rewrite Hother.
        -- rewrite lookup_insert_eq. do 2 f_equal. lia.
        -- intros Hin. unfold ids in Hin.
           apply list_elem_of_fmap in Hin as (n' & Hid & Hn').
           apply list_elem_of_lookup in Hn' as [j Hj].
           by apply (Hl (S j) n'); [lia|done|].
      * rewrite (Hlast i n Hi).
        -- do 2 f_equal. lia.
        -- intros j n' Hlt Hj. apply (Hl (S j) n'); [lia|done].
Qed.

(** X2. The random layout never raises. It calls [random.uniform] three
    times per node, each time with the range from -10000 to 10000,
    positions exactly the ids of the list, and the node at index [i] gets
    the draws [3 i], [3 i + 1] and [3 i + 2] of the call as its x, y and z;
    when an id occurs more than once the last occurrence decides. *)
Theorem random_layout_draws (node_list : list node) (g : nat) :
  exists node_positions,
    calculate_random_layout node_list g
    = (Return node_positions, g + 3 * length node_list) /\
    (forall k, is_Some (node_positions !! k) <-> k ∈ ids node_list) /\
    forall i n, node_list !! i = Some n ->
      (forall j n', i < j -> node_list !! j = Some n' -> node_id n' <> node_id n) ->
      node_positions !! node_id n
      = Some (Pos (Float (FUniform (-10000) 10000 (g + 3 * i)))
                  (Float (FUniform (-10000) 10000 (g + 3 * i + 1)))
                  (Float (FUniform (-10000) 10000 (g + 3 * i + 2)))).
Proof.
  destruct (random_fold_spec (-10000) 10000 node_list ∅ g)
    as (m & Hrun & Hdom & _ & Hlast).
  exists m. split; [done|]. split.
  - intros k. rewrite Hdom, lookup_empty. split; [|by right].
    intros [[? [=]]|?]; done.
  - intros i n Hi Hl. by rewrite (Hlast i n Hi Hl).
Qed.

(** ** What a layout reads of the nodes *)

Lemma same_id_ip_Forall2 l1 l2 :
  ids l1 = ids l2 -> node_ip <$> l1 = node_ip <$> l2 -> Forall2 same_id_ip l1 l2.
Proof.
  revert l2. induction l1 as [|a l1 IH]; intros [|b l2] Hid Hip; try done.
  unfold ids in *. rewrite !fmap_cons in *.
  injection Hid as Ha Hid. injection Hip as Hb Hip.
  constructor; [done|]. by apply IH.
Qed.

Lemma foldl_rel {A B C} (R : A -> B -> Prop) (F : C -> A -> C) (G : C -> B -> C)
    l1 l2 c :
  (forall c a b, R a b -> F c a = G c b) -> Forall2 R l1 l2 ->
  foldl F c l1 = foldl G c l2.
Proof.
  intros HFG Hl. revert c. induction Hl as [|a b l1 l2 Hab Hl IH]; intros c; [done|].
  simpl. by rewrite (HFG c a b Hab), IH.
Qed.

Lemma rfold_rel {A B C} (R : A -> B -> Prop) (F : C -> A -> rand C)
    (G : C -> B -> rand C) l1 l2 c g :
  (forall c g a b, R a b -> F c a g = G c b g) -> Forall2 R l1 l2 ->
  rfold F c l1 g = rfold G c l2 g.
Proof.
  intros HFG Hl. revert c g. induction Hl as [|a b l1 l2 Hab Hl IH]; intros c g; [done|].
  cbn [rfold]. unfold rbind. rewrite (HFG c g a b Hab).
  destruct (G c b g) as [[e|c'] g']; [done|]. apply IH.
Qed.

Lemma pfold_rel {A B C D} (R : A -> B -> Prop) (S : C -> D -> Prop)
    (F : C -> A -> py C) (G : D -> B -> py D) l1 l2 c d :
  (forall c d a b, S c d -> R a b -> py_rel S (F c a) (G d b)) ->
  Forall2 R l1 l2 -> S c d -> py_rel S (pfold F c l1) (pfold G d l2).
Proof.
  intros HFG Hl. revert c d. induction Hl as [|a b l1 l2 Hab Hl IH]; intros c d Hcd; [done|].
  cbn [pfold]. specialize (HFG c d a b Hcd Hab).
  destruct (F c a) as [e|c'], (G d b) as [e'|d']; simpl in *; try done.
  by apply IH.
Qed.

Lemma enumerate_rel {A B} (R : A -> B -> Prop) l1 l2 :
  Forall2 R l1 l2 ->
  Forall2 (fun x y => x.1 = y.1 /\ R x.2 y.2) (enumerate l1) (enumerate l2).
Proof.
  intros Hl. apply Forall2_lookup. intros i. unfold enumerate.
  rewrite !list_lookup_imap.
  pose proof (proj1 (Forall2_lookup _ _ _) Hl i) as Hi.
  destruct Hi; simpl; constructor. done.
Qed.

Lemma filter_rel {A B} (R : A -> B -> Prop) (P : A -> Prop) (Q : B -> Prop)
    `{forall a, Decision (P a)} `{forall b, Decision (Q b)} l1 l2 :
  (forall a b, R a b -> (P a <-> Q b)) -> Forall2 R l1 l2 ->
  Forall2 R (filter P l1) (filter Q l2).
Proof.
  intros HPQ Hl. induction Hl as [|a b l1 l2 Hab Hl IH]; [constructor|].
  rewrite !filter_cons. specialize (HPQ a b Hab).
  destruct (decide (P a)), (decide (Q b)); try tauto. by constructor.
Qed.

(** Two dictionaries of groups with the same keys and alike members. *)
Lemma odict_get_rel {K A B} `{EqDecision K} (R : A -> B -> Prop) (k : K)
    (d1 : list (K * A)) (d2 : list (K * B)) :
  Forall2 (fun x y => x.1 = y.1 /\ R x.2 y.2) d1 d2 ->
  option_Forall2 R (odict_get k d1) (odict_get k d2).
Proof.
  intros Hd. induction Hd as [|[k1 a] [k2 b] d1 d2 [Hk Hab] Hd IH]; [constructor|].
  simpl in Hk, Hab. subst k2. rewrite !odict_get_cons.
  destruct (decide (k1 = k)); [by constructor|done].
Qed.

Lemma odict_set_rel {K A B} `{EqDecision K} (R : A -> B -> Prop) (k : K) a b
    (d1 : list (K * A)) (d2 : list (K * B)) :
  R a b -> Forall2 (fun x y => x.1 = y.1 /\ R x.2 y.2) d1 d2 ->
  Forall2 (fun x y => x.1 = y.1 /\ R x.2 y.2) (odict_set k a d1) (odict_set k b d2).
Proof.
  intros Hab Hd. induction Hd as [|[k1 a1] [k2 b1] d1 d2 [Hk Hab1] Hd IH].
  - by repeat constructor.
  - simpl in Hk, Hab1. subst k2. rewrite !odict_set_cons.
    destruct (decide (k1 = k)); by repeat constructor.
Qed.

Lemma odict_append_rel {K A B} `{EqDecision K} (R : A -> B -> Prop) (k : K) a b
    (d1 : list (K * list A)) (d2 : list (K * list B)) :
  R a b -> Forall2 (fun x y => x.1 = y.1 /\ Forall2 R x.2 y.2) d1 d2 ->
  Forall2 (fun x y => x.1 = y.1 /\ Forall2 R x.2 y.2)
          (odict_append k a d1) (odict_append k b d2).
Proof.
  intros Hab Hd. unfold odict_append. apply (odict_set_rel (Forall2 R)); [|done].
  apply Forall2_app; [|by repeat constructor].
  destruct (odict_get_rel (Forall2 R) k d1 d2 Hd); simpl; [done|constructor].
Qed.

Lemma rbind_ext {A B} (m : rand A) (f1 f2 : A -> rand B) g :
  (forall a g', f1 a g' = f2 a g') -> rbind m f1 g = rbind m f2 g.
Proof. intros Hf. unfold rbind. by destruct (m g) as [[e|a] g']. Qed.

Lemma rbind_cong {A B} (m1 m2 : rand A) (f1 f2 : A -> rand B) g :
  m1 g = m2 g -> (forall a g', f1 a g' = f2 a g') -> rbind m1 f1 g = rbind m2 f2 g.
Proof. intros Hm Hf. unfold rbind. rewrite Hm. by destruct (m2 g) as [[e|a] g']. Qed.

Lemma rbind_lift_rel {A B C} (S : A -> B -> Prop) (x : py A) (y : py B)
    (f1 : A -> rand C) (f2 : B -> rand C) g :
  py_rel S x y -> (forall a b, S a b -> f1 a g = f2 b g) ->
  rbind (lift_py x) f1 g = rbind (lift_py y) f2 g.
Proof.
  intros Hxy Hf. unfold rbind, lift_py.
  destruct x as [e|a], y as [e'|b]; simpl in Hxy; try done; [by subst|by apply Hf].
Qed.

Section layout_inputs.
Context `{PyLib}.

Lemma subnet_of_same n1 n2 : same_id_ip n1 n2 -> subnet_of n1 = subnet_of n2.
Proof. intros [_ Hip]. unfold subnet_of. by rewrite Hip. Qed.

Lemma smart_groups_rel l1 l2 :
  Forall2 same_id_ip l1 l2 ->
  py_rel (Forall2 (fun x y => x.1 = y.1 /\ Forall2 same_id_ip x.2 y.2))
         (smart_groups l1) (smart_groups l2).
Proof.
  intros Hl. unfold smart_groups. apply (pfold_rel same_id_ip); [|done|constructor].
  intros gs1 gs2 n1 n2 Hgs Hn. rewrite (subnet_of_same n1 n2 Hn).
  destruct (subnet_of n2) as [e|[k|]]; simpl; [done| |done].
  by apply odict_append_rel.
Qed.

Lemma smart_place_group_rel ec ai m g (x y : nat * (Z * list node)) :
  x.1 = y.1 /\ (x.2.1 = y.2.1 /\ Forall2 same_id_ip x.2.2 y.2.2) ->
  smart_place_group ec ai m x g = smart_place_group ec ai m y g.
Proof.
  destruct x as [i [k ns1]], y as [j [k' ns2]]. simpl. intros (-> & -> & Hns).
  unfold smart_place_group. cbn [group_center].
  rewrite (Forall2_length _ _ _ Hns). unfold rbind, lift_py.
  destruct (two_pi_over (length ns2)) as [e|inc]; [done|].
  apply (rfold_rel (fun x y => x.1 = y.1 /\ same_id_ip x.2 y.2)); [|by apply enumerate_rel].
  intros c g0 [si n1] [si' n2] [Hsi [Hid _]]. simpl in Hsi, Hid. subst si'.
  unfold smart_place. by rewrite Hid.
Qed.

Lemma smart_layout_body_same l1 l2 edges g :
  Forall2 same_id_ip l1 l2 ->
  smart_layout_body l1 edges g = smart_layout_body l2 edges g.
Proof.
  intros Hl. unfold smart_layout_body, smart_edge_count.
  rewrite (foldl_rel same_id_ip (fun m n => <[node_id n := 0]> m)
             (fun m n => <[node_id n := 0]> m) l1 l2 ∅
             ltac:(by intros m a b [-> _]) Hl).
  apply rbind_ext. intros ec g1.
  apply (rbind_lift_rel (Forall2 (fun x y => x.1 = y.1 /\ Forall2 same_id_ip x.2 y.2)));
    [by apply smart_groups_rel|].
  intros gs1 gs2 Hgs. cbv zeta. rewrite (Forall2_length _ _ _ Hgs).
  apply rbind_ext. intros ai g2.
  apply rbind_cong.
  - apply (rfold_rel (fun x y => x.1 = y.1 /\
                                 (x.2.1 = y.2.1 /\ Forall2 same_id_ip x.2.2 y.2.2)));
      [|by apply (enumerate_rel
                   (fun x y : Z * list node => x.1 = y.1 /\ Forall2 same_id_ip x.2 y.2))].
    intros c g0 x y Hxy. by apply smart_place_group_rel.
  - intros m g3. apply (rfold_rel same_id_ip).
    + intros c g0 a b [Hid _]. unfold random_place, rbind.
      destruct (random_pos (-5000) 5000 g0) as [[e|p] g4]; [done|].
      unfold rret. by rewrite Hid.
    + apply filter_rel; [|done]. intros a b [Hid _]. by rewrite Hid.
Qed.

(** Node lists that agree on ids and ['ip'] are laid out alike. *)
Lemma choose_layout_same (layout : string) (l1 l2 : list node)
    (edges : list edge) (g : nat) :
  ids l1 = ids l2 -> node_ip <$> l1 = node_ip <$> l2 ->
  choose_layout layout l1 edges g = choose_layout layout l2 edges g.
Proof.
  intros Hid Hip. pose proof (same_id_ip_Forall2 l1 l2 Hid Hip) as Hl.
  assert (length l1 = length l2) as Hlen by (by eapply Forall2_length).
  assert (calculate_random_layout l1 g = calculate_random_layout l2 g) as Hrandom.
  { apply (rfold_rel same_id_ip); [|done].
    intros c g0 a b [Ha _]. unfold random_place, rbind.
    destruct (random_pos (-10000) 10000 g0) as [[e|p] g1]; [done|].
    unfold rret. by rewrite Ha. }
  unfold choose_layout. repeat case_decide.
  - unfold rret. do 3 f_equal. unfold calculate_grid_layout. rewrite Hlen.
    apply (foldl_rel (fun x y => x.1 = y.1 /\ same_id_ip x.2 y.2)); [|by apply enumerate_rel].
    intros c [i a] [j b] [Hi [Ha _]]. simpl in Hi, Ha. by subst; rewrite Ha.
  - unfold rbind, lift_py. unfold calculate_circular_layout. rewrite Hlen.
    destruct (two_pi_over (length l2)) as [e|inc]; [done|]. simpl.
    unfold rret. do 3 f_equal.
    apply (foldl_rel (fun x y => x.1 = y.1 /\ same_id_ip x.2 y.2)); [|by apply enumerate_rel].
    intros c [i a] [j b] [Hi [Ha _]]. simpl in Hi, Ha. by subst; rewrite Ha.
  - unfold rbind. by rewrite Hrandom.
  - unfold calculate_smart_layout. by rewrite (smart_layout_body_same l1 l2 edges g Hl).
  - unfold rbind. by rewrite Hrandom.
Qed.

(** X3. A layout reads of a node only its id and its ['ip']: two node
    lists that agree on these get the same positions from every layout,
    with the same draws of the random generator. Labels, sizes, colours and
    the positions the nodes already have play no part. *)
Theorem layout_reads_id_and_ip (layout : string) (l1 l2 : list node)
    (edges : list edge) (g : nat) :
  ids l1 = ids l2 -> node_ip <$> l1 = node_ip <$> l2 ->
  choose_layout layout l1 edges g = choose_layout layout l2 edges g.
Proof. apply choose_layout_same. Qed.

End layout_inputs.

(** ** What a layout returns *)

Lemma grid_layout_fill node_list :
  calculate_grid_layout node_list
  = foldl (fill_step (grid_pos (ceil_sqrt (length node_list)) 300)) ∅
          (enumerate node_list).
Proof. unfold calculate_grid_layout. apply foldl_ext. by intros m [j a]. Qed.

Lemma elem_of_ids n (l : list node) : n ∈ l -> node_id n ∈ ids l.
Proof. intros Hn. apply list_elem_of_fmap. by exists n. Qed.

Section layout_results.
Context `{PyLib}.

Lemma smart_layout_body_cover l edges g m g' :
  smart_layout_body l edges g = (Return m, g') ->
  forall n, n ∈ l -> is_Some (m !! node_id n).
Proof.
  unfold smart_layout_body, rbind, lift_py.
  destruct (smart_edge_count l edges) as [e|ec]; [done|].
  destruct (smart_groups l) as [e|gs]; [done|].
  destruct (two_pi_over (length gs)) as [e|ai]; [done|].
  destruct (rfold _ ∅ (enumerate gs) g) as [[e|m1] g1]; [done|].
  destruct (ungrouped_spec l m1 g1) as (m' & g'' & Hrun & Hcov & _).
  rewrite Hrun. by intros [= <- <-].
Qed.

(** The positions a layout returns cover the node list. *)
Lemma choose_layout_cover layout l edges g p g' :
  choose_layout layout l edges g = (Return (Some p), g') ->
  forall n, n ∈ l -> is_Some (p !! node_id n).
Proof.
  assert (forall g p g', calculate_random_layout l g = (Return p, g') ->
            forall n, n ∈ l -> is_Some (p !! node_id n)) as Hrandom.
  { intros g0 p0 g0' Hr n Hn.
    destruct (random_fold_spec (-10000) 10000 l ∅ g0) as (m & Hrun & Hdom & _).
    unfold calculate_random_layout in Hr. rewrite Hrun in Hr. injection Hr as <- <-.
    apply Hdom. right. by apply elem_of_ids. }
  unfold choose_layout. repeat case_decide.
  - intros [= <- <-] n Hn. rewrite grid_layout_fill. apply fill_dom. right.
    rewrite enumerate_snd. by apply elem_of_ids.
  - unfold rbind, lift_py. destruct (decide (l = [])) as [-> |Hne]; [done|].
    rewrite circular_layout_fill by done. intros [= <- <-] n Hn.
    apply fill_dom. right. rewrite enumerate_snd. by apply elem_of_ids.
  - unfold rbind. destruct (calculate_random_layout l g) as [[e|p0] g0] eqn:Hr; [done|].
    intros [= <- <-]. by apply (Hrandom g p0 g0).
  - unfold calculate_smart_layout.
    destruct (smart_layout_body l edges g) as [[e|m] g0] eqn:Hb.
    + by rewrite map_size_empty.
    + destruct (size m =? 0); [done|]. intros [= <- <-].
      by apply (smart_layout_body_cover l edges g m g0).
  - unfold rbind. destruct (calculate_random_layout l g) as [[e|p0] g0] eqn:Hr; [done|].
    intros [= <- <-]. by apply (Hrandom g p0 g0).
Qed.

(** Only the circular layout of no node raises. *)
Lemma choose_layout_raise layout l edges g e g' :
  choose_layout layout l edges g = (Raise e, g') ->
  layout = "circular" /\ l = [] /\ e = ZeroDivisionError /\ g' = g.
Proof.
  unfold choose_layout. repeat case_decide.
  - done.
  - unfold rbind, lift_py. destruct (decide (l = [])) as [-> |Hne].
    + by intros [= <- <-].
    + by rewrite circular_layout_fill.
  - unfold rbind. destruct (random_fold_spec (-10000) 10000 l ∅ g) as (m & Hrun & _).
    unfold calculate_random_layout. by rewrite Hrun.
  - by destruct (calculate_smart_layout l edges g).
  - unfold rbind. destruct (random_fold_spec (-10000) 10000 l ∅ g) as (m & Hrun & _).
    unfold calculate_random_layout. by rewrite Hrun.
Qed.

(** Only the smart layout is refused. *)
Lemma choose_layout_refused layout l edges g g' :
  choose_layout layout l edges g = (Return None, g') -> layout = "smart".
Proof.
  unfold choose_layout. repeat case_decide; try done.
  - unfold rbind, lift_py. by destruct (calculate_circular_layout l).
  - unfold rbind. by destruct (calculate_random_layout l g) as [[?|?] ?].
  - unfold rbind. by destruct (calculate_random_layout l g) as [[?|?] ?].
Qed.

(** The grid and the circular layout do not draw. *)
Lemma choose_layout_no_draw layout l edges g :
  layout = "grid" \/ layout = "circular" -> (choose_layout layout l edges g).2 = g.
Proof.
  intros [-> | ->]; unfold choose_layout; simpl; [done|].
  unfold rbind, lift_py. by destruct (calculate_circular_layout l).
Qed.

End layout_results.

(** ** Host names and substrings *)

Lemma split_on_hd c s :
  exists w ws, split_on c s = w :: ws /\ contains c w = false /\
    exists rest, s = w +:+ rest /\ (rest = "" \/ exists r, rest = String c r).
Proof.
  induction s as [|a s (w & ws & Hs & Hw & rest & Hrest & Hsep)].
  - exists "", []. split; [done|]. split; [done|]. exists "". split; [done|by left].
  - simpl. destruct (Ascii.eqb a c) eqn:E.
    + apply Ascii.eqb_eq in E as ->. exists "", (split_on c s).
      split; [done|]. split; [done|]. exists (String c s). split; [done|].
      right. by eexists.
    + rewrite Hs. exists (String a w), ws. split; [done|]. split.
      * simpl. by rewrite E, Hw.
      * exists rest. split; [|done]. by rewrite Hrest at 1.
Qed.

(** X4. [strip_domain] returns the text before the first dot: the result
    holds no dot, the host name is the result followed by nothing or by a
    dot and the rest, a name without dot comes back unchanged, and
    stripping twice is stripping once. *)
Theorem strip_domain_spec (hostname : string) :
  contains dot (strip_domain hostname) = false /\
  (exists rest, hostname = strip_domain hostname +:+ rest /\
                (rest = "" \/ exists r, rest = String dot r)) /\
  (contains dot hostname = false -> strip_domain hostname = hostname) /\
  strip_domain (strip_domain hostname) = strip_domain hostname.
Proof.
  unfold strip_domain.
  destruct (split_on_hd dot hostname) as (w & ws & Hs & Hw & Hrest).
  rewrite Hs. simpl. repeat split; [done|done| |].
  - intros Hno. rewrite (split_on_no_sep _ _ Hno) in Hs. by injection Hs as <- _.
  - by rewrite (split_on_no_sep _ _ Hw).
Qed.

Lemma prefix_spec p s : String.prefix p s = true <-> exists b, s = p +:+ b.
Proof.
  revert s. induction p as [|c p IH]; intros s.
  - split; [intros _; by exists s|intros _; by destruct s].
  - destruct s as [|c' s]; simpl.
    + split; [done|]. by intros [b [=]].
    + destruct (ascii_dec c c') as [-> |Hne].
      * rewrite IH. split; intros [b Hb]; exists b; [by rewrite Hb|by injection Hb].
      * split; [done|]. intros [b [= ? _]]. done.
Qed.

(** [p in s] holds exactly when [s] is some text, then [p], then some text. *)
Lemma is_infix_spec p s : is_infix p s = true <-> exists a b, s = a +:+ p +:+ b.
Proof.
  split.
  - induction s as [|c s IH].
    + cbn [is_infix]. rewrite orb_false_r. intros [b Hb]%prefix_spec. by exists "", b.
    + cbn [is_infix]. intros [Hp|Hi]%orb_true_iff.
      * apply prefix_spec in Hp as [b Hb]. by exists "", b.
      * destruct (IH Hi) as (a & b & ->). by exists (String c a), b.
  - intros (a & b & ->). induction a as [|c a IH].
    + simpl. destruct (p +:+ b) eqn:E; cbn [is_infix]; apply orb_true_iff; left;
        apply prefix_spec; by exists b.
    + change (String c a +:+ p +:+ b) with (String c (a +:+ p +:+ b)).
      cbn [is_infix]. apply orb_true_iff. by right.
Qed.

(** ** The identity resolver *)

Lemma is_empty_false s : is_empty s = false <-> s <> "".
Proof. by destruct s. Qed.

Lemma resolves_fun r ip ip' res res' :
  resolves r ip res -> resolves r ip' res' -> ip = ip' /\ res = res'.
Proof. intros (Hi & Hr & _) (Hi' & Hr' & _). split; congruence. Qed.

Lemma resolve_row_hit m r ip res :
  resolves r ip res -> resolve_row m r = <[ip := strip_domain res]> m.
Proof. intros (Hi & Hr & Hie & Hre). unfold resolve_row. by rewrite Hi, Hr, Hie, Hre. Qed.

Lemma resolve_row_miss m r :
  (forall ip res, ~ resolves r ip res) -> resolve_row m r = m.
Proof.
  intros Hno. unfold resolve_row.
  destruct (IpAddress r) as [ip|] eqn:Hi, (IpResolved r) as [res|] eqn:Hr; try done.
  destruct (is_empty ip) eqn:Hie, (is_empty res) eqn:Hre; try done.
  by destruct (Hno ip res).
Qed.

Lemma resolves_dec r : (exists ip res, resolves r ip res) \/ (forall ip res, ~ resolves r ip res).
Proof.
  unfold resolves.
  destruct (IpAddress r) as [ip|], (IpResolved r) as [res|];
    try (right; intros ?? (? & ? & _); congruence).
  destruct (is_empty ip) eqn:Hie, (is_empty res) eqn:Hre;
    try (right; intros ?? ([= <-] & [= <-] & ? & ?); congruence).
  left. by exists ip, res.
Qed.

Lemma build_ip_to_hostname_snoc reader r :
  build_ip_to_hostname (reader ++ [r]) = resolve_row (build_ip_to_hostname reader) r.
Proof. unfold build_ip_to_hostname. by rewrite foldl_app. Qed.

(** The entries of the resolver table, by the rows that write them. *)
Lemma build_ip_to_hostname_spec (reader : list row) (ip : string) :
  (forall h, build_ip_to_hostname reader !! ip = Some h <->
     exists i r res,
       reader !! i = Some r /\ resolves r ip res /\ h = strip_domain res /\
       forall j r' res', i < j -> reader !! j = Some r' -> ~ resolves r' ip res') /\
  (build_ip_to_hostname reader !! ip = None <->
     forall r res, r ∈ reader -> ~ resolves r ip res).
Proof.
  induction reader as [|r reader [IHs IHn]] using rev_ind.
  - split; [intros h|]; unfold build_ip_to_hostname; simpl; rewrite lookup_empty.
    + split; [done|]. by intros (i & r & res & Hi & _).
    + split; [|done]. intros _ r res Hr. by apply elem_of_nil in Hr.
  - rewrite build_ip_to_hostname_snoc.
    destruct (resolves_dec r) as [(ip0 & res0 & Hres)|Hno].
    + rewrite (resolve_row_hit _ _ _ _ Hres).
      destruct (decide (ip0 = ip)) as [-> |Hne].
      * rewrite lookup_insert_eq. split; [intros h|].
        -- split.
           ++ intros [= <-]. exists (length reader), r, res0.
              split; [by rewrite list_lookup_middle|]. split; [done|]. split; [done|].
              intros j r' res' Hlt Hj. apply lookup_lt_Some in Hj.
              rewrite length_app in Hj. simpl in Hj. lia.
           ++ intros (i & r1 & res1 & Hi & Hr1 & -> & Hlast).
              destruct (decide (i = length reader)) as [-> |Hi'].
              ** rewrite list_lookup_middle in Hi by done. injection Hi as <-.
                 by destruct (resolves_fun _ _ _ _ _ Hres Hr1) as [_ ->].
              ** apply lookup_lt_Some in Hi as Hlt. rewrite length_app in Hlt. simpl in Hlt.
                 destruct (Hlast (length reader) r res0); [lia| |done].
                 by rewrite list_lookup_middle.
        -- split; [done|]. intros Hall. destruct (Hall r res0); [|done].
           apply elem_of_app. right. by left.
      * rewrite lookup_insert_ne by done.
        assert (forall res, ~ resolves r ip res) as Hno.
        { intros res Hr. by destruct (resolves_fun _ _ _ _ _ Hres Hr). }
        split; [intros h|].
        -- rewrite IHs. split.
           ++ intros (i & r1 & res1 & Hi & Hr1 & -> & Hlast).
              exists i, r1, res1. split; [by apply lookup_app_l_Some|].
              split; [done|]. split; [done|]. intros j r' res' Hlt Hj.
              apply lookup_app_Some in Hj as [Hj|[_ Hj]]; [by apply (Hlast j)|].
              apply list_lookup_singleton_Some in Hj as [_ <-]. apply Hno.
           ++ intros (i & r1 & res1 & Hi & Hr1 & -> & Hlast).
              apply lookup_app_Some in Hi as [Hi|[_ Hi]].
              ** exists i, r1, res1. split; [done|]. split; [done|]. split; [done|].
                 intros j r' res' Hlt Hj. apply (Hlast j); [done|].
                 by apply lookup_app_l_Some.
              ** apply list_lookup_singleton_Some in Hi as [_ <-]. by destruct (Hno res1).
        -- rewrite IHn. split.
           ++ intros Hall r1 res1 [Hr1| ->%list_elem_of_singleton]%elem_of_app;
                [by apply Hall|apply Hno].
           ++ intros Hall r1 res1 Hr1. apply Hall. apply elem_of_app. by left.
    + rewrite (resolve_row_miss _ _ Hno). split; [intros h|].
      * rewrite IHs. split.
        -- intros (i & r1 & res1 & Hi & Hr1 & -> & Hlast).
           exists i, r1, res1. split; [by apply lookup_app_l_Some|].
           split; [done|]. split; [done|]. intros j r' res' Hlt Hj.
           apply lookup_app_Some in Hj as [Hj|[_ Hj]]; [by apply (Hlast j)|].
           apply list_lookup_singleton_Some in Hj as [_ <-]. apply Hno.
        -- intros (i & r1 & res1 & Hi & Hr1 & -> & Hlast).
           apply lookup_app_Some in Hi as [Hi|[_ Hi]].
           ++ exists i, r1, res1. split; [done|]. split; [done|]. split; [done|].
              intros j r' res' Hlt Hj. apply (Hlast j); [done|].
              by apply lookup_app_l_Some.
           ++ apply list_lookup_singleton_Some in Hi as [_ <-]. by destruct (Hno ip res1).
      * rewrite IHn. split.
        -- intros Hall r1 res1 [Hr1| ->%list_elem_of_singleton]%elem_of_app;
             [by apply Hall|apply Hno].
        -- intros Hall r1 res1 Hr1. apply Hall. apply elem_of_app. by left.
Qed.

Lemma resolved_by_some_row reader ip :
  is_Some (build_ip_to_hostname reader !! ip)
  <-> exists r res, r ∈ reader /\ resolves r ip res.
Proof.
  destruct (build_ip_to_hostname_spec reader ip) as [Hs Hn].
  destruct (build_ip_to_hostname reader !! ip) as [h|] eqn:E.
  - split; [intros _|by eexists].
    destruct (proj1 (Hs h) eq_refl) as (i & r & res & Hi & Hr & _).
    exists r, res. split; [by eapply list_elem_of_lookup_2|done].
  - split; [by intros [? [=]]|]. intros (r & res & Hr & Hres).
    by destruct (proj1 Hn eq_refl r res Hr).
Qed.

(** X5. The resolver table: [ip_to_hostname] has an entry for an address
    exactly when some row gives that address and a resolved name, both
    non-empty; the entry is the stripped resolved name of the last such
    row. *)
Theorem ip_to_hostname_last_row (reader : list row) (ip : string) :
  (forall h, build_ip_to_hostname reader !! ip = Some h <->
     exists i r res,
       reader !! i = Some r /\ resolves r ip res /\ h = strip_domain res /\
       forall j r' res', i < j -> reader !! j = Some r' -> ~ resolves r' ip res') /\
  (build_ip_to_hostname reader !! ip = None <->
     forall r res, r ∈ reader -> ~ resolves r ip res).
Proof. apply build_ip_to_hostname_spec. Qed.

(** ** The rows and the graph *)

Lemma pfold_app {A B} (f : B -> A -> py B) l1 l2 b :
  pfold f b (l1 ++ l2) = b' ← pfold f b l1; pfold f b' l2.
Proof.
  revert b. induction l1 as [|a l1 IH]; intros b; [done|].
  simpl. destruct (f b a) as [e|b1]; simpl; [done|]. apply IH.
Qed.

Section rows.
Context `{PyLib}.

(** What one iteration of the second loop does, by the guard. *)
Lemma process_row_kept m b r b' :
  process_row m b r = Return b' ->
  if kept r then
    exists event_time computer ip_address t,
      EventTime r = Some event_time /\ Computer r = Some computer /\
      IpAddress r = Some ip_address /\ isoparse_timestamp event_time = Some t /\
      b' = add_event m b t (strip_domain computer) ip_address (TargetUserName r)
  else b' = b.
Proof.
  unfold process_row, kept, strip_domain_field.
  destruct (Computer r) as [c|]; simpl; [|done].
  destruct (EventTime r) as [et|]; [|by intros [= <-]].
  destruct (IpAddress r) as [ip|]; [|by intros [= <-]].
  destruct (is_empty et), (is_empty (strip_domain c)), (is_empty ip); simpl;
    try (by intros [= <-]).
  destruct (isoparse_timestamp et) as [t|] eqn:Ht; simpl; [|done].
  intros [= <-]. by exists et, c, ip, t.
Qed.

Lemma process_row_skip m b r :
  is_Some (Computer r) -> kept r = false -> process_row m b r = Return b.
Proof.
  intros [c Hc]. unfold process_row, kept, strip_domain_field. rewrite Hc. simpl.
  destruct (EventTime r) as [et|]; [|done]. destruct (IpAddress r) as [ip|]; [|done].
  by destruct (is_empty et), (is_empty (strip_domain c)), (is_empty ip).
Qed.

Lemma add_event_edges m b t computer ip user :
  b_edges (add_event m b t computer ip user)
  = b_edges b ++ [Edge (source_id_of m ip) computer t user ""].
Proof.
  destruct (add_event_nodes m b t computer ip user) as (s & -> & -> & _). done.
Qed.

Lemma rows_edges m reader b b' :
  pfold (process_row m) b reader = Return b' ->
  exists es,
    b_edges b' = b_edges b ++ es /\
    Forall2 (logon m) (filter (fun r => kept r = true) reader) es.
Proof.
  revert b. induction reader as [|r reader IH]; intros b.
  - intros [= <-]. exists []. split; [by rewrite app_nil_r|constructor].
  - cbn [pfold]. destruct (process_row m b r) as [e|b1] eqn:Hrow; simpl; [done|].
    intros Hrest. destruct (IH b1 Hrest) as (es & Hes & Hlog).
    apply process_row_kept in Hrow. rewrite filter_cons.
    destruct (kept r) eqn:Hk.
    + destruct Hrow as (et & c & ip & t & Het & Hc & Hip & Ht & ->).
      rewrite add_event_edges in Hes. rewrite <- app_assoc in Hes.
      eexists. split; [done|]. rewrite decide_True by done. constructor; [|done].
      by exists et, c, ip.
    + subst b1. exists es. split; [done|]. by rewrite decide_False.
Qed.

Lemma logon_recolored m r e e' : logon m r e -> recolored e e' -> logon m r e'.
Proof.
  intros (et & c & ip & Het & Hc & Hip & Ht & Hs & Htg & Hu) ->.
  by exists et, c, ip.
Qed.

(** The passes of [import_graph], one after the other. *)
Lemma import_graph_parts reader nodes edges :
  import_graph reader = Return (nodes, edges) ->
  exists b mx,
    pfold (process_row (build_ip_to_hostname reader)) empty_build reader = Return b /\
    build_inv b /\
    Forall2 (fun n n' => style_node (build_ip_to_hostname reader)
                                    (b_node_edge_count b) mx n = Return n')
            (b_nodes b) nodes /\
    Forall2 recolored (b_edges b) edges.
Proof.
  unfold import_graph.
  destruct (pfold _ empty_build reader) as [|b] eqn:Hrows; simpl; [done|].
  apply rows_inv in Hrows as Hb.
  destruct (pmap _ (b_nodes b)) as [|nodes'] eqn:Hstyle; simpl; [done|].
  pose proof (max_edges_spec b Hb) as Hmx.
  destruct (b_edge_groups b) as [|g gs] eqn:Hgroups; [done|].
  simpl in Hmx. rewrite Hmx, <- Hgroups. clear Hmx. simpl.
  destruct (pfold _ (b_edges b) (b_edge_groups b)) as [|edges'] eqn:Hcolor;
    simpl; [done|].
  intros [= <- <-].
  apply pmap_Return in Hstyle. apply (color_edges_spec b _ Hb) in Hcolor.
  eexists b, _. split; [done|]. split; [done|]. split; [done|].
  eapply Forall2_impl; [done|]. by intros ?? [? _].
Qed.

Lemma process_csv_parts reader layout st d st' :
  process_csv reader layout st = (inr d, st') ->
  exists nodes edges p,
    import_graph reader = Return (nodes, edges) /\
    choose_layout layout nodes edges (random_state st)
    = (Return (Some p), random_state st') /\
    d = Snapshot (place p <$> nodes) edges /\
    st' = Server (Some d) (random_state st').
Proof.
  unfold process_csv.
  destruct (import_graph reader) as [|[nodes edges]] eqn:Himp; [done|].
  destruct (choose_layout layout nodes edges (random_state st)) as [[|[p|]] g] eqn:Hl;
    try done.
  intros [= <- <-]. by exists nodes, edges, p.
Qed.

(** X6. The edges of an imported graph are the rows the loop keeps, in
    the order of the file, one edge per row: the source is the resolved
    name of the row's address, or the address itself when the resolver has
    none; the target is the stripped computer name; timestamp and user are
    the row's. *)
Theorem edges_are_kept_rows (reader : list row) (layout : string) (st st' : server)
    (d : snapshot) :
  process_csv reader layout st = (inr d, st') ->
  Forall2 (logon (build_ip_to_hostname reader))
          (filter (fun r => kept r = true) reader) (snap_edges d).
Proof.
  intros (nodes & edges & p & Himp & _ & -> & _)%process_csv_parts. simpl.
  destruct (import_graph_parts _ _ _ Himp) as (b & mx & Hrows & _ & _ & Hrec).
  destruct (rows_edges _ _ _ _ Hrows) as (es & Hes & Hlog). simpl in Hes. subst es.
  clear Himp Hrows. revert Hlog Hrec. generalize (filter (fun r => kept r = true) reader).
  generalize (b_edges b). intros es rows Hlog. revert edges.
  induction Hlog as [|r e rows es Hre Hlog IH]; intros edges Hrec.
  - apply Forall2_nil_inv_l in Hrec as ->. constructor.
  - apply Forall2_cons_inv_l in Hrec as (e' & edges' & He' & Hrec & ->).
    constructor; [by eapply logon_recolored|by apply IH].
Qed.

(** ** The nodes of an imported graph *)

Lemma style_node_fields m cnt mx n n' :
  style_node m cnt mx n = Return n' ->
  node_id n' = node_id n /\ node_label n' = node_label n /\
  node_ip n' = node_ip n /\ node_pos n' = node_pos n /\
  node_color n'
  = Some match node_ip n with
         | Some ip => if decide (is_Some (m !! ip)) then "blue" else "red"
         | None => "red"
         end.
Proof.
  unfold style_node. destruct (cnt !! node_id n) as [c|]; simpl; [|done].
  destruct (calculate_node_size c mx) as [e|size]; simpl; [done|].
  by intros [= <-].
Qed.

Lemma place_fields p n :
  node_label (place p n) = node_label n /\ node_ip (place p n) = node_ip n /\
  node_color (place p n) = node_color n /\
  node_pos (place p n) = match p !! node_id n with
                         | Some q => Some q
                         | None => node_pos n
                         end.
Proof. unfold place. by destruct (p !! node_id n). Qed.

(** X7. Every node of an imported graph has a position, and is blue when
    some row of the file resolves the address in its ['ip'] (gives that
    address with a non-empty resolved name), red otherwise: a node without
    ['ip'] is red. *)
Theorem imported_nodes_colored (reader : list row) (layout : string)
    (st st' : server) (d : snapshot) :
  process_csv reader layout st = (inr d, st') ->
  forall n, n ∈ snap_nodes d ->
    is_Some (node_pos n) /\
    ((exists ip r res, node_ip n = Some ip /\ r ∈ reader /\ resolves r ip res) ->
       node_color n = Some "blue") /\
    (~ (exists ip r res, node_ip n = Some ip /\ r ∈ reader /\ resolves r ip res) ->
       node_color n = Some "red").
Proof.
  intros (nodes & edges & p & Himp & Hlay & -> & _)%process_csv_parts n Hn.
  simpl in Hn. apply list_elem_of_fmap in Hn as (n1 & -> & Hn1).
  destruct (place_fields p n1) as (_ & Hip & Hcol & Hpos). rewrite Hip, Hcol, Hpos.
  split.
  { destruct (choose_layout_cover _ _ _ _ _ _ Hlay n1 Hn1) as [q ->]. by eexists. }
  destruct (import_graph_parts _ _ _ Himp) as (b & mx & _ & _ & Hstyle & _).
  apply list_elem_of_lookup in Hn1 as [i Hi].
  destruct (Forall2_lookup_r _ _ _ _ _ Hstyle Hi) as (n0 & _ & Hst).
  apply style_node_fields in Hst as (_ & _ & Hip1 & _ & Hcol1).
  rewrite Hcol1, Hip1. destruct (node_ip n0) as [ip|].
  - case_decide as Hres.
    + split; [done|]. intros Hno. destruct Hno.
      apply resolved_by_some_row in Hres as (r & res & Hr & Hres). by exists ip, r, res.
    + split; [|done]. intros (ip' & r & res & [= <-] & Hr & Hrs). destruct Hres.
      apply resolved_by_some_row. by exists r, res.
  - split; [|done]. by intros (ip & r & res & [=] & _).
Qed.

Lemma add_node_lookup n l i x : l !! i = Some x -> add_node n l !! i = Some x.
Proof.
  intros Hi. unfold add_node. destruct (has_node (node_id n) l); [done|].
  by apply lookup_app_l_Some.
Qed.

Lemma add_node_new n l : node_id n ∉ ids l -> add_node n l = l ++ [n].
Proof.
  intros Hn. unfold add_node. destruct (has_node (node_id n) l) eqn:E; [|done].
  by apply has_node_true in E.
Qed.

Lemma update_node_lookup k f l i :
  update_node k f l !! i
  = (fun n => if decide (node_id n = k) then f n else n) <$> l !! i.
Proof. unfold update_node. by rewrite list_lookup_fmap. Qed.

Lemma add_event_node_list m b t computer ip user :
  b_nodes (add_event m b t computer ip user)
  = add_node (target_node m computer ip)
      (add_node (source_node (source_id_of m ip) (source_label_of m ip) ip)
                (touch_source m ip (b_nodes b))).
Proof.
  unfold add_event, touch_source, source_id_of, source_label_of.
  by destruct (m !! ip).
Qed.

Lemma process_row_add m b r event_time c ip t :
  EventTime r = Some event_time -> Computer r = Some c -> IpAddress r = Some ip ->
  is_empty event_time = false -> is_empty (strip_domain c) = false ->
  is_empty ip = false -> isoparse_timestamp event_time = Some t ->
  process_row m b r
  = Return (add_event m b t (strip_domain c) ip (TargetUserName r)).
Proof.
  intros Het Hc Hip He1 He2 He3 Ht. unfold process_row, strip_domain_field.
  rewrite Hc. simpl. by rewrite Het, Hip, He1, He2, He3, Ht.
Qed.

(** X8. A kept row leaves every node that is already in the dictionary at
    its place and changes at most one of them: the node that the resolver
    names as the source of the row's address, if it had no ['ip'] yet, gets
    that address as ['ip'] and ["name (address)"] as label. *)
Theorem row_keeps_nodes (m : gmap string string) (b : build) (r : row)
    (event_time c ip : string) (t : Q) :
  EventTime r = Some event_time -> Computer r = Some c -> IpAddress r = Some ip ->
  is_empty event_time = false -> is_empty (strip_domain c) = false ->
  is_empty ip = false -> isoparse_timestamp event_time = Some t ->
  exists b',
    process_row m b r = Return b' /\
    forall i n, b_nodes b !! i = Some n ->
      b_nodes b' !! i
      = Some (if decide (m !! ip = Some (node_id n) /\ node_ip n = None)
              then Node (node_id n) (node_id n +:+ " (" +:+ ip +:+ ")") (node_size n)
                        (Some ip) (node_color n) (node_pos n)
              else n).
Proof.
  intros Het Hc Hip He1 He2 He3 Ht. eexists. split; [by eapply process_row_add|].
  intros i n Hi. rewrite add_event_node_list. apply add_node_lookup, add_node_lookup.
  unfold touch_source, source_label_of. destruct (m !! ip) as [h|] eqn:Hm.
  - rewrite update_node_lookup, Hi. simpl. f_equal. unfold backfill.
    destruct (decide (node_id n = h)) as [<- |Hne].
    + destruct (node_ip n) eqn:Hn.
      * case_decide as Hd; [|done]. destruct Hd as [_ Hd]. discriminate.
      * case_decide as Hd; [done|]. by destruct Hd.
    + case_decide as Hd; [|done]. destruct Hd as [Hd _]. congruence.
  - rewrite Hi. case_decide as Hd; [|done]. destruct Hd as [Hd _]. discriminate.
Qed.

(** X9. A kept row whose source is not yet a node appends the source node
    right after the nodes there were: its id is the resolved name of the
    address, or the address itself when the resolver has none, its label
    is ["name (address)"], or the address, its size is 10, its ['ip'] is
    the address. One or two nodes are appended in all: the target follows
    when it is new too. *)
Theorem row_creates_source (m : gmap string string) (b : build) (r : row)
    (event_time c ip : string) (t : Q) :
  EventTime r = Some event_time -> Computer r = Some c -> IpAddress r = Some ip ->
  is_empty event_time = false -> is_empty (strip_domain c) = false ->
  is_empty ip = false -> isoparse_timestamp event_time = Some t ->
  source_id_of m ip ∉ ids (b_nodes b) ->
  exists b',
    process_row m b r = Return b' /\
    b_nodes b' !! length (b_nodes b)
    = Some (Node (source_id_of m ip) (source_label_of m ip) 10 (Some ip) None None) /\
    length (b_nodes b')
    = length (b_nodes b)
      + (if decide (strip_domain c ∈ ids (b_nodes b) \/ strip_domain c = source_id_of m ip)
         then 1 else 2).
Proof.
  intros Het Hc Hip He1 He2 He3 Ht Hnew. eexists. split; [by eapply process_row_add|].
  rewrite add_event_node_list.
  assert (ids (touch_source m ip (b_nodes b)) = ids (b_nodes b)) as Hids.
  { unfold touch_source. destruct (m !! ip); [|done].
    apply ids_update_node. intros n. apply backfill_id. }
  assert (length (touch_source m ip (b_nodes b)) = length (b_nodes b)) as Hlen.
  { unfold ids in Hids. by rewrite <- (length_fmap node_id), Hids, length_fmap. }
  rewrite (add_node_new (source_node _ _ _)) by (by rewrite Hids).
  split.
  - apply add_node_lookup. rewrite <- Hlen. by rewrite list_lookup_middle.
  - set (src := source_node (source_id_of m ip) (source_label_of m ip) ip).
    set (tgt := target_node m (strip_domain c) ip).
    assert (has_node (node_id tgt) (touch_source m ip (b_nodes b) ++ [src]) = true
            <-> strip_domain c ∈ ids (b_nodes b) \/ strip_domain c = source_id_of m ip)
      as Hhas.
    { rewrite has_node_true. unfold ids. rewrite fmap_app.
      fold (ids (touch_source m ip (b_nodes b))). rewrite Hids. simpl.
      by rewrite elem_of_app, list_elem_of_singleton. }
    unfold add_node. destruct (has_node (node_id tgt) _) eqn:E.
    + rewrite decide_True by (by apply Hhas). rewrite length_app, Hlen. simpl. lia.
    + rewrite decide_False.
      * rewrite !length_app, Hlen. simpl. lia.
      * intros Hin. apply Hhas in Hin. congruence.
Qed.

(** ** Imports that fail *)

Lemma rows_all_skipped m reader b :
  (forall r, r ∈ reader -> is_Some (Computer r) /\ kept r = false) ->
  pfold (process_row m) b reader = Return b.
Proof.
  induction reader as [|r reader IH]; intros Hall; [done|].
  cbn [pfold]. destruct (Hall r) as [Hc Hk]; [left|].
  rewrite process_row_skip by done. simpl. apply IH.
  intros r' Hr'. apply Hall. by right.
Qed.

Lemma upload_file_error reader layout st e st' :
  process_csv reader layout st = (inl e, st') ->
  upload_file (Some reader) layout st = (Response 500 (JError e), st').
Proof. intros Hp. unfold upload_file. by rewrite Hp. Qed.

(** X10. A file without a kept row is refused: when every row is skipped
    by the guard of the second loop (and none lacks its computer field),
    in particular when there is no row at all, [max] over the empty
    [edge_groups] raises; [process_csv] returns that error, [/upload]
    answers 500 with it and the state is what it was. *)
Theorem empty_dataset_error (reader : list row) (layout : string) (st : server) :
  (forall r, r ∈ reader -> is_Some (Computer r) /\ kept r = false) ->
  let e := ErrExn (ValueError "max() arg is an empty sequence") in
  process_csv reader layout st = (inl e, st) /\
  upload_file (Some reader) layout st = (Response 500 (JError e), st).
Proof.
  intros Hall e.
  assert (process_csv reader layout st = (inl e, st)) as Hp.
  { unfold process_csv, import_graph. by rewrite (rows_all_skipped _ _ _ Hall). }
  split; [done|]. by apply upload_file_error.
Qed.

Lemma rows_all_return m pre b :
  (forall r, r ∈ pre ->
     is_Some (Computer r) /\
     (kept r = true ->
      exists event_time, EventTime r = Some event_time /\
                         is_Some (isoparse_timestamp event_time))) ->
  exists b', pfold (process_row m) b pre = Return b'.
Proof.
  revert b. induction pre as [|r pre IH]; intros b Hall; [by eexists|].
  cbn [pfold]. destruct (Hall r) as [[c Hc] Hk]; [left|].
  assert (exists b1, process_row m b r = Return b1) as [b1 ->].
  { destruct (kept r) eqn:Hkept.
    - destruct (Hk eq_refl) as (et & Het & [t Ht]).
      unfold kept in Hkept. rewrite Het, Hc in Hkept.
      destruct (IpAddress r) as [ip|] eqn:Hip; [|done].
      apply andb_true_iff in Hkept as [[He1 He2]%andb_true_iff He3].
      apply negb_true_iff in He1, He2, He3.
      eexists. by eapply process_row_add.
    - eexists. apply process_row_skip; [by eexists|done]. }
  simpl. apply IH. intros r' Hr'. apply Hall. by right.
Qed.

(** X11. A row whose computer field holds [None] (a line of the file too
    short to reach that column) aborts the import, whatever else it holds:
    when the rows before it pass, [strip_domain] raises on it,
    [process_csv] returns the error, [/upload] answers 500 with it and the
    state is what it was. *)
Theorem short_row_aborts_import (pre post : list row) (r : row) (layout : string)
    (st : server) :
  Computer r = None ->
  (forall r', r' ∈ pre ->
     is_Some (Computer r') /\
     (kept r' = true ->
      exists event_time, EventTime r' = Some event_time /\
                         is_Some (isoparse_timestamp event_time))) ->
  let e := ErrExn (AttributeError "'NoneType' object has no attribute 'split'") in
  process_csv (pre ++ r :: post) layout st = (inl e, st) /\
  upload_file (Some (pre ++ r :: post)) layout st = (Response 500 (JError e), st).
Proof.
  intros Hc Hpre e.
  assert (process_csv (pre ++ r :: post) layout st = (inl e, st)) as Hp.
  { unfold process_csv, import_graph. rewrite pfold_app.
    destruct (rows_all_return (build_ip_to_hostname (pre ++ r :: post)) pre empty_build Hpre)
      as [b ->].
    simpl. unfold process_row, strip_domain_field. by rewrite Hc. }
  split; [done|]. by apply upload_file_error.
Qed.

End rows.

(** ** Uploads and the store *)

Lemma place_moved p n : moved n (place p n).
Proof. unfold moved, place. by destruct (p !! node_id n). Qed.

Lemma moved_refl n : moved n n.
Proof. by repeat split. Qed.

Lemma Forall2_moved_place p (l : list node) : Forall2 moved l (place p <$> l).
Proof. apply Forall2_fmap_r, Forall_Forall2_diag, Forall_forall. intros n _. apply place_moved. Qed.

Lemma Forall2_moved_refl l : Forall2 moved l l.
Proof. apply Forall_Forall2_diag, Forall_forall. intros n _. apply moved_refl. Qed.

Lemma place_covered p q n :
  is_Some (p !! node_id n) -> place p (place q n) = place p n.
Proof.
  intros [x Hx]. unfold place. destruct (q !! node_id n); simpl; by rewrite Hx.
Qed.

Lemma place_twice p q (l : list node) :
  (forall n, n ∈ l -> is_Some (p !! node_id n)) ->
  place p <$> (place q <$> l) = place p <$> l.
Proof.
  intros Hcov. rewrite <- list_fmap_compose. apply list_fmap_ext.
  intros i n Hi. simpl. apply place_covered, Hcov. by eapply list_elem_of_lookup_2.
Qed.

Lemma node_ip_place p (l : list node) : node_ip <$> (place p <$> l) = node_ip <$> l.
Proof.
  rewrite <- list_fmap_compose. apply list_fmap_ext. intros i n _. simpl.
  by destruct (place_fields p n) as (_ & -> & _).
Qed.

Section uploads.
Context `{PyLib}.

Lemma wf_nodes_nonempty d : wf_snapshot d -> snap_nodes d <> [].
Proof.
  intros Hwf Hnil. destruct (snap_edges d) as [|e es] eqn:Hes; [by apply (wf_edges _ Hwf)|].
  assert (edge_source e ∈ ids (snap_nodes d)) as Hin.
  { apply (wf_nodes _ Hwf), degree_pos. rewrite Hes. apply is_endpoint_source. left. }
  rewrite Hnil in Hin. by apply elem_of_nil in Hin.
Qed.

(** What an upload with a file comes to. *)
Lemma upload_file_outcome reader layout st :
  (exists d st',
     process_csv reader layout st = (inr d, st') /\
     upload_file (Some reader) layout st = (Response 200 (jsonify_data d), st') /\
     current_data st' = Some d /\ wf_snapshot d)
  \/ (exists e st',
        process_csv reader layout st = (inl e, st') /\
        upload_file (Some reader) layout st = (Response 500 (JError e), st') /\
        current_data st' = current_data st /\
        (e = ErrMsg missing_ips \/ exists x, e = ErrExn x)).
Proof.
  destruct (process_csv reader layout st) as [[e|d] st'] eqn:Hp.
  - right. exists e, st'. split; [done|]. split; [by apply upload_file_error|].
    split; [by eapply process_csv_error|].
    revert Hp. unfold process_csv.
    destruct (import_graph reader) as [x|[nodes edges]]; [intros [= <- _]; right; by eexists|].
    destruct (choose_layout layout nodes edges (random_state st)) as [[x|[p|]] g].
    + intros [= <- _]. right. by eexists.
    + done.
    + intros [= <- _]. by left.
  - left. exists d, st'. destruct (process_csv_ok _ _ _ _ _ Hp) as [Hwf Hd].
    split; [done|]. split; [|done]. unfold upload_file. rewrite Hp.
    pose proof (wf_nodes_nonempty d Hwf) as Hn. pose proof (wf_edges d Hwf) as He.
    by destruct (snap_nodes d), (snap_edges d).
Qed.

(** X12. An upload with a file either publishes or keeps: it answers 200
    with the graph [process_csv] built, which has nodes and edges and is
    from then on the stored snapshot, or it answers 500 with the error of
    [process_csv] and the stored snapshot is the one there was. The answer
    "Invalid data structure" is never given. *)
Theorem upload_publishes_or_keeps (reader : list row) (layout : string) (st : server) :
  let resp := (upload_file (Some reader) layout st).1 in
  let st' := (upload_file (Some reader) layout st).2 in
  (exists d,
     process_csv reader layout st = (inr d, st') /\
     resp = Response 200 (JGraph (snap_nodes d) (snap_edges d)) /\
     current_data st' = Some d /\ snap_nodes d <> [] /\ snap_edges d <> [])
  \/ (exists e,
        process_csv reader layout st = (inl e, st') /\
        resp = Response 500 (JError e) /\
        current_data st' = current_data st /\
        e <> ErrMsg "Invalid data structure").
Proof.
  destruct (upload_file_outcome reader layout st)
    as [(d & st' & Hp & -> & Hd & Hwf)|(e & st' & Hp & -> & Hd & He)]; simpl.
  - left. exists d. repeat split; try done.
    + by apply wf_nodes_nonempty.
    + by apply (wf_edges d).
  - right. exists e. repeat split; try done.
    by destruct He as [-> |[x ->]].
Qed.

(** X13. Reading back: after an upload answered 200, [/full_graph]
    answers with the very same body; after any other answer to an upload,
    [/full_graph] and [/nodes] answer what they answered before it. *)
Theorem upload_then_full_graph (file : option (list row)) (layout : string)
    (st : server) :
  let resp := (upload_file file layout st).1 in
  let st' := (upload_file file layout st).2 in
  (status resp = 200 -> get_full_graph st' = resp) /\
  (status resp <> 200 ->
     get_full_graph st' = get_full_graph st /\ get_nodes st' = get_nodes st).
Proof.
  destruct file as [reader|]; [|by split].
  destruct (upload_file_outcome reader layout st)
    as [(d & st' & Hp & -> & Hd & Hwf)|(e & st' & Hp & -> & Hd & He)]; simpl.
  - split; [|done]. intros _. unfold get_full_graph. by rewrite Hd.
  - split; [done|]. intros _. unfold get_full_graph, get_nodes. by rewrite Hd.
Qed.

Lemma update_layout_outcome layout st d :
  current_data st = Some d ->
  (exists p g,
     choose_layout layout (snap_nodes d) (snap_edges d) (random_state st)
     = (Return (Some p), g) /\
     update_layout layout st
     = (Response 200 (JGraph (place p <$> snap_nodes d) (snap_edges d)),
        Server (Some (Snapshot (place p <$> snap_nodes d) (snap_edges d))) g))
  \/ (exists e g,
        choose_layout layout (snap_nodes d) (snap_edges d) (random_state st)
        = (Raise e, g) /\
        update_layout layout st
        = (Response 500 (JError (ErrExn e)), Server (Some d) g))
  \/ (exists g,
        choose_layout layout (snap_nodes d) (snap_edges d) (random_state st)
        = (Return None, g) /\
        update_layout layout st
        = (Response 200 (JError (ErrMsg missing_ips)), Server (Some d) g)).
Proof.
  intros Hd. unfold update_layout. rewrite Hd.
  destruct (choose_layout layout (snap_nodes d) (snap_edges d) (random_state st))
    as [[e|[p|]] g].
  - right. left. by exists e, g.
  - left. by exists p, g.
  - right. right. by exists g.
Qed.

(** X14. A request that is answered with an error leaves the stored
    snapshot as it was, whatever the request. *)
Theorem error_keeps_snapshot (st : server) (r : request) (e : err) :
  body (handle st r).1 = JError e -> current_data (handle st r).2 = current_data st.
Proof.
  destruct r as [[reader|] layout|nid| | |a b|user|layout]; cbn [handle fst snd];
    try done.
  - destruct (upload_file_outcome reader layout st)
      as [(d & st' & Hp & -> & Hd & Hwf)|(e' & st' & Hp & -> & Hd & He)]; simpl; done.
  - destruct (current_data st) as [d|] eqn:Hd; [|by unfold update_layout; rewrite Hd].
    destruct (update_layout_outcome layout st d Hd)
      as [(p & g & _ & ->)|[(x & g & _ & ->)|(g & _ & ->)]]; simpl; done.
Qed.

(** X15. Only an upload changes the graph: after any other request the
    stored snapshot has the same edges and the same nodes in the same
    order, with the same ids, labels, sizes, ['ip'] and colours; at most
    their positions differ. *)
Theorem only_upload_changes_graph (st : server) (r : request) (d : snapshot) :
  current_data st = Some d -> is_upload r = false ->
  exists d',
    current_data (handle st r).2 = Some d' /\
    snap_edges d' = snap_edges d /\
    Forall2 moved (snap_nodes d) (snap_nodes d').
Proof.
  intros Hd Hr.
  destruct r as [file layout|nid| | |a b|user|layout]; cbn [handle fst snd]; try done;
    try (exists d; split; [done|]; split; [done|]; apply Forall2_moved_refl).
  destruct (update_layout_outcome layout st d Hd)
    as [(p & g & _ & ->)|[(x & g & _ & ->)|(g & _ & ->)]]; simpl.
  - eexists. split; [done|]. split; [done|]. apply Forall2_moved_place.
  - exists d. split; [done|]. split; [done|]. apply Forall2_moved_refl.
  - exists d. split; [done|]. split; [done|]. apply Forall2_moved_refl.
Qed.

Lemma handle_no_data st r :
  current_data st = None -> is_upload r = false -> handle st r = (no_data, st).
Proof.
  intros Hd Hr. destruct r; simpl; try done.
  - unfold highlight_data. by rewrite Hd.
  - unfold get_nodes. by rewrite Hd.
  - unfold get_full_graph. by rewrite Hd.
  - unfold filter_data. by rewrite Hd.
  - unfold filter_by_user_route. by rewrite Hd.
  - unfold update_layout. by rewrite Hd.
Qed.

(** X16. Until a file is uploaded nothing happens: a sequence of requests
    without an upload leaves the server in its initial state, random
    generator included, and each further request that is not an upload is
    answered 400, "No graph data available". *)
Theorem no_data_before_upload (rs : list request) (r : request) :
  Forall (fun r' => is_upload r' = false) rs ->
  run init rs = init /\
  (is_upload r = false ->
     handle (run init rs) r
     = (Response 400 (JError (ErrMsg "No graph data available")), init)).
Proof.
  intros Hrs.
  assert (run init rs = init) as ->.
  { unfold run. generalize init, (eq_refl : current_data init = None).
    induction Hrs as [|r' rs Hr' Hrs IH]; intros st Hst; [done|].
    simpl. rewrite (handle_no_data st r' Hst Hr'). simpl. by apply IH. }
  split; [done|]. intros Hr. by apply handle_no_data.
Qed.

End uploads.

(** ** The answers of the queries *)

(** A list of edges of a snapshot, with the nodes whose ids are in a set
    that holds their endpoints, is a graph with referential integrity. *)
Lemma view_integrity d (ks : gset string) es :
  referential_integrity d -> (forall e, e ∈ es -> e ∈ snap_edges d) ->
  (forall e, e ∈ es -> edge_source e ∈ ks /\ edge_target e ∈ ks) ->
  referential_integrity
    (Snapshot (filter (fun n => node_id n ∈ ks) (snap_nodes d)) es).
Proof.
  intros Hri Hsub Hks e He. simpl in *.
  destruct (Hri e (Hsub e He)) as [Hs Ht]. destruct (Hks e He) as [Hs' Ht'].
  unfold ids in *. split.
  - apply list_elem_of_fmap in Hs as (n & Hid & Hn). apply list_elem_of_fmap.
    exists n. split; [done|]. apply list_elem_of_filter. by rewrite <- Hid.
  - apply list_elem_of_fmap in Ht as (n & Hid & Hn). apply list_elem_of_fmap.
    exists n. split; [done|]. apply list_elem_of_filter. by rewrite <- Hid.
Qed.

Lemma user_matches_mentions user e b :
  user_matches user e = Return b -> (b = true <-> mentions user e).
Proof.
  unfold user_matches, mentions. destruct (edge_user e); [|done]. by intros [= <-].
Qed.

(** The comprehension of [filter_by_user_route], when no test raises. *)
Lemma user_filter_edges user es keep :
  pmap (user_matches user) es = Return keep ->
  (fst <$> filter (fun p => p.2 = true) (zip es keep)) = filter (mentions user) es.
Proof.
  revert keep. induction es as [|e es IH]; intros keep; [by intros [= <-]|].
  cbn [pmap]. destruct (user_matches user e) as [|b] eqn:Hb; simpl; [done|].
  destruct (pmap (user_matches user) es) as [|keep'] eqn:Hk; simpl; [done|].
  intros [= <-]. cbn [zip zip_with]. rewrite !filter_cons. simpl.
  apply user_matches_mentions in Hb. specialize (IH keep' eq_refl).
  destruct b.
  - rewrite decide_True by done. rewrite decide_True by (by apply Hb).
    rewrite fmap_cons. simpl. by rewrite IH.
  - rewrite decide_False by done. rewrite decide_False; [done|].
    intros Hm. apply Hb in Hm. done.
Qed.

Lemma user_filter_total user es :
  (forall e, e ∈ es -> is_Some (edge_user e)) ->
  exists keep, pmap (user_matches user) es = Return keep.
Proof.
  induction es as [|e es IH]; intros Hall; [by eexists|].
  destruct (Hall e) as [u Hu]; [left|].
  destruct IH as [keep Hk]; [intros e' He'; apply Hall; by right|].
  assert (user_matches user e = Return (is_infix user u)) as He.
  { unfold user_matches. by rewrite Hu. }
  eexists. cbn [pmap]. rewrite He. simpl. by rewrite Hk.
Qed.

Lemma user_filter_raise user es e :
  e ∈ es -> edge_user e = None ->
  pmap (user_matches user) es
  = Raise (TypeError "argument of type 'NoneType' is not iterable").
Proof.
  intros He Hu. induction es as [|e' es IH]; [by apply elem_of_nil in He|].
  cbn [pmap]. destruct (edge_user e') as [u|] eqn:Hu'.
  - assert (user_matches user e' = Return (is_infix user u)) as ->.
    { unfold user_matches. by rewrite Hu'. }
    simpl. apply elem_of_cons in He as [-> |He]; [congruence|]. by rewrite (IH He).
  - assert (user_matches user e'
            = Raise (TypeError "argument of type 'NoneType' is not iterable")) as ->.
    { unfold user_matches. by rewrite Hu'. }
    done.
Qed.

Section views.
Context `{PyLib}.

(** X17. The graph a query answers with ([/highlight], [/filter],
    [/filter_by_user], [/full_graph]) is a part of the stored snapshot:
    its nodes and its edges are among those of the snapshot, in the order
    of the snapshot, and it has referential integrity by itself: the
    source and the target of each edge of the answer are nodes of the
    answer. *)
Theorem views_are_subgraphs (rs : list request) (d : snapshot) (r : request)
    (nodes : list node) (edges : list edge) :
  current_data (run init rs) = Some d -> is_query r = true ->
  (handle (run init rs) r).1 = Response 200 (JGraph nodes edges) ->
  sublist nodes (snap_nodes d) /\ sublist edges (snap_edges d) /\
  referential_integrity (Snapshot nodes edges).
Proof.
  intros Hd Hq. pose proof (run_ok init rs init_ok d Hd) as Hwf.
  pose proof (wf_referential_integrity d Hwf) as Hri.
  destruct r as [file layout|nid| | |a b|user|layout]; cbn [handle fst]; try done.
  - unfold highlight_data. rewrite Hd. destruct (truthy nid); [|done]. simpl negb.
    cbv iota. destruct (hash_check nid) as [e|[]]; [done|]. simpl.
    intros [= <- <-]. split; [apply sublist_filter|]. split; [apply sublist_filter|].
    apply view_integrity; [done| |].
    + intros e He. by apply list_elem_of_filter in He as [_ ?].
    + intros e He. split; apply elem_of_highlighted; right;
        [by apply is_endpoint_source|by apply is_endpoint_target].
  - unfold get_nodes. by rewrite Hd.
  - unfold get_full_graph. rewrite Hd. intros [= <- <-]. split; [done|]. split; [done|].
    by destruct d.
  - unfold filter_data. rewrite Hd.
    destruct (filter_bounds a b) as [|[lo hi]]; [done|].
    intros [= <- <-]. split; [apply sublist_filter|]. split; [apply sublist_filter|].
    apply view_integrity; [done| |].
    + intros e He. by apply list_elem_of_filter in He as [_ ?].
    + intros e He. split; apply elem_of_endpoint_ids;
        [by apply is_endpoint_source|by apply is_endpoint_target].
  - unfold filter_by_user_route. rewrite Hd.
    destruct (pmap (user_matches user) (snap_edges d)) as [|keep] eqn:Hk; [done|].
    rewrite (user_filter_edges _ _ _ Hk).
    intros [= <- <-]. split; [apply sublist_filter|]. split; [apply sublist_filter|].
    apply view_integrity; [done| |].
    + intros e He. by apply list_elem_of_filter in He as [_ ?].
    + intros e He. split; apply elem_of_endpoint_ids;
        [by apply is_endpoint_source|by apply is_endpoint_target].
Qed.

(** X19. When every stored edge has a user, [/filter_by_user] answers 200
    with exactly the stored edges in whose user the text asked for occurs
    (their user is some text, then the text asked for, then some text),
    and with the nodes that are endpoints of those edges. Asked for the
    empty text it answers with the whole snapshot. *)
Theorem filter_by_user_spec (rs : list request) (d : snapshot) (user : string) :
  current_data (run init rs) = Some d ->
  (forall e, e ∈ snap_edges d -> is_Some (edge_user e)) ->
  let edges := filter (mentions user) (snap_edges d) in
  let nodes := filter (fun n => is_endpoint edges (node_id n)) (snap_nodes d) in
  filter_by_user_route user (run init rs) = Response 200 (JGraph nodes edges) /\
  (forall e, e ∈ edges <->
     e ∈ snap_edges d /\ exists u a b, edge_user e = Some u /\ u = a +:+ user +:+ b) /\
  (forall k, k ∈ ids nodes <-> is_endpoint edges k) /\
  (user = "" -> edges = snap_edges d /\ nodes = snap_nodes d).
Proof.
  intros Hd Husers edges nodes.
  pose proof (run_ok init rs init_ok d Hd) as Hwf.
  assert (forall e, mentions user e
                    <-> exists u a b, edge_user e = Some u /\ u = a +:+ user +:+ b) as Hm.
  { intros e. unfold mentions. destruct (edge_user e) as [u|].
    - rewrite is_infix_spec. split.
      + intros (a & b & ->). by exists (a +:+ user +:+ b), a, b.
      + intros (u' & a & b & [= <-] & ->). by exists a, b.
    - split; [done|]. by intros (u & a & b & [=] & _). }
  assert (forall e, e ∈ edges -> e ∈ snap_edges d) as Hsub.
  { intros e He. by apply list_elem_of_filter in He as [_ ?]. }
  split; [|split; [|split]].
  - unfold filter_by_user_route. rewrite Hd.
    destruct (user_filter_total user (snap_edges d) Husers) as [keep Hk].
    rewrite Hk, (user_filter_edges _ _ _ Hk). fold edges. do 2 f_equal.
    apply filter_ext_in. intros n Hn. apply elem_of_endpoint_ids.
  - intros e. unfold edges. rewrite list_elem_of_filter, Hm. tauto.
  - by apply endpoint_nodes.
  - intros ->.
    assert (edges = snap_edges d) as Hall.
    { apply filter_all. intros e He. apply Hm. destruct (Husers e He) as [u Hu].
      by exists u, "", u. }
    split; [done|]. unfold nodes. rewrite Hall. apply filter_all. intros n Hn.
    apply degree_pos, (wf_nodes _ Hwf). by apply elem_of_ids.
Qed.

(** X20. One stored edge without user (its row had [None] in the user
    column) makes [/filter_by_user] answer 500 to every question: the test
    [user in edge["user"]] raises on it. *)
Theorem filter_by_user_missing_user (st : server) (d : snapshot) (e : edge)
    (user : string) :
  current_data st = Some d -> e ∈ snap_edges d -> edge_user e = None ->
  filter_by_user_route user st
  = Response 500
      (JError (ErrExn (TypeError "argument of type 'NoneType' is not iterable"))).
Proof.
  intros Hd He Hu. unfold filter_by_user_route.
  by rewrite Hd, (user_filter_raise user _ e He Hu).
Qed.

(** X21. An end date on the last day of year 9999 cannot be filtered on:
    adding one day to it overflows, and [/filter] answers 500 with the
    [OverflowError], whatever the start date, provided it parses. *)
Theorem filter_end_overflow (st : server) (d : snapshot)
    (start_date end_date : string) (start end_ : Z) (a : Q) :
  current_data st = Some d ->
  strptime_minute start_date = Some start -> naive_timestamp start = Some a ->
  strptime_minute end_date = Some end_ -> (datetime_max < end_ + 86400)%Z ->
  filter_data start_date end_date st = Response 500 (JError (ErrExn OverflowError)).
Proof.
  intros Hd Hs Ha He Hover. unfold filter_data. rewrite Hd.
  unfold filter_bounds, parse_minute, timestamp_of. rewrite Hs. simpl. rewrite Ha. simpl.
  rewrite He. simpl. unfold datetime_add.
  assert ((end_ + 86400 <=? datetime_max)%Z = false) as -> by (by apply Z.leb_gt).
  by rewrite andb_false_r.
Qed.

(** X29. No stored node is isolated: [/highlight] with the id of a stored
    node, the empty id apart, answers with at least one edge, every edge of
    the answer has that node as source or target, and the node itself is
    among the nodes of the answer. *)
Theorem highlight_of_stored_node (rs : list request) (d : snapshot) (x : string) :
  current_data (run init rs) = Some d -> x ∈ ids (snap_nodes d) -> x <> "" ->
  exists nodes edges,
    highlight_data (JStr x) (run init rs) = Return (Response 200 (JGraph nodes edges)) /\
    edges <> [] /\ (forall e, e ∈ edges -> touches x e) /\ x ∈ ids nodes.
Proof.
  intros Hd Hx Hne. pose proof (run_ok init rs init_ok d Hd) as Hwf.
  rewrite (highlight_data_string x _ d Hd Hne).
  eexists _, _. split; [done|].
  pose proof Hx as Hend.
  apply (wf_nodes _ Hwf), degree_pos, is_endpoint_elem in Hend.
  destruct Hend as (e & He & Hk).
  assert (e ∈ filter (touches x) (snap_edges d)) as Hin.
  { by apply list_elem_of_filter. }
  split; [|split].
  - intros Hnil. rewrite Hnil in Hin. by apply elem_of_nil in Hin.
  - intros e' He'. by apply list_elem_of_filter in He' as [? _].
  - unfold ids in *. apply list_elem_of_fmap in Hx as (n & Hid & Hn).
    apply list_elem_of_fmap. exists n. split; [done|]. apply list_elem_of_filter.
    split; [|done]. apply elem_of_highlighted. left. rewrite <- Hid.
    by apply elem_of_singleton.
Qed.

(** X25. [/nodes] lists the stored nodes in order, one entry per node,
    with pairwise distinct ids, each of which is the source or the target
    of some stored edge. *)
Theorem nodes_listing (rs : list request) (d : snapshot) :
  current_data (run init rs) = Some d ->
  exists l,
    get_nodes (run init rs) = Response 200 (JNodes l) /\
    l = (fun n => (node_id n, node_label n)) <$> snap_nodes d /\
    NoDup l.*1 /\
    forall k, k ∈ l.*1 <-> is_endpoint (snap_edges d) k.
Proof.
  intros Hd. pose proof (run_ok init rs init_ok d Hd) as Hwf.
  eexists. split; [by unfold get_nodes; rewrite Hd|]. split; [done|].
  assert (((fun n => (node_id n, node_label n)) <$> snap_nodes d).*1 = ids (snap_nodes d))
    as ->.
  { unfold ids. rewrite <- list_fmap_compose. by apply list_fmap_ext. }
  split; [apply (wf_nodup _ Hwf)|]. intros k. rewrite <- degree_pos. apply (wf_nodes _ Hwf).
Qed.

End views.

(** ** Layouts of the stored snapshot *)

Section relayout.
Context `{PyLib}.

Lemma choose_layout_place layout q nodes edges g :
  choose_layout layout (place q <$> nodes) edges g = choose_layout layout nodes edges g.
Proof. apply choose_layout_same; [apply ids_place|apply node_ip_place]. Qed.

Lemma choose_layout_grid nodes edges g :
  choose_layout "grid" nodes edges g = (Return (Some (calculate_grid_layout nodes)), g).
Proof. done. Qed.

Lemma place_pos p n :
  is_Some (p !! node_id n) -> node_pos (place p n) = p !! node_id n.
Proof. intros [x Hx]. unfold place. by rewrite Hx. Qed.

(** X18. On a stored snapshot only the smart layout can be refused:
    [/layout] with any other name answers 200 with the snapshot it then
    stores, in which the edges are the same, the nodes are the same but for
    their positions, and the position of each node is the one the layout
    computed for its id. *)
Theorem layout_succeeds_unless_smart (rs : list request) (d : snapshot)
    (layout : string) :
  current_data (run init rs) = Some d -> layout <> "smart" ->
  exists p g,
    choose_layout layout (snap_nodes d) (snap_edges d) (random_state (run init rs))
    = (Return (Some p), g) /\
    update_layout layout (run init rs)
    = (Response 200 (JGraph (place p <$> snap_nodes d) (snap_edges d)),
       Server (Some (Snapshot (place p <$> snap_nodes d) (snap_edges d))) g) /\
    Forall2 (fun n n' => moved n n' /\ node_pos n' = p !! node_id n /\ is_Some (node_pos n'))
            (snap_nodes d) (place p <$> snap_nodes d).
Proof.
  intros Hd Hsmart. pose proof (run_ok init rs init_ok d Hd) as Hwf.
  destruct (update_layout_outcome layout _ d Hd)
    as [(p & g & Hl & Hu)|[(x & g & Hl & _)|(g & Hl & _)]].
  - exists p, g. split; [done|]. split; [done|].
    apply Forall2_fmap_r, Forall_Forall2_diag, Forall_forall. intros n Hn.
    pose proof (choose_layout_cover _ _ _ _ _ _ Hl n Hn) as Hcov.
    split; [apply place_moved|]. rewrite place_pos by done. by split.
  - apply choose_layout_raise in Hl as (_ & Hnil & _). by destruct (wf_nodes_nonempty d Hwf).
  - by apply choose_layout_refused in Hl.
Qed.

(** X22. Uploading with a layout is uploading with the grid and asking for
    the layout afterwards: when the upload with [layout] succeeds, the
    upload of the same file with ["grid"] followed by [/layout] with
    [layout] answers the same graph and leaves the same state. *)
Theorem upload_is_grid_then_layout (reader : list row) (layout : string)
    (st st' : server) (d : snapshot) :
  process_csv reader layout st = (inr d, st') ->
  update_layout layout (process_csv reader "grid" st).2
  = (Response 200 (JGraph (snap_nodes d) (snap_edges d)), st').
Proof.
  intros (nodes & edges & p & Himp & Hl & -> & ->)%process_csv_parts.
  unfold process_csv. rewrite Himp, choose_layout_grid.
  cbn [snd]. unfold update_layout. cbn [current_data random_state snap_nodes snap_edges].
  rewrite choose_layout_place, Hl. cbn [snap_nodes snap_edges jsonify_data].
  by rewrite (place_twice _ _ _ (choose_layout_cover _ _ _ _ _ _ Hl)).
Qed.

(** X23. A grid or circular layout leaves no trace: [/layout] with one of
    these two names followed by a second [/layout] that is not refused
    gives the answer and the state of the second alone. In particular
    asking twice for the grid, or twice for the circle, is asking once. *)
Theorem layout_overrides_layout (layout1 layout2 : string) (st : server) :
  layout1 = "grid" \/ layout1 = "circular" ->
  body (update_layout layout2 st).1 <> JError (ErrMsg missing_ips) ->
  update_layout layout2 (update_layout layout1 st).2 = update_layout layout2 st.
Proof.
  intros H1 Hok. destruct st as [[d|] g]; [|done].
  destruct (update_layout_outcome layout1 (Server (Some d) g) d eq_refl)
    as [(q & g1 & Hl1 & ->)|[(x & g1 & Hl1 & ->)|(g1 & Hl1 & ->)]];
    pose proof (choose_layout_no_draw layout1 (snap_nodes d) (snap_edges d) g H1) as Hg;
    cbn [random_state] in Hl1; rewrite Hl1 in Hg; cbn [snd] in *; subst g1; try done.
  destruct (update_layout_outcome layout2 (Server (Some d) g) d eq_refl)
    as [(p & g2 & Hl2 & Hu)|[(x & g2 & Hl2 & Hu)|(g2 & Hl2 & Hu)]]; rewrite Hu in *.
  - unfold update_layout. cbn [current_data random_state snap_nodes snap_edges] in *.
    rewrite choose_layout_place, Hl2. cbn [jsonify_data snap_nodes snap_edges].
    by rewrite (place_twice _ _ _ (choose_layout_cover _ _ _ _ _ _ Hl2)).
  - cbn [random_state] in Hl2. apply choose_layout_raise in Hl2 as Hnil.
    destruct Hnil as (_ & Hnil & _). destruct d as [nodes edges]. simpl in Hnil. subst nodes.
    done.
  - done.
Qed.

(** X28. A smart layout that cannot be computed for the stored snapshot
    (no node is grouped, or a grouped node has a third octet that is no
    integer) is refused by [/layout] with the message about missing IP
    addresses as the body of an answer with status 200; the state,
    random generator included, is what it was. *)
Theorem layout_smart_refused (st : server) (d : snapshot) :
  current_data st = Some d -> smart_fails (snap_nodes d) ->
  update_layout "smart" st = (Response 200 (JError (ErrMsg missing_ips)), st).
Proof.
  intros Hd Hfail. destruct st as [cd g]. simpl in Hd. subst cd.
  destruct (smart_layout_body_fails (snap_nodes d) (snap_edges d) g Hfail) as [e He].
  unfold update_layout. cbn [current_data random_state].
  assert (choose_layout "smart" (snap_nodes d) (snap_edges d) g = (Return None, g)) as ->.
  { change (choose_layout "smart" (snap_nodes d) (snap_edges d) g)
      with (let '(node_positions, g') := calculate_smart_layout (snap_nodes d) (snap_edges d) g in
            (Return (if size node_positions =? 0 then None else Some node_positions), g')).
    unfold calculate_smart_layout. rewrite He. by rewrite map_size_empty. }
  done.
Qed.

(** ** What every stored node carries *)

Lemma styled_place p n : is_Some (p !! node_id n) -> is_Some (node_color n) ->
  (node_color n = Some "blue" \/ node_color n = Some "red") -> styled (place p n).
Proof.
  intros Hp _ Hc. unfold styled. destruct (place_fields p n) as (_ & _ & -> & _).
  split; [done|]. rewrite place_pos by done. done.
Qed.

Lemma process_csv_styled reader layout st d st' :
  process_csv reader layout st = (inr d, st') -> Forall styled (snap_nodes d).
Proof.
  intros (nodes & edges & p & Himp & Hl & -> & _)%process_csv_parts. simpl.
  apply Forall_fmap, Forall_forall. intros n Hn. simpl.
  pose proof (choose_layout_cover _ _ _ _ _ _ Hl n Hn) as Hcov.
  destruct (import_graph_parts _ _ _ Himp) as (b & mx & _ & _ & Hstyle & _).
  apply list_elem_of_lookup in Hn as [i Hi].
  destruct (Forall2_lookup_r _ _ _ _ _ Hstyle Hi) as (n0 & _ & Hst).
  apply style_node_fields in Hst as (_ & _ & _ & _ & Hcol).
  apply styled_place; [done|by rewrite Hcol|]. rewrite Hcol.
  destruct (node_ip n0) as [ip|]; [|by right]. case_decide; [by left|by right].
Qed.

Lemma handle_styled st r :
  (forall d, current_data st = Some d -> Forall styled (snap_nodes d)) ->
  forall d, current_data (handle st r).2 = Some d -> Forall styled (snap_nodes d).
Proof.
  intros Hst. destruct r as [[reader|] layout|nid| | |a b|user|layout];
    cbn [handle snd]; try done.
  - destruct (upload_file_outcome reader layout st)
      as [(d & st' & Hp & -> & Hd & Hwf)|(e' & st' & Hp & -> & Hd & He)]; cbn [snd].
    + intros d' Hd'. rewrite Hd in Hd'. injection Hd' as <-.
      by eapply process_csv_styled.
    + rewrite Hd. apply Hst.
  - destruct (current_data st) as [d|] eqn:Hd;
      [|unfold update_layout; rewrite Hd; simpl; intros d'; by rewrite Hd].
    destruct (update_layout_outcome layout st d Hd)
      as [(p & g & Hl & ->)|[(x & g & _ & ->)|(g & _ & ->)]]; cbn [snd current_data];
      try (intros d' [= <-]; by apply Hst).
    intros d' [= <-]. simpl. apply Forall_fmap, Forall_forall. intros n Hn. simpl.
    specialize (Hst d eq_refl). rewrite Forall_forall in Hst.
    destruct (Hst n Hn) as [Hc _].
    apply styled_place; [by eapply choose_layout_cover| |done].
    destruct Hc as [-> | ->]; by eexists.
Qed.

Lemma run_styled st rs :
  (forall d, current_data st = Some d -> Forall styled (snap_nodes d)) ->
  forall d, current_data (run st rs) = Some d -> Forall styled (snap_nodes d).
Proof.
  revert st. induction rs as [|r rs IH]; intros st Hst; [done|].
  simpl. apply IH. by apply handle_styled.
Qed.

(** X24. Every node of every snapshot the server stores is coloured
    ["blue"] or ["red"] and has a position. *)
Theorem stored_nodes_styled (rs : list request) (d : snapshot) :
  current_data (run init rs) = Some d ->
  forall n, n ∈ snap_nodes d ->
    (node_color n = Some "blue" \/ node_color n = Some "red") /\ is_Some (node_pos n).
Proof.
  intros Hd n Hn.
  assert (Forall styled (snap_nodes d)) as Hall by (by apply (run_styled init rs)).
  rewrite Forall_forall in Hall. by apply Hall.
Qed.

End relayout.

(** ** Edge colours *)

Lemma Qnat_sub a b : b <= a -> (Qnat a - Qnat b == Qnat (a - b))%Q.
Proof.
  intros Hab. unfold Qnat. rewrite Nat2Z.inj_sub by done.
  unfold Zminus. rewrite inject_Z_plus, inject_Z_opp. reflexivity.
Qed.

Lemma Qdiv_unit_interval (a b : Q) :
  (0 <= a)%Q -> (a <= b)%Q -> (0 < b)%Q -> (0 <= a / b <= 1)%Q.
Proof.
  intros Ha Hab Hb. split.
  - apply Qle_shift_div_l; [done|]. by rewrite Qmult_0_l.
  - apply Qle_shift_div_r; [done|]. by rewrite Qmult_1_l.
Qed.


Section edge_colors.
Context `{PyLib}.

Lemma calculate_edge_color_at num_edges max_edges x :
  normalize 1 max_edges num_edges = Return x ->
  calculate_edge_color num_edges max_edges = Return (color_at x).
Proof.
  intros Hx. unfold calculate_edge_color, color_at, rgb_text. rewrite Hx. simpl.
  by destruct (cmap_jet x) as [[[r g] b] a].
Qed.

(** X26. The colour of a group of [num_edges] edges when the largest
    group has [max_edges]: [calculate_edge_color] raises when [max_edges]
    is 0 and returns otherwise. It colours by the colormap at the density
    [x], which is 0 when [max_edges] is 1 and
    [(num_edges - 1) / (max_edges - 1)] otherwise: between 0 and 1 for a
    group no larger than the largest, 0 for a single edge, 1 for the
    largest group, and no smaller for a larger group. *)
Theorem edge_color_density (num_edges max_edges : nat) :
  (max_edges = 0 ->
     calculate_edge_color num_edges max_edges
     = Raise (ValueError "minvalue must be less than or equal to maxvalue")) /\
  (0 < max_edges ->
     exists x,
       normalize 1 max_edges num_edges = Return x /\
       calculate_edge_color num_edges max_edges = Return (color_at x) /\
       (max_edges = 1 -> x = 0%Q) /\
       (1 < max_edges -> (x == (Qnat num_edges - 1) / (Qnat max_edges - 1))%Q) /\
       (1 <= num_edges <= max_edges -> (0 <= x <= 1)%Q) /\
       (num_edges = 1 -> (x == 0)%Q) /\
       (1 < max_edges -> num_edges = max_edges -> (x == 1)%Q) /\
       (forall larger x', num_edges <= larger ->
          normalize 1 max_edges larger = Return x' -> (x <= x')%Q)).
Proof.
  split.
  - intros ->. done.
  - intros Hmx. destruct (decide (max_edges = 1)) as [-> |Hne].
    + exists 0%Q. split; [done|]. split; [by apply calculate_edge_color_at|].
      split; [done|]. split; [lia|].
      split; [done|]. split; [done|]. split; [lia|].
      by intros larger x' _ [= <-].
    + assert (normalize 1 max_edges num_edges
              = Return ((Qnat num_edges - Qnat 1) / (Qnat max_edges - Qnat 1))%Q) as Hx.
      { unfold normalize. destruct (1 =? max_edges) eqn:E1; [apply Nat.eqb_eq in E1; lia|].
        destruct (max_edges <? 1) eqn:E2; [apply Nat.ltb_lt in E2; lia|]. done. }
      assert (0 < Qnat max_edges - Qnat 1)%Q as Hpos.
      { rewrite Qnat_sub by lia. apply Qnat_pos. lia. }
      eexists. split; [done|]. split; [by apply calculate_edge_color_at|].
      split; [done|]. split; [done|]. split; [|split; [|split]].
      * intros [H1 H2]. apply Qdiv_unit_interval; [| |done].
        -- rewrite Qnat_sub by done. change 0%Q with (Qnat 0). apply Qnat_le. lia.
        -- rewrite !Qnat_sub by lia. apply Qnat_le. lia.
      * intros ->. unfold Qdiv. assert (Qnat 1 - Qnat 1 == 0)%Q as -> by ring. ring.
      * intros _ ->. field. intros Hz. rewrite Hz in Hpos. by apply Qlt_irrefl in Hpos.
      * intros larger x' Hle Hx'. unfold normalize in Hx'.
        destruct (1 =? max_edges) eqn:E1; [apply Nat.eqb_eq in E1; lia|].
        destruct (max_edges <? 1) eqn:E2; [apply Nat.ltb_lt in E2; lia|].
        injection Hx' as <-. unfold Qdiv. apply Qmult_le_compat_r.
        -- apply Qplus_le_l. by apply Qnat_le.
        -- by apply Qinv_le_0_compat, Qlt_le_weak.
Qed.


End edge_colors.

(** * Examples *)

#[local] Existing Instance utc_host.

Lemma referential_integrity_Forall d :
  Forall (fun e => edge_source e ∈ ids (snap_nodes d) /\ edge_target e ∈ ids (snap_nodes d))
         (snap_edges d) ->
  referential_integrity d.
Proof. intros Hall e He. by apply (proj1 (Forall_forall _ _) Hall). Qed.

(** The example of the specification: the first two sample rows give two
    nodes and two edges of one colour, and [/filter_by_user] for [alice]
    answers with one edge and its two endpoints. *)
Example two_row_example :
  let st := run init [Upload (Some (take 2 sample_rows)) "grid"] in
  exists d e1 e2,
    current_data st = Some d /\
    ids (snap_nodes d) = ["client1"; "host1"] /\
    snap_edges d = [e1; e2] /\ edge_color e1 = edge_color e2 /\
    filter_by_user_route "alice" st = Response 200 (JGraph (snap_nodes d) [e1]).
Proof. vm_compute. eexists _, _, _. repeat split. Qed.

Lemma sample_stored : current_data sample_server = Some sample_data.
Proof. vm_compute. reflexivity. Qed.

Lemma sample_imported :
  process_csv sample_rows "grid" init = (inr sample_data, sample_server).
Proof. vm_compute. reflexivity. Qed.

(** C1 on the sample log, uploaded to a fresh server. *)
Lemma C1_witness :
  current_data sample_server = Some sample_data /\ referential_integrity sample_data.
Proof.
  split; [exact sample_stored|].
  exact (proj2 (proj2 C1_referential_integrity) sample_requests sample_data sample_stored).
Defined.

(** C2 on the sample log followed by a row dated in another format,
    uploaded over the stored sample snapshot. *)
Lemma C2_witness :
  exists e,
    process_csv (sample_rows ++ [bad_row]) "grid" sample_server = (inl e, sample_server) /\
    upload_file (Some (sample_rows ++ [bad_row])) "grid" sample_server
    = (Response 500 (JError e), sample_server).
Proof.
  apply (C2_malformed_row_aborts_import _ _ _ bad_row "01/02/2023 00:00").
  - apply elem_of_app. right. left.
  - repeat split.
    + exists "host2.local". split; reflexivity.
    + exists "10.0.0.2". split; reflexivity.
  - vm_compute. reflexivity.
Defined.

(** C3 fails: with the sample snapshot stored on a host in UTC, the range
    2023-01-01T00:00 to 2023-01-02T10:30 returns the edge of
    2023-01-03T05:00:00Z, which lies after the midnight that ends the
    calendar day of the end date. *)
Lemma C3_counterexample :
  exists nodes edges end_ midnight,
    current_data sample_server = Some sample_data /\
    late_edge ∈ snap_edges sample_data /\
    filter_data "2023-01-01T00:00" "2023-01-02T10:30" sample_server
    = Response 200 (JGraph nodes edges) /\
    late_edge ∈ edges /\
    strptime_minute "2023-01-02T10:30" = Some end_ /\
    naive_timestamp (next_midnight end_) = Some midnight /\
    (midnight <= edge_timestamp late_edge)%Q.
Proof.
  exists (snap_nodes sample_data), (snap_edges sample_data), 1672655400%Z, 1672704000%Q.
  split; [vm_compute; reflexivity|].
  split; [right; right; left|].
  split; [vm_compute; reflexivity|].
  split; [right; right; left|].
  split; [vm_compute; reflexivity|].
  split; [vm_compute; reflexivity|].
  vm_compute. discriminate.
Qed.

(** C3, on the same request: the range the handler filters by. *)
Lemma C3_witness :
  let edges := filter (within 1672531200 1672741799) (snap_edges sample_data) in
  let nodes := filter (fun n => is_endpoint edges (node_id n)) (snap_nodes sample_data) in
  filter_data "2023-01-01T00:00" "2023-01-02T10:30" sample_server
  = Response 200 (JGraph nodes edges).
Proof.
  refine (proj1 (C3_filter_range sample_requests sample_data
                   "2023-01-01T00:00" "2023-01-02T10:30"
                   1672531200 1672655400 1672531200 1672741799 _ _ _ _ _ _)).
  - vm_compute. reflexivity.
  - vm_compute. reflexivity.
  - vm_compute. reflexivity.
  - unfold datetime_min, datetime_max. lia.
  - vm_compute. reflexivity.
  - vm_compute. reflexivity.
Defined.

(** C4 on the sample log: [host1] has the largest degree, hence size 30. *)
Lemma C4_witness :
  process_csv sample_rows "grid" init = (inr sample_data, sample_server) /\
  (node_size sample_host == 30)%Q /\ (10 < node_size sample_stranger)%Q.
Proof.
  split; [exact sample_imported|]. split.
  - refine (proj1 (proj2 (proj2 (proj2
              (C4_node_size sample_rows "grid" init sample_server sample_data
                 sample_imported sample_host _)))) _).
    + right. left.
    + vm_compute. reflexivity.
  - refine (proj2 (proj2 (proj2 (proj2
              (C4_node_size sample_rows "grid" init sample_server sample_data
                 sample_imported sample_stranger _))))).
    right. right. left.
Defined.

(** C5 fails: the one source of the anonymised log has the ip
    ["10.0.x.1"], which splits into four parts, and still the smart layout
    comes back empty and the upload is refused. *)
Lemma C5_counterexample :
  exists nodes edges n,
    import_graph anonymised_rows = Return (nodes, edges) /\
    n ∈ nodes /\
    node_ip n = Some "10.0.x.1" /\
    split_on dot "10.0.x.1" = ["10"; "0"; "x"; "1"] /\
    upload_file (Some anonymised_rows) "smart" init
    = (Response 500 (JError (ErrMsg missing_ips)), init).
Proof.
  eexists _, _, (Node "10.0.x.1" "10.0.x.1" 30 (Some "10.0.x.1") (Some "red") None).
  split; [vm_compute; reflexivity|].
  split; [left|].
  split; [reflexivity|].
  split; [reflexivity|].
  vm_compute. reflexivity.
Qed.

Lemma sample_smart_ok : ~ smart_fails (snap_nodes sample_data).
Proof.
  intros [Hnone|(n & Hn & [Hg Hint])].
  - apply (Hnone sample_client); [left|reflexivity].
  - apply list_elem_of_In in Hn. simpl in Hn.
    destruct Hn as [<- |[<- |[<- |[]]]]; vm_compute in Hint, Hg; discriminate.
Qed.

(** C5, amended, on the nodes and edges of the sample snapshot: [host1]
    has no ip and is placed by the secondary random layout. *)
Lemma C5_witness :
  exists j,
    (calculate_smart_layout (snap_nodes sample_data) (snap_edges sample_data) 0).1
    !! "host1" = Some (ungrouped_pos_of j).
Proof.
  destruct (C5_smart_layout_amended (snap_nodes sample_data) (snap_edges sample_data) 0)
    as [_ Hok].
  - discriminate.
  - apply (bool_decide_unpack _). vm_compute. exact I.
  - apply referential_integrity_Forall, (bool_decide_unpack _). vm_compute. exact I.
  - destruct (Hok sample_smart_ok) as (groups & positions & g' & _ & _ & _ & Hcalc & _ & Hpos).
    destruct (Hpos sample_host) as [_ Hun]; [right; left|].
    destruct Hun as [j Hj]; [vm_compute; discriminate|].
    exists j. rewrite Hcalc. exact Hj.
Defined.

(** C6 fails: in the snapshot of the nameless log the source node has the
    empty id and one edge leaves it, and [/highlight] with that id answers
    400. *)
Lemma C6_counterexample :
  exists d,
    current_data nameless_server = Some d /\
    "" ∈ ids (snap_nodes d) /\
    length (filter (touches "") (snap_edges d)) = 1 /\
    highlight_data (JStr "") nameless_server
    = Return (Response 400 (JError (ErrMsg "Node ID is required"))).
Proof.
  eexists. split; [vm_compute; reflexivity|].
  split; [left|]. split; [reflexivity|]. reflexivity.
Qed.

(** C6, amended, for the unresolved source of the sample log. *)
Lemma C6_witness :
  let edges := filter (touches "10.0.7.9") (snap_edges sample_data) in
  let nodes := filter (fun n => is_endpoint edges (node_id n)) (snap_nodes sample_data) in
  highlight_data (JStr "10.0.7.9") sample_server
  = Return (Response 200 (JGraph nodes edges)).
Proof.
  refine (proj1 (C6_highlight_amended sample_requests sample_data "10.0.7.9" _ _)).
  - vm_compute. reflexivity.
  - discriminate.
Defined.

(** C7 on the sample log: the two edges from [client1] to [host1]. *)
Lemma C7_witness :
  process_csv sample_rows "grid" init = (inr sample_data, sample_server) /\
  edge_color first_edge = edge_color second_edge.
Proof.
  split; [exact sample_imported|].
  refine (proj1 (proj2 (C7_edge_color sample_rows "grid" init sample_server sample_data
                          sample_imported)) first_edge second_edge _ _ _).
  - left.
  - right. left.
  - left. split; reflexivity.
Defined.

(** C8 on the three nodes of the sample snapshot: the grid has side 2 and
    the third node opens the second row. *)
Lemma C8_witness :
  calculate_grid_layout (snap_nodes sample_data) !! "10.0.7.9"
  = Some (Pos (Int 0) (Int 300) (Int 0)).
Proof.
  refine (proj1 (proj1 (proj2 (C8_grid_layout (snap_nodes sample_data) _ _))
                   2 sample_stranger _)).
  - discriminate.
  - apply (bool_decide_unpack _). vm_compute. exact I.
  - reflexivity.
Defined.



(** C10 fails: in a log whose first row is a logon of [client1] to
    itself, the node of the computer is created as the source of the row
    and has the row's IP as ['ip']. *)
Lemma C10_counterexample :
  exists b',
    ("client1" ∉ ids (b_nodes empty_build)) /\
    process_row (build_ip_to_hostname sample_rows) empty_build
      (event "2023-01-01T00:00:00Z" "client1.local" "10.0.0.1" "alice" "client1.local")
    = Return b' /\
    b_nodes b'
    = [Node "client1" "client1 (10.0.0.1)" 10 (Some "10.0.0.1") None None].
Proof.
  eexists. split; [apply not_elem_of_nil|]. split; [vm_compute; reflexivity|].
  reflexivity.
Qed.

(** C10, amended, on the first row of the sample log, whose source IP the
    resolver knows: the target [host1] is labelled with that IP and has no
    ['ip']. *)
Lemma C10_witness :
  exists b',
    process_row (build_ip_to_hostname sample_rows) empty_build
      (event "2023-01-01T00:00:00Z" "host1.local" "10.0.0.1" "alice" "client1.local")
    = Return b' /\
    last (b_nodes b') = Some (Node "host1" "host1 (10.0.0.1)" 10 None None None).
Proof.
  destruct (C10_target_label_amended (build_ip_to_hostname sample_rows) empty_build
              (event "2023-01-01T00:00:00Z" "host1.local" "10.0.0.1" "alice"
                     "client1.local")
              "2023-01-01T00:00:00Z" "host1.local" "10.0.0.1" 1672531200)
    as (b' & Hrun & Hlast & _); try reflexivity.
  - apply not_elem_of_nil.
  - exists b'. split; [exact Hrun|]. rewrite Hlast.
    + vm_compute. reflexivity.
    + vm_compute. discriminate.
Defined.

(** In the sample snapshot each id occurs once, so each node is the last
    of its id. *)
Lemma sample_last i n :
  snap_nodes sample_data !! i = Some n ->
  forall j n', i < j -> snap_nodes sample_data !! j = Some n' -> node_id n' <> node_id n.
Proof.
  intros Hi j n' Hlt Hj.
  destruct i as [|[|[|i]]], j as [|[|[|j]]]; try lia; try done;
    injection Hi as <-; injection Hj as <-; discriminate.
Qed.

(** X1 on the three nodes of the sample snapshot: [host1] is the second
    of them and sits one third of the way round the circle. *)
Lemma circular_layout_witness :
  exists node_positions,
    calculate_circular_layout (snap_nodes sample_data) = Return node_positions /\
    node_positions !! "host1"
    = Some (Pos (Float (FMul (FInt 300) (FCos (FMul (FInt 1) (turn_over 3)))))
                (Float (FMul (FInt 300) (FSin (FMul (FInt 1) (turn_over 3)))))
                (Int 0)).
Proof.
  destruct (proj2 (circular_layout_positions (snap_nodes sample_data)))
    as (m & Hm & _ & Hpos); [discriminate|].
  exists m. split; [exact Hm|].
  apply (Hpos 1 sample_host); [reflexivity|]. by apply sample_last.
Defined.

(** X2 on the same nodes, from a fresh generator: nine draws, the last
    three for the third node. *)
Lemma random_layout_witness :
  exists node_positions,
    calculate_random_layout (snap_nodes sample_data) 0 = (Return node_positions, 9) /\
    node_positions !! "10.0.7.9"
    = Some (Pos (Float (FUniform (-10000) 10000 6)) (Float (FUniform (-10000) 10000 7))
                (Float (FUniform (-10000) 10000 8))).
Proof.
  destruct (random_layout_draws (snap_nodes sample_data) 0) as (m & Hm & _ & Hpos).
  exists m. split; [exact Hm|].
  apply (Hpos 2 sample_stranger); [reflexivity|]. by apply sample_last.
Defined.

(** X3 on the sample nodes and the same nodes stripped of label, size,
    colour and position, for the smart layout. *)
Lemma layout_inputs_witness :
  choose_layout "smart" (snap_nodes sample_data) (snap_edges sample_data) 0
  = choose_layout "smart" (bare <$> snap_nodes sample_data) (snap_edges sample_data) 0.
Proof.
  apply (layout_reads_id_and_ip "smart" (snap_nodes sample_data)
           (bare <$> snap_nodes sample_data)); reflexivity.
Defined.

(** X4 on a qualified and on a bare host name. *)
Lemma strip_domain_witness :
  strip_domain "host1.corp.local" = "host1" /\ strip_domain "host1" = "host1".
Proof.
  split; [reflexivity|].
  apply (proj1 (proj2 (proj2 (strip_domain_spec "host1")))). reflexivity.
Defined.

(** X5 on the sample log: the second row is the last to resolve
    [10.0.0.1]; no row resolves [10.0.7.9]. *)
Lemma ip_to_hostname_witness :
  build_ip_to_hostname sample_rows !! "10.0.0.1" = Some "client1" /\
  build_ip_to_hostname sample_rows !! "10.0.7.9" = None.
Proof.
  split.
  - apply (proj1 (ip_to_hostname_last_row sample_rows "10.0.0.1") "client1").
    exists 1, (event "2023-01-02T00:00:00Z" "host1.local" "10.0.0.1" "bob" "client1.local"),
      "client1.local".
    split; [reflexivity|]. split; [by repeat split|]. split; [reflexivity|].
    intros j r' res' Hlt Hj (Hip & _).
    destruct j as [|[|[|j]]]; try lia; [|done].
    injection Hj as <-. discriminate.
  - apply (proj2 (ip_to_hostname_last_row sample_rows "10.0.7.9")).
    intros r res Hr (Hip & Hres & _ & Hne).
    apply list_elem_of_In in Hr. simpl in Hr.
    destruct Hr as [<- |[<- |[<- |[]]]]; try discriminate.
    injection Hres as <-. discriminate.
Defined.

(** X6 on the sample log: three kept rows, three edges. *)
Lemma edges_witness :
  Forall2 (logon (build_ip_to_hostname sample_rows)) sample_rows (snap_edges sample_data).
Proof.
  exact (edges_are_kept_rows sample_rows "grid" init sample_server sample_data
           sample_imported).
Defined.

(** X7 on the sample log: the resolved client is blue, the host, which
    has no ['ip'], is red. *)
Lemma node_colors_witness :
  node_color sample_client = Some "blue" /\ node_color sample_host = Some "red".
Proof.
  split.
  - refine (proj1 (proj2 (imported_nodes_colored sample_rows "grid" init sample_server
                            sample_data sample_imported sample_client _)) _).
    + left.
    + exists "10.0.0.1",
        (event "2023-01-01T00:00:00Z" "host1.local" "10.0.0.1" "alice" "client1.local"),
        "client1.local".
      split; [reflexivity|]. split; [left|by repeat split].
  - refine (proj2 (proj2 (imported_nodes_colored sample_rows "grid" init sample_server
                            sample_data sample_imported sample_host _)) _).
    + right. left.
    + intros (ip & r & res & Hip & _). discriminate.
Defined.

(** X8 on the first sample row, after [client1] was seen as a target: the
    node gets the address and the label with the address. *)
Lemma backfill_witness :
  exists b',
    process_row (build_ip_to_hostname sample_rows) target_only
      (event "2023-01-01T00:00:00Z" "host1.local" "10.0.0.1" "alice" "client1.local")
    = Return b' /\
    b_nodes b' !! 0
    = Some (Node "client1" "client1 (10.0.0.1)" 10 (Some "10.0.0.1") None None).
Proof.
  destruct (row_keeps_nodes (build_ip_to_hostname sample_rows) target_only
              (event "2023-01-01T00:00:00Z" "host1.local" "10.0.0.1" "alice"
                     "client1.local")
              "2023-01-01T00:00:00Z" "host1.local" "10.0.0.1" 1672531200)
    as (b' & Hrun & Hnodes); try reflexivity.
  exists b'. split; [exact Hrun|].
  rewrite (Hnodes 0 (Node "client1" "client1" 10 None None None) eq_refl).
  reflexivity.
Defined.

(** X9 on the first sample row and the empty dictionary: source and
    target are both new. *)
Lemma source_node_witness :
  exists b',
    process_row (build_ip_to_hostname sample_rows) empty_build
      (event "2023-01-01T00:00:00Z" "host1.local" "10.0.0.1" "alice" "client1.local")
    = Return b' /\
    b_nodes b' !! 0
    = Some (Node "client1" "client1 (10.0.0.1)" 10 (Some "10.0.0.1") None None) /\
    length (b_nodes b') = 2.
Proof.
  destruct (row_creates_source (build_ip_to_hostname sample_rows) empty_build
              (event "2023-01-01T00:00:00Z" "host1.local" "10.0.0.1" "alice"
                     "client1.local")
              "2023-01-01T00:00:00Z" "host1.local" "10.0.0.1" 1672531200)
    as (b' & Hrun & Hsrc & Hlen); try reflexivity.
  - apply not_elem_of_nil.
  - exists b'. split; [exact Hrun|]. split; [exact Hsrc|]. rewrite Hlen. reflexivity.
Defined.

(** X10 on a log whose only row has no event time, uploaded over the
    sample snapshot. *)
Lemma empty_dataset_witness :
  upload_file (Some undated_rows) "grid" sample_server
  = (Response 500 (JError (ErrExn (ValueError "max() arg is an empty sequence"))),
     sample_server).
Proof.
  refine (proj2 (empty_dataset_error undated_rows "grid" sample_server _)).
  intros r Hr. apply list_elem_of_singleton in Hr as ->. split; [by eexists|reflexivity].
Defined.

(** X11 on the sample log followed by a short line. *)
Lemma short_row_witness :
  upload_file (Some (sample_rows ++ [short_row])) "grid" sample_server
  = (Response 500
       (JError (ErrExn (AttributeError "'NoneType' object has no attribute 'split'"))),
     sample_server).
Proof.
  refine (proj2 (short_row_aborts_import sample_rows [] short_row "grid" sample_server
                   eq_refl _)).
  intros r Hr. apply list_elem_of_In in Hr. simpl in Hr.
  destruct Hr as [<- |[<- |[<- |[]]]]; (split; [by eexists|]); intros _;
    eexists; (split; [reflexivity|]); vm_compute; by eexists.
Defined.

(** X13 on the upload of the sample log to a fresh server. *)
Lemma read_back_witness :
  get_full_graph sample_server = (upload_file (Some sample_rows) "grid" init).1.
Proof.
  apply (proj1 (upload_then_full_graph (Some sample_rows) "grid" init)). reflexivity.
Defined.

Lemma anonymised_stored :
  exists d, current_data anonymised_server = Some d /\
            exists n, n ∈ snap_nodes d /\ bad_octet n.
Proof.
  eexists. split; [vm_compute; reflexivity|].
  exists (Node "10.0.x.1" "10.0.x.1" 30 (Some "10.0.x.1") (Some "red")
               (Some (Pos (Int 0) (Int 0) (Int 0)))).
  split; [left|]. split; reflexivity.
Qed.

(** X14 on the smart layout of the anonymised log, which is refused. *)
Lemma error_keeps_witness :
  current_data (handle anonymised_server (Layout "smart")).2
  = current_data anonymised_server.
Proof.
  apply (error_keeps_snapshot anonymised_server (Layout "smart") (ErrMsg missing_ips)).
  vm_compute. reflexivity.
Defined.

(** X15 on a circular layout of the sample snapshot. *)
Lemma only_upload_witness :
  exists d',
    current_data (handle sample_server (Layout "circular")).2 = Some d' /\
    snap_edges d' = snap_edges sample_data /\
    Forall2 moved (snap_nodes sample_data) (snap_nodes d').
Proof.
  apply (only_upload_changes_graph sample_server (Layout "circular") sample_data);
    reflexivity.
Defined.

(** X16 on a fresh server that is asked for a layout and the nodes, and
    then for the graph. *)
Lemma no_data_witness :
  run init [Layout "random"; GetNodes] = init /\
  handle (run init [Layout "random"; GetNodes]) GetFullGraph
  = (Response 400 (JError (ErrMsg "No graph data available")), init).
Proof.
  destruct (no_data_before_upload [Layout "random"; GetNodes] GetFullGraph) as [Hrun Hr].
  - by repeat constructor.
  - split; [exact Hrun|]. by apply Hr.
Defined.

(** X17 on the highlight of the unresolved source of the sample log. *)
Lemma view_witness :
  exists nodes edges,
    (handle sample_server (Highlight (JStr "10.0.7.9"))).1 = Response 200 (JGraph nodes edges) /\
    sublist edges (snap_edges sample_data) /\
    referential_integrity (Snapshot nodes edges).
Proof.
  eexists _, _. split; [vm_compute; reflexivity|].
  refine (proj2 (views_are_subgraphs sample_requests sample_data (Highlight (JStr "10.0.7.9"))
                   _ _ _ _ _)).
  - vm_compute. reflexivity.
  - reflexivity.
  - vm_compute. reflexivity.
Defined.

(** X18 on the circular layout of the sample snapshot. *)
Lemma layout_succeeds_witness :
  exists p g,
    update_layout "circular" sample_server
    = (Response 200 (JGraph (place p <$> snap_nodes sample_data) (snap_edges sample_data)),
       Server (Some (Snapshot (place p <$> snap_nodes sample_data)
                              (snap_edges sample_data))) g).
Proof.
  destruct (layout_succeeds_unless_smart sample_requests sample_data "circular")
    as (p & g & _ & Hu & _).
  - vm_compute. reflexivity.
  - discriminate.
  - by exists p, g.
Defined.

(** X19 on the sample snapshot: one user holds the text [ob]. *)
Lemma filter_by_user_witness :
  filter_by_user_route "ob" sample_server
  = Response 200 (JGraph [sample_client; sample_host] [second_edge]).
Proof.
  refine (eq_trans (proj1 (filter_by_user_spec sample_requests sample_data "ob" _ _)) _).
  - vm_compute. reflexivity.
  - intros e He. apply list_elem_of_In in He. simpl in He.
    destruct He as [<- |[<- |[<- |[]]]]; by eexists.
  - vm_compute. reflexivity.
Defined.

(** X20 on the log whose row stops before the user column. *)
Lemma missing_user_witness :
  filter_by_user_route "alice" userless_server
  = Response 500
      (JError (ErrExn (TypeError "argument of type 'NoneType' is not iterable"))).
Proof.
  eapply (filter_by_user_missing_user userless_server _
            (Edge "10.0.0.1" "host1" 1672531200 None "rgb(0, 0, 127)")).
  - vm_compute. reflexivity.
  - left.
  - reflexivity.
Defined.

(** X21 on the sample snapshot and the last day of year 9999. *)
Lemma filter_overflow_witness :
  filter_data "2023-01-01T00:00" "9999-12-31T00:00" sample_server
  = Response 500 (JError (ErrExn OverflowError)).
Proof.
  apply (filter_end_overflow sample_server sample_data
           "2023-01-01T00:00" "9999-12-31T00:00" 1672531200 253402214400 1672531200).
  - vm_compute. reflexivity.
  - vm_compute. reflexivity.
  - vm_compute. reflexivity.
  - vm_compute. reflexivity.
  - unfold datetime_max. lia.
Defined.

(** X22 on the sample log and the circular layout. *)
Lemma upload_layout_witness :
  exists d st',
    process_csv sample_rows "circular" init = (inr d, st') /\
    update_layout "circular" (process_csv sample_rows "grid" init).2
    = (Response 200 (JGraph (snap_nodes d) (snap_edges d)), st').
Proof.
  eexists _, _. split; [vm_compute; reflexivity|].
  apply (upload_is_grid_then_layout sample_rows "circular" init).
  vm_compute. reflexivity.
Defined.

(** X23 on the sample snapshot: a grid, then a circle, is a circle; a grid
    twice is a grid. *)
Lemma layout_twice_witness :
  update_layout "circular" (update_layout "grid" sample_server).2
  = update_layout "circular" sample_server /\
  update_layout "grid" (update_layout "grid" sample_server).2
  = update_layout "grid" sample_server.
Proof.
  split.
  - apply (layout_overrides_layout "grid" "circular" sample_server); [by left|].
    vm_compute. discriminate.
  - apply (layout_overrides_layout "grid" "grid" sample_server); [by left|].
    vm_compute. discriminate.
Defined.

(** X24 on the sample snapshot after a random layout. *)
Lemma styled_witness :
  exists d,
    current_data (run init (sample_requests ++ [Layout "random"])) = Some d /\
    forall n, n ∈ snap_nodes d ->
      (node_color n = Some "blue" \/ node_color n = Some "red") /\ is_Some (node_pos n).
Proof.
  eexists. split; [vm_compute; reflexivity|].
  apply (stored_nodes_styled (sample_requests ++ [Layout "random"])).
  vm_compute. reflexivity.
Defined.

(** X25 on the sample snapshot. *)
Lemma nodes_listing_witness :
  get_nodes sample_server
  = Response 200 (JNodes [("client1", "client1 (10.0.0.1)");
                          ("host1", "host1 (10.0.0.1)");
                          ("10.0.7.9", "10.0.7.9")]).
Proof.
  destruct (nodes_listing sample_requests sample_data) as (l & Hl & -> & _).
  - vm_compute. reflexivity.
  - refine (eq_trans Hl _). vm_compute. reflexivity.
Defined.

(** X26 for the two groups of the sample log: the pair with two edges is
    the largest and has density 1, the pair with one edge has density 0. *)
Lemma density_witness :
  exists x1 x2,
    normalize 1 2 1 = Return x1 /\ normalize 1 2 2 = Return x2 /\
    (x1 == 0)%Q /\ (x2 == 1)%Q.
Proof.
  destruct (proj2 (edge_color_density 1 2)) as (x1 & Hx1 & _ & _ & _ & _ & H0 & _); [lia|].
  destruct (proj2 (edge_color_density 2 2)) as (x2 & Hx2 & _ & _ & _ & _ & _ & H1 & _);
    [lia|].
  exists x1, x2. split; [exact Hx1|]. split; [exact Hx2|].
  split; [by apply H0|]. exact (H1 ltac:(lia) eq_refl).
Defined.


(** X28 on the anonymised log, stored with the grid layout. *)
Lemma smart_refused_witness :
  update_layout "smart" anonymised_server
  = (Response 200 (JError (ErrMsg missing_ips)), anonymised_server).
Proof.
  destruct anonymised_stored as (d & Hd & n & Hn & Hbad).
  apply (layout_smart_refused anonymised_server d Hd). right.
  exists n. exact (conj Hn Hbad).
Defined.

(** X29 on the host of the sample snapshot, which every edge enters. *)
Lemma highlight_stored_witness :
  exists nodes edges,
    highlight_data (JStr "host1") sample_server
    = Return (Response 200 (JGraph nodes edges)) /\
    edges <> [] /\ "host1" ∈ ids nodes.
Proof.
  destruct (highlight_of_stored_node sample_requests sample_data "host1")
    as (nodes & edges & Hh & Hne & _ & Hin).
  - vm_compute. reflexivity.
  - right. left.
  - discriminate.
  - exists nodes, edges. exact (conj Hh (conj Hne Hin)).
Defined.
